(** * Vitess control plane: action queue, shard rebuild, binlog reader and
  binlog streaming server.

  A shallow embedding of the Go sources and the properties checked on it:

  - [Tabletmanager]: [ShardInfo.Rebuild] (shard.go) and the agent actor
    [TabletActor.HandleAction] / [StoreActionResponse] (actor.go) running
    against a ZooKeeper store;
  - [BinlogReader]: the start-offset handling of [BinlogReader.serve] and
    [BinlogReader.ServeData] (binlog_reader.go);
  - [Throttle]: [BinlogServer.throttleTicker] (vt_binlog_server.go), on
    IEEE binary64 numbers;
  - [BinlogServer]: the line parser of the binlog server, its transaction
    buffer and key-range filter (vt_binlog_server.go), and the older
    [Blp.handleBeginEvent] of mysqlctl/binlog_parser.go. *)

From Stdlib Require Import ZArith String Ascii List Bool Lia Sorted Floats Uint63.
From stdpp Require Import base option list gmap strings sorting.

Import ListNotations.
Local Open Scope string_scope.
Local Open Scope list_scope.
Local Open Scope Z_scope.

(** ** package key *)

Module Key.

(** [key.KeyspaceId] is a Go string holding raw bytes. *)
Definition KeyspaceId := string.

(** [key.KeyRange]: the pair of bounds; the zero value is [{"", ""}]. *)
Record KeyRange : Type := mkKeyRange { Start : KeyspaceId; End : KeyspaceId }.

Definition zero : KeyRange := mkKeyRange "" "".

#[export] Instance KeyRange_eq_dec : EqDecision KeyRange.
Proof. solve_decision. Defined.

End Key.

(** ** package naming *)

Module Naming.

(** [naming.TabletType]: the enumeration of the data model. *)
Inductive TabletType : Type :=
| TYPE_IDLE | TYPE_MASTER | TYPE_REPLICA | TYPE_RDONLY | TYPE_BATCH
| TYPE_SPARE | TYPE_BACKUP | TYPE_RESTORE | TYPE_LAG | TYPE_LAG_ORPHAN
| TYPE_SCRAP.

#[export] Instance TabletType_eq_dec : EqDecision TabletType.
Proof. solve_decision. Defined.

(** [naming.TabletAlias{Cell, Uid}]; [Uid] is a [uint32]. *)
Record TabletAlias : Type := mkAlias { Cell : string; Uid : Z }.

Definition zero : TabletAlias := mkAlias "" 0.

#[export] Instance TabletAlias_eq_dec : EqDecision TabletAlias.
Proof. solve_decision. Defined.

End Naming.

(** ** package tabletmanager: shard.go *)

Module Shard.
Import Key Naming.

(** The fields of [Tablet] that the shard code reads. *)
Record Tablet : Type := mkTablet {
  tCell : string;
  tUid : Z;
  tParent : TabletAlias;
  tKeyspace : string;
  tShard : string;
  tType : TabletType;
  tKeyRange : KeyRange
}.

Record TabletInfo : Type := mkTabletInfo {
  tabletPath : string;
  tiTablet : Tablet
}.

Record Shard : Type := mkShard {
  MasterAlias : TabletAlias;
  ReplicaAliases : list TabletAlias;
  RdonlyAliases : list TabletAlias;
  KeyRange : Key.KeyRange
}.

Record ShardInfo : Type := mkShardInfo {
  keyspace : string;
  shardName : string;
  siShard : Shard
}.

(** [fmt.Errorf("inconsistent KeyRange: %v != %v", a, b)], the only error
    [Rebuild] builds, kept with its two arguments. *)
Inductive error : Type :=
| ErrInconsistentKeyRange (have got : Key.KeyRange).

Definition newShard : Shard := mkShard Naming.zero [] [] Key.zero.

Definition set_MasterAlias (s : Shard) (a : TabletAlias) : Shard :=
  mkShard a (ReplicaAliases s) (RdonlyAliases s) (KeyRange s).
Definition append_ReplicaAliases (s : Shard) (a : TabletAlias) : Shard :=
  mkShard (MasterAlias s) (ReplicaAliases s ++ [a]) (RdonlyAliases s) (KeyRange s).
Definition append_RdonlyAliases (s : Shard) (a : TabletAlias) : Shard :=
  mkShard (MasterAlias s) (ReplicaAliases s) (RdonlyAliases s ++ [a]) (KeyRange s).
Definition set_KeyRange (s : Shard) (k : Key.KeyRange) : Shard :=
  mkShard (MasterAlias s) (ReplicaAliases s) (RdonlyAliases s) k.

Definition aliasOf (ti : TabletInfo) : TabletAlias :=
  mkAlias (tCell (tiTablet ti)) (tUid (tiTablet ti)).

(** The body of [for i, ti := range shardTablets] in [Rebuild]: [i] is the
    loop index, [tmp] the shard under construction; [inl] is the early
    [return fmt.Errorf(...)]. *)
Fixpoint Rebuild_loop (i : nat) (tmp : Shard) (shardTablets : list TabletInfo)
  : error + Shard :=
  match shardTablets with
  | [] => inr tmp
  | ti :: rest =>
      let tablet := tiTablet ti in
      let alias := mkAlias (tCell tablet) (tUid tablet) in
      let tmp :=
        match tType tablet with
        | TYPE_MASTER => set_MasterAlias tmp alias
        | TYPE_REPLICA => append_ReplicaAliases tmp alias
        | TYPE_RDONLY => append_RdonlyAliases tmp alias
        | _ => tmp
        end in
      match i with
      | O => Rebuild_loop (S i) (set_KeyRange tmp (tKeyRange tablet)) rest
      | S _ =>
          if decide (KeyRange tmp ≠ tKeyRange tablet)
          then inl (ErrInconsistentKeyRange (KeyRange tmp) (tKeyRange tablet))
          else Rebuild_loop (S i) tmp rest
      end
  end.

(** [func (si *ShardInfo) Rebuild(shardTablets []*TabletInfo) error]: the
    receiver after the call and the returned error ([None] is [nil]). *)
Definition Rebuild (si : ShardInfo) (shardTablets : list TabletInfo)
  : ShardInfo * option error :=
  match Rebuild_loop 0 newShard shardTablets with
  | inl e => (si, Some e)
  | inr tmp => (mkShardInfo (keyspace si) (shardName si) tmp, None)
  end.

(** *** The partition of the members by type, stated on its own *)

Definition hasType (ty : TabletType) (ti : TabletInfo) : bool :=
  bool_decide (tType (tiTablet ti) = ty).

Definition aliasesOfType (ty : TabletType) (l : list TabletInfo) : list TabletAlias :=
  map aliasOf (List.filter (hasType ty) l).

(** The key range of the first member, the zero value for no member. *)
Definition firstKeyRange (l : list TabletInfo) : Key.KeyRange :=
  match l with
  | [] => Key.zero
  | ti :: _ => tKeyRange (tiTablet ti)
  end.

(** The first member whose key range differs from [k]. *)
Definition firstMismatch (k : Key.KeyRange) (l : list TabletInfo) : option TabletInfo :=
  List.find (fun ti => bool_decide (tKeyRange (tiTablet ti) ≠ k)) l.

Definition partitioned (l : list TabletInfo) : Shard :=
  mkShard (List.last (aliasesOfType TYPE_MASTER l) Naming.zero)
          (aliasesOfType TYPE_REPLICA l)
          (aliasesOfType TYPE_RDONLY l)
          (firstKeyRange l).

(** *** A shard of two halves, for the examples *)

Definition tablet (cell : string) (uid : Z) (ty : TabletType) (k : Key.KeyRange)
  : TabletInfo :=
  mkTabletInfo "" (mkTablet cell uid Naming.zero "ks" "0" ty k).

Definition shard0 : ShardInfo :=
  mkShardInfo "ks" "0" (mkShard (mkAlias "nj" 9) [] [] Key.zero).

Definition lowHalf : Key.KeyRange := Key.mkKeyRange "" "80".
Definition highHalf : Key.KeyRange := Key.mkKeyRange "80" "".

(** *** Membership *)

(** [Shard.Contains]: the master by its alias, a replica or a read-only
    tablet by a look through the aliases of its type; a tablet of another
    type is no member. *)
Definition Contains (shard : Shard) (tablet : Tablet) : bool :=
  let alias := mkAlias (tCell tablet) (tUid tablet) in
  match tType tablet with
  | TYPE_MASTER => bool_decide (MasterAlias shard = alias)
  | TYPE_REPLICA =>
      existsb (λ replicaAlias, bool_decide (replicaAlias = alias)) (ReplicaAliases shard)
  | TYPE_RDONLY =>
      existsb (λ rdonlyAlias, bool_decide (rdonlyAlias = alias)) (RdonlyAliases shard)
  | _ => false
  end.

(** Five tablets of the low half. *)
Definition members : list TabletInfo :=
  [tablet "nj" 1 TYPE_REPLICA lowHalf; tablet "nj" 2 TYPE_MASTER lowHalf;
   tablet "nj" 3 TYPE_SPARE lowHalf; tablet "ny" 4 TYPE_RDONLY lowHalf;
   tablet "ny" 5 TYPE_REPLICA lowHalf].

End Shard.

(** ** package mysqlctl: binlog_reader.go *)

Module BinlogReader.

Definition BINLOG_HEADER_SIZE : Z := 4.
Definition EVENT_HEADER_SIZE : Z := 19.

(** A binlog file is its content.  The log directory maps the numeric
    extension [NNNNNN] of [<binLogPrefix>.NNNNNN] to the file; [binLogPathForId]
    is the inverse of that naming, so a file is named here by its id. *)
Definition file : Type := list Byte.byte.

Definition fileSize (f : file) : Z := Z.of_nat (length f).

(** [blr.open(name)]: the open file and the id of the next log to watch;
    [None] is the [panic(err)] on a failed [os.Open]. *)
Definition open (dir : gmap Z file) (fileId : Z) : option (file * Z) :=
  match dir !! fileId with
  | Some f => Some (f, fileId + 1)
  | None => None
  end.

Definition byteZ (b : Byte.byte) : Z := Z.of_N (Byte.to_N b).

(** [readFirstEventSize]: the little-endian [uint32] at offset
    [BINLOG_HEADER_SIZE+9]; [None] is [panic("failed binlog read")] on a file
    that ends before the four bytes. *)
Definition readFirstEventSize (binlog : file) : option Z :=
  match firstn 4 (skipn (Z.to_nat (BINLOG_HEADER_SIZE + 9)) binlog) with
  | [b0; b1; b2; b3] =>
      Some (byteZ b0 + 256 * byteZ b1 + 65536 * byteZ b2 + 16777216 * byteZ b3)
  | _ => None
  end.

(** What a reader has done when it stops or enters its copy loop. *)
Inductive outcome : Type :=
| Panicked
    (* a panic, recovered by the caller: nothing is served *)
| Returned (written : list Byte.byte)
    (* an error was logged and the reader returned after writing [written] *)
| Copying (fileId : Z) (offset : Z) (binlogOffset : Z) (written : list Byte.byte).
    (* the copy loop is entered on file [fileId] at [offset]; [binlogOffset] is
       the size of the injected prefix, [written] the bytes of that prefix *)

(** "inject the header again to fool mysqlbinlog", then seek to
    [startPosition]: common to [serve] and [ServeData].  [prefixSize] is
    computed on [uint32]. *)
Definition inject (binlogFile : file) (fileId startPosition : Z) : outcome :=
  match readFirstEventSize binlogFile with
  | None => Panicked
  | Some firstEventSize =>
      let prefixSize := (BINLOG_HEADER_SIZE + firstEventSize) mod 2 ^ 32 in
      let written := firstn (Z.to_nat prefixSize) binlogFile in
      if fileSize binlogFile <? prefixSize
      then Returned written   (* io.CopyN ends in io.EOF *)
      else Copying fileId startPosition prefixSize written
  end.

(** The loop of [serve] that rotates files until the start position lies in
    one: [fuel] bounds the number of rotations; [None] is out of fuel. *)
Fixpoint serve_rotate (fuel : nat) (dir : gmap Z file)
  (binlogFile : file) (nextLog : Z) (startPosition : Z) : option outcome :=
  match fuel with
  | O => None
  | S fuel =>
      let size := fileSize binlogFile in
      if startPosition >? size then
        let startPosition := startPosition - size in
        match open dir nextLog with
        | None => Some Panicked
        | Some (binlogFile, nextLog) =>
            serve_rotate fuel dir binlogFile nextLog startPosition
        end
      else Some (inject binlogFile (nextLog - 1) startPosition)
  end.

(** [BinlogReader.serve] up to its copy loop.  The log directory is finite, so
    one rotation per file and one more step are enough. *)
Definition serve_fuel (dir : gmap Z file) : nat := S (size dir).

Definition serve (dir : gmap Z file) (filename : Z) (startPosition : Z) : option outcome :=
  match open dir filename with
  | None => Some Panicked
  | Some (binlogFile, nextLog) =>
      if startPosition >? 0
      then serve_rotate (serve_fuel dir) dir binlogFile nextLog startPosition
      else Some (Copying filename 0 0 [])
  end.

(** [BinlogReader.ServeData] up to its copy loop. *)
Definition ServeData (dir : gmap Z file) (filename : Z) (startPosition : Z) : outcome :=
  match open dir filename with
  | None => Panicked
  | Some (binlogFile, nextLog) =>
      if startPosition >? 0 then
        let size := fileSize binlogFile in
        if startPosition >? size
        then Returned []   (* "start position %v greater than size %v" *)
        else inject binlogFile filename startPosition
      else Copying filename 0 0 []
  end.

(** *** The walk over the files, in the words of the specification *)

(** [lands dir id pos id' pos']: subtracting the size of each file from the
    remaining offset, starting at file [id] with offset [pos], the offset
    lands within file [id'] at [pos']. *)
Inductive lands (dir : gmap Z file) : Z → Z → Z → Z → Prop :=
| lands_here (id pos : Z) (f : file) :
    dir !! id = Some f → pos ≤ fileSize f → lands dir id pos id pos
| lands_next (id pos id' pos' : Z) (f : file) :
    dir !! id = Some f → fileSize f < pos →
    lands dir (id + 1) (pos - fileSize f) id' pos' →
    lands dir id pos id' pos'.

(** [beyond dir id pos]: the offset lies beyond all the files that exist from
    [id] on. *)
Inductive beyond (dir : gmap Z file) : Z → Z → Prop :=
| beyond_missing (id pos : Z) (f : file) :
    dir !! id = Some f → fileSize f < pos → dir !! (id + 1) = None →
    beyond dir id pos
| beyond_next (id pos : Z) (f : file) :
    dir !! id = Some f → fileSize f < pos →
    beyond dir (id + 1) (pos - fileSize f) →
    beyond dir id pos.

(** The files that [serve] can still rotate to from [id] on. *)
Definition remaining (dir : gmap Z file) (id : Z) : nat :=
  size (filter (λ kv : Z * file, id ≤ kv.1) dir).

(** A binlog file of [n] bytes (at least 23) whose first event is 19 bytes
    long: the 4-byte header, then an event header with [event_length = 19]. *)
Definition binlog (n : nat) : file :=
  repeat Byte.x00 13 ++ [Byte.x13; Byte.x00; Byte.x00; Byte.x00]
    ++ repeat Byte.x00 (n - 17).

Definition twoLogs : gmap Z file := {[ 1 := binlog 100; 2 := binlog 200 ]}.

(** *** The copy loop *)

(** The loop of [serve] and of [ServeData] that copies the log to the writer,
    on a log directory that does not change while it runs: a block of
    [BinlogBlockSize] bytes at a time ([io.CopyN]); on a short block the next
    log is opened, when it exists ([os.Stat]), and read from
    [BINLOG_HEADER_SIZE] on; when it does not exist the reader waits for more
    data, which does not come, until [MaxWaitTimeout] ends it.  The result is
    what has been written to the writer; [None] is out of fuel. *)
Fixpoint copyLoop (fuel : nat) (BinlogBlockSize : Z) (dir : gmap Z file)
    (binlogFile : file) (nextLog : Z) (position : Z) (written : list Byte.byte)
  : option (list Byte.byte) :=
  match fuel with
  | O => None
  | S fuel =>
      let block :=
        firstn (Z.to_nat BinlogBlockSize) (skipn (Z.to_nat position) binlogFile) in
      let written := written ++ block in
      if fileSize block =? BinlogBlockSize then
        copyLoop fuel BinlogBlockSize dir binlogFile nextLog
          (position + BinlogBlockSize) written
      else
        match open dir nextLog with
        | Some (binlogFile, nextLog) =>
            (* swap to next log file *)
            copyLoop fuel BinlogBlockSize dir binlogFile nextLog BINLOG_HEADER_SIZE written
        | None => Some written
        end
  end.

(** What the writer has received when the reader is through: nothing after a
    panic, the bytes before the error after an error, and what the copy loop
    adds otherwise.  The file of [Copying] is one that the reader has
    opened. *)
Definition stream (fuel : nat) (BinlogBlockSize : Z) (dir : gmap Z file) (o : outcome)
  : option (list Byte.byte) :=
  match o with
  | Panicked => Some []
  | Returned written => Some written
  | Copying fileId offset _ written =>
      match open dir fileId with
      | Some (binlogFile, nextLog) =>
          copyLoop fuel BinlogBlockSize dir binlogFile nextLog offset written
      | None => Some written
      end
  end.

(** The logs that follow one another in the directory from [id] on, up to
    the first id that has no file. *)
Inductive logsFrom (dir : gmap Z file) : Z → list file → Prop :=
| logsFrom_end (id : Z) : dir !! id = None → logsFrom dir id []
| logsFrom_next (id : Z) (f : file) (fs : list file) :
    dir !! id = Some f → logsFrom dir (id + 1) fs → logsFrom dir id (f :: fs).

(** A log without its header. *)
Definition body (f : file) : list Byte.byte := skipn (Z.to_nat BINLOG_HEADER_SIZE) f.

End BinlogReader.

(** ** Go's [bytes], [strings] and [strconv] on byte strings *)

Module GoBytes.

(** [bytes.HasPrefix(s, prefix)]. *)
Definition HasPrefix (s pre : string) : bool := String.prefix pre s.

(** The first index of [sep] in [s]. *)
Fixpoint find (sep s : string) : option nat :=
  if String.prefix sep s then Some O
  else match s with
       | EmptyString => None
       | String _ s' => option_map S (find sep s')
       end.

(** [bytes.Index(s, sep)]: [-1] when [sep] does not occur. *)
Definition Index (s sep : string) : Z :=
  match find sep s with Some i => Z.of_nat i | None => -1 end.

Definition Contains (s sep : string) : bool :=
  match find sep s with Some _ => true | None => false end.

(** The last index of [sep] in [s]. *)
Fixpoint findLast (sep s : string) : option nat :=
  match s with
  | EmptyString => if String.prefix sep s then Some O else None
  | String _ s' =>
      match findLast sep s' with
      | Some i => Some (S i)
      | None => if String.prefix sep s then Some O else None
      end
  end.

(** [s[:n]] and [s[n:]]. *)
Definition sliceTo (n : nat) (s : string) : string := substring 0 n s.
Definition sliceFrom (n : nat) (s : string) : string :=
  substring n (String.length s - n) s.

Fixpoint Split_go (sep : string) (skip : nat) (cur : string) (s : string) : list string :=
  match s with
  | EmptyString => [cur]
  | String c s' =>
      match skip with
      | S k => Split_go sep k cur s'
      | O => if String.prefix sep s
             then cur :: Split_go sep (String.length sep - 1) "" s'
             else Split_go sep 0 (cur +:+ String c "") s'
      end
  end.

(** [bytes.Split(s, sep)] for a non-empty separator: at least one piece. *)
Definition Split (s sep : string) : list string := Split_go sep 0 "" s.

(** [bytes.SplitN(s, sep, 2)[0]]. *)
Definition SplitN2_first (s sep : string) : string :=
  match find sep s with
  | Some i => sliceTo i s
  | None => s
  end.

(** [bytes.SplitN(s, sep, 2)[1]], when there is one. *)
Definition SplitN2_second (s sep : string) : option string :=
  match find sep s with
  | Some i => Some (sliceFrom (i + String.length sep) s)
  | None => None
  end.

Definition isSpace (c : ascii) : bool :=
  let n := nat_of_ascii c in
  ((9 <=? n) && (n <=? 13) || (n =? 32))%nat.

Fixpoint TrimLeftSpace (s : string) : string :=
  match s with
  | String c s' => if isSpace c then TrimLeftSpace s' else s
  | EmptyString => EmptyString
  end.

Fixpoint TrimRightWhile (p : ascii → bool) (s : string) : string :=
  match s with
  | EmptyString => EmptyString
  | String c s' =>
      match TrimRightWhile p s' with
      | EmptyString => if p c then EmptyString else String c EmptyString
      | r => String c r
      end
  end.

(** [bytes.TrimSpace] on ASCII white space. *)
Definition TrimSpace (s : string) : string := TrimRightWhile isSpace (TrimLeftSpace s).

Fixpoint inCutset (cutset : string) (c : ascii) : bool :=
  match cutset with
  | EmptyString => false
  | String d r => if Ascii.eqb c d then true else inCutset r c
  end.

(** [bytes.TrimRight(s, cutset)]. *)
Definition TrimRight (s cutset : string) : string := TrimRightWhile (inCutset cutset) s.

Definition lowerAscii (c : ascii) : ascii :=
  let n := nat_of_ascii c in
  if ((65 <=? n) && (n <=? 90))%nat then ascii_of_nat (n + 32) else c.

(** [bytes.ToLower] on ASCII letters. *)
Fixpoint ToLower (s : string) : string :=
  match s with
  | EmptyString => EmptyString
  | String c s' => String (lowerAscii c) (ToLower s')
  end.

Definition digit (c : ascii) : option Z :=
  let n := nat_of_ascii c in
  if ((48 <=? n) && (n <=? 57))%nat then Some (Z.of_nat n - 48) else None.

Fixpoint digits (acc : Z) (s : string) : option Z :=
  match s with
  | EmptyString => Some acc
  | String c s' =>
      match digit c with
      | Some d => digits (10 * acc + d) s'
      | None => None
      end
  end.

(** [strconv.ParseUint(s, 10, 64)]; [None] is the error. *)
Definition ParseUint (s : string) : option Z :=
  match s with
  | EmptyString => None
  | _ => match digits 0 s with
         | Some v => if v <? 2 ^ 64 then Some v else None
         | None => None
         end
  end.

(** [strconv.ParseInt(s, 10, 64)]; [None] is the error. *)
Definition ParseInt (s : string) : option Z :=
  let '(neg, body) :=
    match s with
    | String "-" r => (true, r)
    | String "+" r => (false, r)
    | _ => (false, s)
    end in
  match body with
  | EmptyString => None
  | _ => match digits 0 body with
         | Some v => if neg then (if v <=? 2 ^ 63 then Some (- v) else None)
                     else (if v <? 2 ^ 63 then Some v else None)
         | None => None
         end
  end.

(** [bytes.TrimLeft(s, cutset)]. *)
Fixpoint TrimLeft (s cutset : string) : string :=
  match s with
  | String c s' => if inCutset cutset c then TrimLeft s' cutset else s
  | EmptyString => EmptyString
  end.

End GoBytes.

(** ** package mysqlctl: what the binlog server uses of binlog_parser.go *)

Module Mysqlctl.
Import GoBytes.

Definition DML : string := "DML".
Definition DDL : string := "DDL".
Definition BEGIN : string := "BEGIN".
Definition COMMIT : string := "COMMIT".
Definition USE : string := "Use ".

(** [sqlKwMap], as an association list. *)
Definition sqlKwMap : list (string * string) :=
  [ ("create", DDL); ("alter", DDL); ("drop", DDL); ("truncate", DDL);
    ("rename", DDL); ("insert", DML); ("update", DML); ("delete", DML);
    ("begin", BEGIN); ("commit", COMMIT) ].

Fixpoint lookupKw (m : list (string * string)) (kw : string) : option string :=
  match m with
  | [] => None
  | (k, v) :: m' => if String.eqb k kw then Some v else lookupKw m' kw
  end.

(** [GetSqlType(firstKw)] and [GetDmlType(firstKw)]: the look-ups of
    [getSqlType] and [getDmlType] in [sqlKwMap], applied to the first keyword
    that the server has already extracted. *)
Definition GetSqlType (firstKw : string) : string :=
  match lookupKw sqlKwMap firstKw with
  | Some sqlType => sqlType
  | None => ""
  end.

Definition GetDmlType (firstKw : string) : string :=
  match lookupKw sqlKwMap firstKw with
  | Some sqlType => if String.eqb sqlType DML then firstKw else ""
  | None => ""
  end.

Definition BINLOG_DELIMITER : string := "/*!*/;".
Definition BINLOG_POSITION_PREFIX : string := "# at ".
Definition BINLOG_ROTATE_TO : string := "Rotate to ".
Definition BINLOG_BEGIN : string := "BEGIN".
Definition BINLOG_COMMIT : string := "COMMIT".
Definition BINLOG_ROLLBACK : string := "ROLLBACK".
Definition BINLOG_SET_TIMESTAMP : string := "SET TIMESTAMP=".
Definition BINLOG_SET_INSERT : string := "SET INSERT_ID=".
Definition BINLOG_END_LOG_POS : string := "end_log_pos ".
Definition BINLOG_XID : string := "Xid = ".
Definition BINLOG_START : string := "Start: binlog".
Definition BINLOG_DB_CHANGE : string := "Use ".
Definition POS : string := " pos: ".
Definition SPACE : string := " ".

Record ReplicationCoordinates : Type := mkCoord {
  RelayFilename : string;
  RelayPosition : Z;
  MasterFilename : string;
  MasterPosition : Z
}.

Definition NewReplicationCoordinates (relayFile : string) (relayPos : Z)
  (masterFile : string) (masterPos : Z) : ReplicationCoordinates :=
  mkCoord relayFile relayPos masterFile masterPos.

(** [BinlogPosition]: the coordinates are held by pointer in Go; every event
    buffer gets a fresh copy ([NewEventBuffer]) and a response is sent before
    the coordinates it shares can change, so the value is what matters. *)
Record BinlogPosition : Type := mkPos {
  coordinates : ReplicationCoordinates;
  Position : string;
  Timestamp : Z;
  Xid : Z;
  GroupId : Z
}.

Definition zeroCoord : ReplicationCoordinates := mkCoord "" 0 "" 0.
Definition zeroPos : BinlogPosition := mkPos zeroCoord "" 0 0 0.

(** [IndexId interface{}]: unset, a user name or a number. *)
Inductive indexId : Type :=
| IdNil
| IdString (s : string)
| IdUint (n : Z).

Record BinlogResponse : Type := mkResp {
  Error : string;
  respPosition : BinlogPosition;
  SqlType : string;
  Sql : list string;
  KeyspaceId : string;
  UserId : Z;
  IndexType : string;
  IndexId : indexId;
  SeqName : string;
  SeqId : Z
}.

Definition newResponse : BinlogResponse :=
  mkResp "" zeroPos "" [] "" 0 "" IdNil "" 0.

(** What the server calls and this repository's files do not define: the
    rest of package mysqlctl, package key, and Go's [path]. *)
Class Externals : Type := {
  (* mysqlctl.IsTxnStatement(line, firstKw) *)
  IsTxnStatement : string → string → bool;
  (* mysqlctl.EncodeCoordinatesToPosition(coord); [None] is its error *)
  EncodeCoordinatesToPosition : ReplicationCoordinates → option string;
  (* key.KeyRange.Contains(id) *)
  KeyRange_Contains : Key.KeyRange → Key.KeyspaceId → bool;
  (* key.Uint64Key(n).KeyspaceId() *)
  Uint64Key_KeyspaceId : Z → Key.KeyspaceId;
  (* key.KeyspaceId.Hex() *)
  KeyspaceId_Hex : Key.KeyspaceId → string;
  (* path.Split and path.Join *)
  path_Split : string → string * string;
  path_Join : string → string → string
}.

End Mysqlctl.

(** ** The binlog server: vt_binlog_server.go *)

Module BinlogServer.
Import GoBytes Mysqlctl.

Definition COLON : string := ":".
Definition DOT : string := ".".
Definition MAX_KEY : string := "MAX_KEY".
Definition KEYSPACE_ID_COMMENT : string := "/* EMD keyspace_id:".
Definition USER_ID : string := "user_id".
Definition INDEX_COMMENT : string := "index".
Definition SEQ_COMMENT : string := "seq.".
Definition END_COMMENT : string := "*/".
Definition _VT : string := "_vt.".
Definition HEARTBEAT : string := "heartbeat".
Definition ADMIN : string := "admin".

(** Raw event buffer used to gather data during parsing. *)
Record eventBuffer : Type := mkEvent {
  evPosition : BinlogPosition;
  LogLine : string;
  firstKw : string
}.

(** What leaves the parser: a buffer handed to [sendStream], whose elements
    [sendReply] receives in order, and a [time.Sleep].  The reply callback is
    the subscriber's end of the RPC stream and is taken to accept every
    event. *)
Inductive effect : Type :=
| Sent (responseBuf : list BinlogResponse)
| Slept (d : Z).

(** The parser of one subscriber.  [dbname] is [globalState.dbname]; the
    counters of [blpStats] and the debugging field [currentLine] are left
    out, nothing in the parser reads them.  [effects] is not a field of the
    Go struct: it records, oldest first, what the parser has sent and slept. *)
Record Blp : Type := mkBlp {
  nextStmtPosition : Z;
  inTxn : bool;
  txnLineBuffer : list eventBuffer;
  responseStream : list BinlogResponse;
  initialSeek : bool;
  startPosition : ReplicationCoordinates;
  currentPosition : BinlogPosition;
  dbmatch : bool;
  keyspaceRange : Key.KeyRange;
  keyrangeTag : string;
  dbname : string;
  usingRelayLogs : bool;
  sleepToThrottle : Z;
  effects : list effect
}.

Definition set_nextStmtPosition (v : Z) (blp : Blp) : Blp :=
  mkBlp v (inTxn blp) (txnLineBuffer blp) (responseStream blp) (initialSeek blp) (startPosition blp) (currentPosition blp) (dbmatch blp) (keyspaceRange blp) (keyrangeTag blp) (dbname blp) (usingRelayLogs blp) (sleepToThrottle blp) (effects blp).
Definition set_inTxn (v : bool) (blp : Blp) : Blp :=
  mkBlp (nextStmtPosition blp) v (txnLineBuffer blp) (responseStream blp) (initialSeek blp) (startPosition blp) (currentPosition blp) (dbmatch blp) (keyspaceRange blp) (keyrangeTag blp) (dbname blp) (usingRelayLogs blp) (sleepToThrottle blp) (effects blp).
Definition set_txnLineBuffer (v : list eventBuffer) (blp : Blp) : Blp :=
  mkBlp (nextStmtPosition blp) (inTxn blp) v (responseStream blp) (initialSeek blp) (startPosition blp) (currentPosition blp) (dbmatch blp) (keyspaceRange blp) (keyrangeTag blp) (dbname blp) (usingRelayLogs blp) (sleepToThrottle blp) (effects blp).
Definition set_responseStream (v : list BinlogResponse) (blp : Blp) : Blp :=
  mkBlp (nextStmtPosition blp) (inTxn blp) (txnLineBuffer blp) v (initialSeek blp) (startPosition blp) (currentPosition blp) (dbmatch blp) (keyspaceRange blp) (keyrangeTag blp) (dbname blp) (usingRelayLogs blp) (sleepToThrottle blp) (effects blp).
Definition set_initialSeek (v : bool) (blp : Blp) : Blp :=
  mkBlp (nextStmtPosition blp) (inTxn blp) (txnLineBuffer blp) (responseStream blp) v (startPosition blp) (currentPosition blp) (dbmatch blp) (keyspaceRange blp) (keyrangeTag blp) (dbname blp) (usingRelayLogs blp) (sleepToThrottle blp) (effects blp).
Definition set_currentPosition (v : BinlogPosition) (blp : Blp) : Blp :=
  mkBlp (nextStmtPosition blp) (inTxn blp) (txnLineBuffer blp) (responseStream blp) (initialSeek blp) (startPosition blp) v (dbmatch blp) (keyspaceRange blp) (keyrangeTag blp) (dbname blp) (usingRelayLogs blp) (sleepToThrottle blp) (effects blp).
Definition set_dbmatch (v : bool) (blp : Blp) : Blp :=
  mkBlp (nextStmtPosition blp) (inTxn blp) (txnLineBuffer blp) (responseStream blp) (initialSeek blp) (startPosition blp) (currentPosition blp) v (keyspaceRange blp) (keyrangeTag blp) (dbname blp) (usingRelayLogs blp) (sleepToThrottle blp) (effects blp).
Definition set_usingRelayLogs (v : bool) (blp : Blp) : Blp :=
  mkBlp (nextStmtPosition blp) (inTxn blp) (txnLineBuffer blp) (responseStream blp) (initialSeek blp) (startPosition blp) (currentPosition blp) (dbmatch blp) (keyspaceRange blp) (keyrangeTag blp) (dbname blp) v (sleepToThrottle blp) (effects blp).
Definition set_sleepToThrottle (v : Z) (blp : Blp) : Blp :=
  mkBlp (nextStmtPosition blp) (inTxn blp) (txnLineBuffer blp) (responseStream blp) (initialSeek blp) (startPosition blp) (currentPosition blp) (dbmatch blp) (keyspaceRange blp) (keyrangeTag blp) (dbname blp) (usingRelayLogs blp) v (effects blp).
Definition set_effects (v : list effect) (blp : Blp) : Blp :=
  mkBlp (nextStmtPosition blp) (inTxn blp) (txnLineBuffer blp) (responseStream blp) (initialSeek blp) (startPosition blp) (currentPosition blp) (dbmatch blp) (keyspaceRange blp) (keyrangeTag blp) (dbname blp) (usingRelayLogs blp) (sleepToThrottle blp) v.

(** The panics of the parser: a [*BinlogParseError] for each site that builds
    one, with the text it formats. *)
Inductive BinlogParseError : Type :=
| ErrEOF
| ErrMasterPosition (line posStr : string)
| ErrXid (line : string)
| ErrInvalidTimestamp (line : string)
| ErrTimestamp (line : string)
| ErrRotatePos (line : string)
| ErrBeginInTxn (len : nat) (buf : list string)
| ErrDmlOutsideTxn (len : nat) (dml : string) (buf : list string)
| ErrEncodePosition (coord : ReplicationCoordinates)
| ErrNoKeyspaceId (sql : string)
| ErrEmptyKeyspaceId (sql : string)
| ErrKeyspaceIdConversion (sql : string)
| ErrIndexComment (sql : string)
| ErrUserId (sql : string)
| ErrIndexId (id sql : string)
| ErrSeqId (id sql : string).

(** A recovered panic value: a parse error, or Go's run-time error for an
    index out of range. *)
Inductive panicValue : Type :=
| PanicParse (e : BinlogParseError)
| PanicRuntime.

Inductive result (A : Type) : Type :=
| Ok (a : A)
| Panic (x : panicValue).
Arguments Ok {A} a.
Arguments Panic {A} x.

#[export] Instance result_ret : MRet result := λ A a, Ok a.
#[export] Instance result_bind : MBind result :=
  λ A B f m, match m with Ok a => f a | Panic x => Panic x end.

Definition panic {A : Type} (e : BinlogParseError) : result A := Panic (PanicParse e).

(** [l[i]] on a Go slice: out of range is a run-time panic. *)
Definition at_ {A : Type} (l : list A) (i : nat) : result A :=
  match l !! i with
  | Some a => Ok a
  | None => Panic PanicRuntime
  end.

Definition NewEventBuffer (pos : BinlogPosition) (line : string) : eventBuffer :=
  let posCoordinates := coordinates pos in
  mkEvent
    (mkPos (mkCoord (RelayFilename posCoordinates) 0
                    (MasterFilename posCoordinates) (MasterPosition posCoordinates))
           "" (Timestamp pos) 0 0)
    line "".

Definition set_coordinates (c : ReplicationCoordinates) (p : BinlogPosition) : BinlogPosition :=
  mkPos c (Position p) (Timestamp p) (Xid p) (GroupId p).
Definition set_Position (v : string) (p : BinlogPosition) : BinlogPosition :=
  mkPos (coordinates p) v (Timestamp p) (Xid p) (GroupId p).
Definition set_Timestamp (v : Z) (p : BinlogPosition) : BinlogPosition :=
  mkPos (coordinates p) (Position p) v (Xid p) (GroupId p).
Definition set_Xid (v : Z) (p : BinlogPosition) : BinlogPosition :=
  mkPos (coordinates p) (Position p) (Timestamp p) v (GroupId p).
Definition set_MasterPosition (v : Z) (c : ReplicationCoordinates) : ReplicationCoordinates :=
  mkCoord (RelayFilename c) (RelayPosition c) (MasterFilename c) v.
Definition set_MasterFilename (v : string) (c : ReplicationCoordinates) : ReplicationCoordinates :=
  mkCoord (RelayFilename c) (RelayPosition c) v (MasterPosition c).
Definition set_RelayFilename (v : string) (c : ReplicationCoordinates) : ReplicationCoordinates :=
  mkCoord v (RelayPosition c) (MasterFilename c) (MasterPosition c).

Definition set_evPosition (p : BinlogPosition) (e : eventBuffer) : eventBuffer :=
  mkEvent p (LogLine e) (firstKw e).
Definition set_LogLine (l : string) (e : eventBuffer) : eventBuffer :=
  mkEvent (evPosition e) l (firstKw e).
Definition set_firstKw (k : string) (e : eventBuffer) : eventBuffer :=
  mkEvent (evPosition e) (LogLine e) k.

Section WithExternals.
Context `{Externals}.

Definition NewBlp (startCoordinates : ReplicationCoordinates) (dbname : string)
  (keyRange : Key.KeyRange) : Blp :=
  let currentCoord :=
    NewReplicationCoordinates (RelayFilename startCoordinates) 0
      (MasterFilename startCoordinates) (MasterPosition startCoordinates) in
  let tag := KeyspaceId_Hex (Key.End keyRange) in
  mkBlp 0 false [] [] true startCoordinates
        (mkPos currentCoord "" 0 0 0)
        true keyRange (if String.eqb tag "" then MAX_KEY else tag)
        dbname false 0 [].

(** *** Position parsing *)

Definition parseMasterPosition (blp : Blp) (line : string) : result Blp :=
  let rem := Split line BINLOG_END_LOG_POS in
  rem1 ← at_ rem 1;
  masterPosStr ← at_ (Split rem1 SPACE) 0;
  match ParseUint masterPosStr with
  | Some n => Ok (set_nextStmtPosition n blp)
  | None => panic (ErrMasterPosition line masterPosStr)
  end.

Definition parseXid (blp : Blp) (line : string) : result Blp :=
  let rem := Split line BINLOG_XID in
  rem1 ← at_ rem 1;
  match ParseUint rem1 with
  | Some xid => Ok (set_currentPosition (set_Xid xid (currentPosition blp)) blp)
  | None => panic (ErrXid line)
  end.

Definition parseRotateEvent (blp : Blp) (line : string) : result Blp :=
  let rem := Split line BINLOG_ROTATE_TO in
  rem1 ← at_ rem 1;
  let rem2 := Split rem1 POS in
  rem2_0 ← at_ rem2 0;
  let rotateFilename := TrimSpace rem2_0 in
  rem2_1 ← at_ rem2 1;
  match ParseUint rem2_1 with
  | None => panic (ErrRotatePos line)
  | Some rotatePos =>
      let coord := coordinates (currentPosition blp) in
      let setCoord c := set_currentPosition (set_coordinates c (currentPosition blp)) blp in
      if negb (usingRelayLogs blp) then
        (* the file being parsed is a binlog: the rotate event is its own *)
        Ok (setCoord (set_MasterPosition rotatePos (set_MasterFilename rotateFilename coord)))
      else
        let '(logsDir, relayFile) := path_Split (RelayFilename coord) in
        currentPrefix ← at_ (Split relayFile ".") 0;
        rotatePrefix ← at_ (Split rotateFilename ".") 0;
        if String.eqb currentPrefix rotatePrefix then
          (* relay log rotated *)
          Ok (setCoord (set_RelayFilename (path_Join logsDir rotateFilename) coord))
        else
          (* master file rotated *)
          Ok (setCoord (set_MasterPosition rotatePos (set_MasterFilename rotateFilename coord)))
  end.

Definition parsePositionData (blp : Blp) (line : string) : result Blp :=
  let xid (blp : Blp) : result Blp :=
    if Index line BINLOG_XID =? -1 then Ok blp else parseXid blp line in
  if HasPrefix line BINLOG_POSITION_PREFIX then
    (* Master Position *)
    if nextStmtPosition blp =? 0 then Ok blp else xid blp
  else if negb (Index line BINLOG_ROTATE_TO =? -1) then
    blp ← parseRotateEvent blp line; xid blp
  else if negb (Index line BINLOG_END_LOG_POS =? -1) then
    (* Ignore the position data that appears at the start line of binlog. *)
    if negb (Index line BINLOG_START =? -1) then Ok blp
    else
      blp ← parseMasterPosition blp line;
      let blp :=
        if negb (nextStmtPosition blp =? 0)
        then set_currentPosition
               (set_coordinates
                  (set_MasterPosition (nextStmtPosition blp)
                     (coordinates (currentPosition blp)))
                  (currentPosition blp)) blp
        else blp in
      xid blp
  else xid blp.

(** [extractEventTimestamp]: the parser and the updated event. *)
Definition extractEventTimestamp (blp : Blp) (event : eventBuffer)
  : result (Blp * eventBuffer) :=
  let line := LogLine event in
  let timestampStr := sliceFrom (String.length BINLOG_SET_TIMESTAMP) line in
  if String.eqb timestampStr "" then panic (ErrInvalidTimestamp line)
  else
    match ParseInt timestampStr with
    | None => panic (ErrTimestamp line)
    | Some currentTimestamp =>
        Ok (set_currentPosition (set_Timestamp currentTimestamp (currentPosition blp)) blp,
            set_evPosition (set_Timestamp currentTimestamp (evPosition event)) event)
    end.

(** [parseDbChange]: the "Use <dbname>" statement. *)
Definition parseDbChange (blp : Blp) (event : eventBuffer) : result Blp :=
  if negb (String.eqb (firstKw event) USE) then Ok blp
  else if String.eqb (dbname blp) "" then Ok blp
  else
    match SplitN2_second (LogLine event) BINLOG_DB_CHANGE with
    | None => Panic PanicRuntime
    | Some rest =>
        let new_db := TrimSpace rest in
        Ok (set_dbmatch (String.eqb new_db (dbname blp)) blp)
    end.

(** *** Data events *)

Definition handleBeginEvent (blp : Blp) (event : eventBuffer) : result Blp :=
  if (0 <? length (txnLineBuffer blp))%nat && inTxn blp then
    panic (ErrBeginInTxn (length (txnLineBuffer blp)) (map LogLine (txnLineBuffer blp)))
  else
    (* "Non-zero txn buffer, while inTxn false" is only logged *)
    Ok (set_txnLineBuffer [event] (set_inTxn true (set_txnLineBuffer [] blp))).

(** [streamBuf.BinlogPosition = pos] followed by the encoding of its
    coordinates into [Position]. *)
Definition withEncodedPosition (pos : BinlogPosition) : result BinlogPosition :=
  match EncodeCoordinatesToPosition (coordinates pos) with
  | Some p => Ok (set_Position p pos)
  | None => panic (ErrEncodePosition (coordinates pos))
  end.

Definition set_respPosition (p : BinlogPosition) (r : BinlogResponse) : BinlogResponse :=
  mkResp (Error r) p (SqlType r) (Sql r) (KeyspaceId r) (UserId r)
         (IndexType r) (IndexId r) (SeqName r) (SeqId r).
Definition set_SqlType (v : string) (r : BinlogResponse) : BinlogResponse :=
  mkResp (Error r) (respPosition r) v (Sql r) (KeyspaceId r) (UserId r)
         (IndexType r) (IndexId r) (SeqName r) (SeqId r).
Definition set_Sql (v : list string) (r : BinlogResponse) : BinlogResponse :=
  mkResp (Error r) (respPosition r) (SqlType r) v (KeyspaceId r) (UserId r)
         (IndexType r) (IndexId r) (SeqName r) (SeqId r).
Definition set_KeyspaceId (v : string) (r : BinlogResponse) : BinlogResponse :=
  mkResp (Error r) (respPosition r) (SqlType r) (Sql r) v (UserId r)
         (IndexType r) (IndexId r) (SeqName r) (SeqId r).
Definition set_UserId (v : Z) (r : BinlogResponse) : BinlogResponse :=
  mkResp (Error r) (respPosition r) (SqlType r) (Sql r) (KeyspaceId r) v
         (IndexType r) (IndexId r) (SeqName r) (SeqId r).
Definition set_Index (ty : string) (id : indexId) (r : BinlogResponse) : BinlogResponse :=
  mkResp (Error r) (respPosition r) (SqlType r) (Sql r) (KeyspaceId r) (UserId r)
         ty id (SeqName r) (SeqId r).
Definition set_Seq (name : string) (id : Z) (r : BinlogResponse) : BinlogResponse :=
  mkResp (Error r) (respPosition r) (SqlType r) (Sql r) (KeyspaceId r) (UserId r)
         (IndexType r) (IndexId r) name id.

(** This creates the response for DDL event. *)
Definition createDdlStream (lineBuffer : eventBuffer) : result BinlogResponse :=
  pos ← withEncodedPosition (evPosition lineBuffer);
  Ok (set_Sql [LogLine lineBuffer] (set_SqlType DDL (set_respPosition pos newResponse))).

(** This sends the stream to the client. *)
Definition sendStream (blp : Blp) (responseBuf : list BinlogResponse) : Blp :=
  set_effects (effects blp ++ [Sent responseBuf]) blp.

Definition handleDdlEvent (blp : Blp) (event : eventBuffer) : result Blp :=
  ddlStream ← createDdlStream event;
  Ok (sendStream blp [ddlStream]).

Definition controlDbStatement (sql : string) (dmlType : string) : bool :=
  let sql := ToLower sql in
  Contains sql _VT || (Contains sql ADMIN && Contains sql HEARTBEAT).

(** [parseKeyspaceId]: the decimal text of the keyspace id and the key it
    stands for; the empty text for a control statement that carries none. *)
Definition parseKeyspaceId (sql : string) (dmlType : string)
  : result (string * Key.KeyspaceId) :=
  match find KEYSPACE_ID_COMMENT sql with
  | None =>
      if controlDbStatement sql dmlType then Ok ("", "")
      else panic (ErrNoKeyspaceId sql)
  | Some keyspaceIndex =>
      let seekIndex := (keyspaceIndex + String.length KEYSPACE_ID_COMMENT)%nat in
      let keyspaceIdComment := sliceFrom seekIndex sql in
      piece ← at_ (Split keyspaceIdComment USER_ID) 0;
      let keyspaceIdStr := TrimSpace piece in
      if String.eqb keyspaceIdStr "" then panic (ErrEmptyKeyspaceId sql)
      else
        match ParseUint keyspaceIdStr with
        | None => panic (ErrKeyspaceIdConversion sql)
        | Some keyspaceIdUint => Ok (keyspaceIdStr, Uint64Key_KeyspaceId keyspaceIdUint)
        end
  end.

(** [parseIndexSeq]: index name and id, sequence name and id, user id. *)
Definition parseIndexSeq (sql : string)
  : result (string * indexId * string * Z * Z) :=
  match find KEYSPACE_ID_COMMENT sql with
  | None => panic (ErrIndexComment sql)
  | Some keyspaceIndex =>
      let keyspaceIdComment :=
        sliceFrom (keyspaceIndex + String.length KEYSPACE_ID_COMMENT) sql in
      '(indexName, indexId, userId) ←
        match find INDEX_COMMENT keyspaceIdComment with
        | None => Ok ("", IdNil, 0)
        | Some indexCommentStart =>
            let indexCommentParts :=
              Split (sliceFrom indexCommentStart keyspaceIdComment) COLON in
            part1 ← at_ indexCommentParts 1;
            userIdStr ← at_ (Split part1 " ") 0;
            match ParseUint userIdStr with
            | None => panic (ErrUserId sql)
            | Some userId =>
                part0 ← at_ indexCommentParts 0;
                let indexNameId := Split part0 DOT in
                indexName ← at_ indexNameId 1;
                idText ← at_ indexNameId 2;
                if String.eqb indexName "username" then
                  Ok (indexName, IdString (TrimRight idText COLON), userId)
                else
                  match ParseUint (TrimRight idText COLON) with
                  | None => panic (ErrIndexId (TrimRight idText COLON) sql)
                  | Some n => Ok (indexName, IdUint n, userId)
                  end
            end
        end;
      '(seqName, seqId) ←
        match find SEQ_COMMENT keyspaceIdComment with
        | None => Ok ("", 0)
        | Some seqCommentStart =>
            piece ← at_ (Split (sliceFrom seqCommentStart keyspaceIdComment) END_COMMENT) 0;
            let seqComment := TrimSpace piece in
            let seqCommentParts := Split seqComment COLON in
            seqCommentPrefix ← at_ seqCommentParts 0;
            idText ← at_ seqCommentParts 1;
            match ParseUint (TrimSpace idText) with
            | None => panic (ErrSeqId idText sql)
            | Some seqId =>
                seqName ← at_ (Split seqCommentPrefix DOT) 1;
                Ok (seqName, seqId)
            end
        end;
      Ok (indexName, indexId, seqName, seqId, userId)
  end.

Definition createDmlEvent (eventBuf : eventBuffer) (keyspaceId : string)
  : result BinlogResponse :=
  pos ← withEncodedPosition (evPosition eventBuf);
  let dmlEvent :=
    set_KeyspaceId keyspaceId
      (set_SqlType (GetDmlType (firstKw eventBuf)) (set_respPosition pos newResponse)) in
  if String.eqb (SqlType dmlEvent) "insert" then
    '(indexType, indexId, seqName, seqId, userId) ← parseIndexSeq (LogLine eventBuf);
    let dmlEvent := if negb (userId =? 0) then set_UserId userId dmlEvent else dmlEvent in
    let dmlEvent :=
      if negb (String.eqb indexType "") then set_Index indexType indexId dmlEvent
      else dmlEvent in
    let dmlEvent :=
      if negb (String.eqb seqName "") then set_Seq seqName seqId dmlEvent
      else dmlEvent in
    Ok dmlEvent
  else Ok dmlEvent.

(** This creates the response for COMMIT event. *)
Definition createCommitEvent (eventBuf : eventBuffer) : result BinlogResponse :=
  pos ← withEncodedPosition (evPosition eventBuf);
  Ok (set_SqlType COMMIT (set_respPosition pos newResponse)).

(** The response for the BEGIN event, built in place in [buildTxnResponse]. *)
Definition createBeginEvent (event : eventBuffer) : result BinlogResponse :=
  pos ← withEncodedPosition (evPosition event);
  Ok (set_SqlType BEGIN (set_respPosition pos newResponse)).

(** The loop of [buildTxnResponse] over [blp.txnLineBuffer], with its three
    variables.  [dmlCount] is an [int64] counting events of a buffer held in
    memory, so it cannot wrap. *)
Fixpoint buildTxnResponse_loop (keyspaceRange : Key.KeyRange) (events : list eventBuffer)
  (txnResponseList : list BinlogResponse) (dmlCount : Z) (dmlBuffer : list string)
  : result (list BinlogResponse * Z) :=
  match events with
  | [] => Ok (txnResponseList, dmlCount)
  | event :: events =>
      let line := LogLine event in
      if HasPrefix line BINLOG_BEGIN then
        streamBuf ← createBeginEvent event;
        buildTxnResponse_loop keyspaceRange events
          (txnResponseList ++ [streamBuf]) dmlCount dmlBuffer
      else if HasPrefix line BINLOG_COMMIT then
        commitEvent ← createCommitEvent event;
        buildTxnResponse_loop keyspaceRange events
          (txnResponseList ++ [commitEvent]) dmlCount dmlBuffer
      else
        let sqlType := GetSqlType (firstKw event) in
        if String.eqb sqlType DML then
          '(keyspaceIdStr, keyspaceId) ← parseKeyspaceId line (GetDmlType (firstKw event));
          if String.eqb keyspaceIdStr "" then
            buildTxnResponse_loop keyspaceRange events txnResponseList dmlCount dmlBuffer
          else if negb (KeyRange_Contains keyspaceRange keyspaceId) then
            buildTxnResponse_loop keyspaceRange events txnResponseList dmlCount []
          else
            let dmlCount := dmlCount + 1 in
            let dmlBuffer := dmlBuffer ++ [line] in
            dmlEvent ← createDmlEvent event keyspaceIdStr;
            let dmlEvent := set_Sql dmlBuffer dmlEvent in
            buildTxnResponse_loop keyspaceRange events
              (txnResponseList ++ [dmlEvent]) dmlCount []
        else
          (* add as prefixes to the DML from last DML *)
          buildTxnResponse_loop keyspaceRange events txnResponseList dmlCount
            (dmlBuffer ++ [line])
  end.

(** This builds BinlogResponse for each transaction. *)
Definition buildTxnResponse (blp : Blp) : result (list BinlogResponse * Z) :=
  buildTxnResponse_loop (keyspaceRange blp) (txnLineBuffer blp) [] 0 [].

Definition handleCommitEvent (blp : Blp) (commitEvent : eventBuffer) : result Blp :=
  if negb (dbmatch blp) then Ok blp
  else
    let commitEvent :=
      set_evPosition (set_Xid (Xid (currentPosition blp)) (evPosition commitEvent))
        commitEvent in
    let blp := set_txnLineBuffer (txnLineBuffer blp ++ [commitEvent]) blp in
    (* This filters the dmls for keyrange supplied by the client. *)
    '(txnResponseList, dmlCount) ← buildTxnResponse blp;
    let blp := set_responseStream txnResponseList blp in
    (* No dmls matched the keyspace id so return *)
    if dmlCount =? 0 then Ok blp
    else
      let blp := sendStream blp (responseStream blp) in
      if sleepToThrottle blp >? 0
      then Ok (set_effects (effects blp ++ [Slept (sleepToThrottle blp)]) blp)
      else Ok blp.

Definition parseEventData (blp : Blp) (event : eventBuffer) : result Blp :=
  if HasPrefix (LogLine event) BINLOG_SET_TIMESTAMP then
    '(blp, event) ← extractEventTimestamp blp event;
    let blp := set_initialSeek false blp in
    if inTxn blp
    then Ok (set_txnLineBuffer (txnLineBuffer blp ++ [event]) blp)
    else Ok blp
  else if HasPrefix (LogLine event) BINLOG_BEGIN then
    handleBeginEvent blp event
  else if HasPrefix (LogLine event) BINLOG_ROLLBACK then
    Ok (set_txnLineBuffer [] (set_inTxn false blp))
  else if HasPrefix (LogLine event) BINLOG_COMMIT then
    blp ← handleCommitEvent blp event;
    Ok (set_txnLineBuffer [] (set_inTxn false blp))
  else if (0 <? String.length (LogLine event))%nat then
    let sqlType := GetSqlType (firstKw event) in
    if inTxn blp && IsTxnStatement (LogLine event) (firstKw event) then
      Ok (set_txnLineBuffer (txnLineBuffer blp ++ [event]) blp)
    else if String.eqb sqlType DDL then
      handleDdlEvent blp event
    else if String.eqb sqlType DML then
      panic (ErrDmlOutsideTxn (length (txnLineBuffer blp)) (LogLine event)
               (map LogLine (txnLineBuffer blp)))
    else Ok blp   (* ignored or unknown statement: a warning at most *)
  else Ok blp.

(** *** The main parse loop *)

(** The parser with the two variables of [parseBinlogEvents] that live
    across lines: [readAhead] and the event being assembled. *)
Record loopState : Type := mkLoop {
  blpOf : Blp;
  readAhead : bool;
  event : eventBuffer
}.

(** One turn of the loop of [parseBinlogEvents] on a line that [readBlpLine]
    has returned. *)
Definition parseLine (st : loopState) (line : string) : result loopState :=
  let blp := blpOf st in
  match line with
  | EmptyString => Ok st
  | String "#" _ =>
      (* parse positional data *)
      let line := TrimSpace line in
      blp ← parsePositionData blp line;
      Ok (mkLoop blp (readAhead st) (event st))
  | _ =>
      (* seek to a point before the desired startPosition on a replica *)
      if initialSeek blp && usingRelayLogs blp
         && (nextStmtPosition blp <? MasterPosition (startPosition blp))
      then Ok st
      else
        let event :=
          if readAhead st
          then set_LogLine (LogLine (event st) +:+ line) (event st)
          else NewEventBuffer (currentPosition blp) line in
        match findLast BINLOG_DELIMITER (LogLine event) with
        | None => Ok (mkLoop blp true event)
        | Some delimIndex =>
            let event := set_LogLine (sliceTo delimIndex (LogLine event)) event in
            let event := set_LogLine (TrimSpace (LogLine event)) event in
            let event :=
              set_firstKw (ToLower (SplitN2_first (LogLine event) SPACE)) event in
            (* processes statements only for the dbname that it is subscribed to *)
            blp ← parseDbChange blp event;
            blp ← parseEventData blp event;
            Ok (mkLoop blp false event)
        end
  end.

(** [parseBinlogEvents] over the lines read so far; reading past the last
    line ends the stream with the "EOF retry" panic. *)
Fixpoint parseBinlogEvents (st : loopState) (lines : list string) : result loopState :=
  match lines with
  | [] => Ok st
  | line :: lines => st ← parseLine st line; parseBinlogEvents st lines
  end.

Definition startLoop (blp : Blp) : loopState :=
  mkLoop blp false (mkEvent zeroPos "" "").

(** *** Vocabulary of the properties *)

(** The kinds of buffered events, as [buildTxnResponse] tells them apart. *)
Definition isBegin (ev : eventBuffer) : bool := HasPrefix (LogLine ev) BINLOG_BEGIN.
Definition isCommit (ev : eventBuffer) : bool := HasPrefix (LogLine ev) BINLOG_COMMIT.
Definition isStatement (ev : eventBuffer) : bool := negb (isBegin ev) && negb (isCommit ev).
Definition isDml (ev : eventBuffer) : bool := String.eqb (GetSqlType (firstKw ev)) DML.

(** A DML statement whose extracted keyspace id lies in the key range. *)
Definition inKeyRange (kr : Key.KeyRange) (ev : eventBuffer) : bool :=
  isDml ev &&
  match parseKeyspaceId (LogLine ev) (GetDmlType (firstKw ev)) with
  | Ok (keyspaceIdStr, keyspaceId) =>
      negb (String.eqb keyspaceIdStr "") && KeyRange_Contains kr keyspaceId
  | Panic _ => false
  end.

(** The response carries the coordinates, timestamp and xid of the event. *)
Definition stamped (r : BinlogResponse) (ev : eventBuffer) : Prop :=
  coordinates (respPosition r) = coordinates (evPosition ev) ∧
  Timestamp (respPosition r) = Timestamp (evPosition ev) ∧
  Xid (respPosition r) = Xid (evPosition ev).

(** [r] is the DML event of the statement [ev]: its type, the text of its
    keyspace id, the statement as the last line of [Sql], and its stamp. *)
Definition dmlEventOf (r : BinlogResponse) (ev : eventBuffer) : Prop :=
  SqlType r = GetDmlType (firstKw ev) ∧
  (∃ keyspaceId,
     parseKeyspaceId (LogLine ev) (GetDmlType (firstKw ev)) = Ok (KeyspaceId r, keyspaceId)) ∧
  (∃ prefixes, Sql r = prefixes ++ [LogLine ev]) ∧
  stamped r ev.

(** A statement that [buildTxnResponse] can process without a panic. *)
Definition wellFormed (kr : Key.KeyRange) (ev : eventBuffer) : Prop :=
  isDml ev = true →
  ∃ keyspaceIdStr keyspaceId,
    parseKeyspaceId (LogLine ev) (GetDmlType (firstKw ev)) = Ok (keyspaceIdStr, keyspaceId) ∧
    (inKeyRange kr ev = true → ∃ r, createDmlEvent ev keyspaceIdStr = Ok r).

(** The transaction buffer: empty outside a transaction, the BEGIN event
    followed by statements inside one. *)
Definition txnInvariant (blp : Blp) : Prop :=
  if inTxn blp
  then ∃ b stmts, txnLineBuffer blp = b :: stmts ∧ isBegin b = true ∧
                  Forall (λ ev, isStatement ev = true) stmts
  else txnLineBuffer blp = [].

(** The coordinates of the event can be encoded into a position. *)
Definition encodable (ev : eventBuffer) : Prop :=
  is_Some (EncodeCoordinatesToPosition (coordinates (evPosition ev))).

(** What a commit adds to the effects: nothing when no DML is in range, the
    batch and the throttling sleep otherwise. *)
Definition commitEffects (blp : Blp) (wanted : list eventBuffer)
  (batch : list BinlogResponse) : list effect :=
  match wanted with
  | [] => []
  | _ :: _ =>
      Sent batch ::
      (if sleepToThrottle blp >? 0 then [Slept (sleepToThrottle blp)] else [])
  end.

Definition dmlTypes : list string := ["insert"; "update"; "delete"].

(** A whole transaction batch: one begin, then DML events, then the commit. *)
Definition wholeTxn (batch : list BinlogResponse) : Prop :=
  ∃ rb mid rc,
    batch = rb :: mid ++ [rc] ∧ SqlType rb = BEGIN ∧ SqlType rc = COMMIT ∧
    mid ≠ [] ∧ Forall (λ r, SqlType r ∈ dmlTypes) mid.

(** The single-event batch of a DDL statement. *)
Definition ddlBatch (batch : list BinlogResponse) : Prop :=
  ∃ r, batch = [r] ∧ SqlType r = DDL.

(** The buffers handed to [sendStream], oldest first. *)
Fixpoint sentBatches (l : list effect) : list (list BinlogResponse) :=
  match l with
  | [] => []
  | Sent b :: l => b :: sentBatches l
  | Slept _ :: l => sentBatches l
  end.

(** What holds of a parser between two lines. *)
Definition streamInvariant (blp : Blp) : Prop :=
  txnInvariant blp ∧
  Forall (λ b, wholeTxn b ∨ ddlBatch b) (sentBatches (effects blp)).

(** *** Reported coordinates and their order *)

(** The numeric suffix of a log file name, read as
    [slavePosBehindReplication] reads it: [strings.Split(name, ".")[1]] as a
    number; 0 stands for a name without one. *)
Definition fileIndex (name : string) : Z :=
  match Split name "." !! 1%nat with
  | Some ext => match ParseUint ext with Some n => n | None => 0 end
  | None => 0
  end.

(** The (master_file, master_offset) part of coordinates. *)
Definition master (c : ReplicationCoordinates) : string * Z :=
  (MasterFilename c, MasterPosition c).

(** Positions across file names are ordered by the file index, positions of
    one index by the offset. *)
Definition posLe (p q : string * Z) : Prop :=
  fileIndex p.1 < fileIndex q.1 ∨ (fileIndex p.1 = fileIndex q.1 ∧ p.2 ≤ q.2).

Definition posLeb (p q : string * Z) : bool :=
  (fileIndex p.1 <? fileIndex q.1)
  || ((fileIndex p.1 =? fileIndex q.1) && (p.2 <=? q.2)).

Fixpoint nondecreasingb (l : list (string * Z)) : bool :=
  match l with
  | p :: ((q :: _) as l') => posLeb p q && nondecreasingb l'
  | _ => true
  end.

(** The coordinates attached to the responses sent so far, oldest first. *)
Definition reported (blp : Blp) : list (string * Z) :=
  map (λ r, master (coordinates (respPosition r))) (concat (sentBatches (effects blp))).

Definition buffered (blp : Blp) : list (string * Z) :=
  map (λ ev, master (coordinates (evPosition ev))) (txnLineBuffer blp).

Definition current (blp : Blp) : string * Z := master (coordinates (currentPosition blp)).

(** The input keeps the parser's coordinates in order: no line moves the
    current coordinate backwards, and nothing is sent while the statements
    of a transaction are buffered, except by its COMMIT. *)
Fixpoint orderedInput (st : loopState) (lines : list string) : Prop :=
  match lines with
  | [] => True
  | line :: lines =>
      match parseLine st line with
      | Ok st' =>
          posLe (current (blpOf st)) (current (blpOf st'))
          ∧ (effects (blpOf st') = effects (blpOf st)
             ∨ txnLineBuffer (blpOf st) = []
             ∨ inTxn (blpOf st') = false)
          ∧ orderedInput st' lines
      | Panic _ => True
      end
  end.

(** The coordinates the parser holds, in the order in which they were read:
    those already reported, those of the buffered events, and the one of the
    statement being assembled. *)
Definition chain (st : loopState) : list (string * Z) :=
  reported (blpOf st) ++ buffered (blpOf st)
  ++ (if readAhead st then [master (coordinates (evPosition (event st)))] else []).

(** The coordinates held by the parser are in order and none exceeds the
    current one. *)
Definition coordinatesInOrder (st : loopState) : Prop :=
  StronglySorted posLe (chain st)
  ∧ Forall (λ p, posLe p (current (blpOf st))) (chain st)
  ∧ streamInvariant (blpOf st).

End WithExternals.

(** *** Lines of statements *)

(** A line that is no position line: the loop of [parseBinlogEvents] takes
    it as a part of a statement. *)
Definition eventLine (line : string) : Prop :=
  match line with
  | String c _ => c ≠ "#"%char
  | EmptyString => True
  end.

(** *** Streaming behind replication *)

(** [slavePosBehindReplication]: [repl] is what
    [GetCurrentReplicationPosition] has returned.  [None] is a panic: the
    index out of range on a file name without a dot, or the parse error on an
    extension that is no number. *)
Definition slavePosBehindReplication (blp : Blp) (repl : ReplicationCoordinates)
  : option bool :=
  let currentCoord := coordinates (currentPosition blp) in
  if String.eqb (MasterFilename repl) (MasterFilename currentCoord) then
    Some (MasterPosition currentCoord <=? MasterPosition repl)
  else
    match Split (MasterFilename repl) "." !! 1%nat with
    | None => None
    | Some ext =>
        match ParseUint ext with
        | None => None
        | Some replExt =>
            match Split (MasterFilename currentCoord) "." !! 1%nat with
            | None => None
            | Some ext =>
                match ParseUint ext with
                | None => None
                | Some parseExt => Some (replExt >=? parseExt)
                end
            end
        end
    end.

(** *** The statements that travel with a DML *)

Section Prefixes.
Context `{Externals}.

(** A DML statement that carries a keyspace id, in the key range or not. *)
Definition carriesKey (ev : eventBuffer) : bool :=
  isDml ev &&
  match parseKeyspaceId (LogLine ev) (GetDmlType (firstKw ev)) with
  | Ok (keyspaceIdStr, _) => negb (String.eqb keyspaceIdStr "")
  | Panic _ => false
  end.

(** A DML statement on the control database, which carries none. *)
Definition isControl (ev : eventBuffer) : bool :=
  isDml ev &&
  match parseKeyspaceId (LogLine ev) (GetDmlType (firstKw ev)) with
  | Ok (keyspaceIdStr, _) => String.eqb keyspaceIdStr ""
  | Panic _ => false
  end.

(** The statements between two DMLs that carry a keyspace id: statements that
    are no DML, and DMLs on the control database. *)
Definition between (ev : eventBuffer) : bool :=
  isStatement ev && (negb (isDml ev) || isControl ev).

(** The buffer of a transaction up to a statement: nothing, or statements
    the last of which is a DML that carries a keyspace id. *)
Definition upToKey (stmts : list eventBuffer) : Prop :=
  stmts = [] ∨ ∃ init last, stmts = init ++ [last] ∧ carriesKey last = true.

End Prefixes.

End BinlogServer.

(** ** vt_binlog_server.go: throttling *)

Module Throttle.
Import Mysqlctl BinlogServer.

(** Go's conversion [int64(f)] of a float64: the fraction is discarded
    (truncation toward zero).  The value of a NaN or of a float out of the
    range of int64 is left to the implementation by the language; it is taken
    here as on amd64, the smallest int64. *)
Definition minInt64 : Z := - 2 ^ 63.

Definition int64 (f : float) : Z :=
  match Prim2SF f with
  | SpecFloat.S754_zero _ => 0
  | SpecFloat.S754_finite s m e =>
      let mag := if 0 <=? e then Z.shiftl (Z.pos m) e else Z.shiftr (Z.pos m) (- e) in
      let v := if s then - mag else mag in
      if (minInt64 <=? v) && (v <? 2 ^ 63) then v else minInt64
  | _ => minInt64
  end.

(** The product of two int64, as Go computes it. *)
Definition mul64 (a b : Z) : Z := (a * b + 2 ^ 63) mod 2 ^ 64 - 2 ^ 63.

(** Package time: a [Duration] is an int64 count of nanoseconds. *)
Definition Millisecond : Z := 1000000.
Definition Second : Z := 1000 * Millisecond.
Definition Minute : Z := 60 * Second.

Definition float64 (n : Z) : float := PrimFloat.of_uint63 (Uint63.of_Z n).

(** [Duration.Seconds], for the durations that are not negative. *)
Definition Seconds (d : Z) : float :=
  (float64 (d / Second) + float64 (d mod Second) / 1e9)%float.

Definition avgRate (rateList : list float) : float :=
  let '(avg, count) :=
    fold_left (λ '(avg, count) rate,
                 if (0 <? rate)%float then ((avg + rate)%float, (count + 1)%float)
                 else (avg, count))
              rateList (0%float, 0%float) in
  if (0 <? count)%float then (avg / count)%float else 0%float.

Definition tickerInterval : Z := 1 * Minute.

(** The loop of [throttleTicker] over the rate map, which Go walks in an
    order of its own: the list is the entries in the order of the walk. *)
Definition rateLoop (rateMap : list (string * list float))
    (krRateMap : gmap string float) : gmap string float * float * float :=
  fold_left (λ '(krRateMap, totalQps, numClients) '(kr, rateList),
               let clientQps := avgRate rateList in
               (<[kr := clientQps]> krRateMap,
                (totalQps + clientQps)%float, (numClients + 1)%float))
            rateMap (krRateMap, 0%float, 0%float).

(** What the ticker leaves: the clients, the map of the rates, which lives
    across the ticks, and whether the ticker goes on. *)
Record ticked : Type := mkTicked {
  clientsOf : list Blp;
  krRateMapOf : gmap string float;
  goesOn : bool
}.

(** One turn of the loop of [throttleTicker].  [rateMap] is what
    [json.Unmarshal] has made of the published rates ([None] for its error):
    the rates per counter name, [DmlCount.] and the tag of the key range. *)
Definition throttleTick (throttleRate : float) (clients : list Blp)
    (rateMap : option (list (string * list float)))
    (krRateMap : gmap string float) : ticked :=
  match clients with
  | [] => mkTicked clients krRateMap false
  | _ =>
      (* Don't throttle by default. *)
      if (throttleRate =? 0)%float
      then mkTicked (map (set_sleepToThrottle 0) clients) krRateMap false
      else
        match rateMap with
        | None => mkTicked clients krRateMap false
        | Some rateMap =>
            let '(krRateMap, totalQps, numClients) := rateLoop rateMap krRateMap in
            if (throttleRate <? totalQps)%float then
              let clientMaxQps := (throttleRate / numClients)%float in
              let clients :=
                map (λ blpClient,
                       match krRateMap !! ("DmlCount." +:+ keyrangeTag blpClient) with
                       | Some krQps =>
                           if (clientMaxQps <? krQps)%float then
                             let val := (Seconds tickerInterval
                                         * ((krQps - clientMaxQps) / krQps))%float in
                             set_sleepToThrottle (mul64 (int64 val) Millisecond) blpClient
                           else set_sleepToThrottle 0 blpClient
                       | None => set_sleepToThrottle 0 blpClient
                       end) clients in
              mkTicked clients krRateMap true
            else mkTicked clients krRateMap true
        end
  end.

(** *** Vocabulary of the properties *)

(** The sum of the average rates, in the order of the walk, and the count of
    the entries, as the loop adds them up. *)
Definition totalQps (rateMap : list (string * list float)) : float :=
  fold_left (λ total entry, (total + avgRate entry.2)%float) rateMap 0%float.

Definition counted (n : nat) : float := Nat.iter n (λ c, (c + 1)%float) 0%float.

(** The share of one entry of the rate map. *)
Definition fairShare (throttleRate : float) (rateMap : list (string * list float)) : float :=
  (throttleRate / counted (length rateMap))%float.

(** The share as the specification words it: the ceiling over the number of
    subscribers. *)
Definition specFairShare (throttleRate : float) (clients : list Blp) : float :=
  (throttleRate / float64 (Z.of_nat (length clients)))%float.

(** The sleep as the specification words it: [tick * (qps - max) / qps], a
    duration. *)
Definition specSleep (tick : Z) (qps max : float) : Z :=
  int64 (float64 tick * (qps - max) / qps)%float.

(** The sleep assigned by the ticker: the seconds of the tick times the
    excess fraction, the whole part of it taken as milliseconds. *)
Definition assignedSleep (qps max : float) : Z :=
  mul64 (int64 (60 * ((qps - max) / qps))%float) Millisecond.

(** What a tick above the ceiling makes of one client: the sleep alone
    changes; a client whose counter has rates sleeps [assignedSleep] when its
    average rate is above the share, not at all otherwise; a client whose
    counter has no rates does not sleep. *)
Definition throttledAs (throttleRate : float) (rateMap : list (string * list float))
    (blpClient throttledClient : Blp) : Prop :=
  throttledClient = set_sleepToThrottle (sleepToThrottle throttledClient) blpClient
  ∧ (∀ rateList,
       ("DmlCount." +:+ keyrangeTag blpClient, rateList) ∈ rateMap →
       sleepToThrottle throttledClient
       = if (fairShare throttleRate rateMap <? avgRate rateList)%float
         then assignedSleep (avgRate rateList) (fairShare throttleRate rateMap)
         else 0)
  ∧ ("DmlCount." +:+ keyrangeTag blpClient ∉ rateMap.*1 →
     sleepToThrottle throttledClient = 0).

(** The ticks of [throttleTicker] one after the other, for clients and a
    ceiling that stay the same: [rateMaps] is what each tick reads of the
    published rates, and the ticker ends with the first tick that returns. *)
Fixpoint throttleTicker (throttleRate : float) (clients : list Blp)
    (rateMaps : list (option (list (string * list float))))
    (krRateMap : gmap string float) : ticked :=
  match rateMaps with
  | [] => mkTicked clients krRateMap true
  | rateMap :: rateMaps =>
      let tick := throttleTick throttleRate clients rateMap krRateMap in
      if goesOn tick
      then throttleTicker throttleRate (clientsOf tick) rateMaps (krRateMapOf tick)
      else tick
  end.

End Throttle.

(** ** go/zk: the topology store *)

(** Modelled from the spec: package zk and gozk are not among the sources.
    Section 4.1 gives the operations: [Get] returns the data and the version
    of a node; [Set] fails with a version mismatch when the expected version
    is stale; [Create] fails when the node exists; [Delete] fails when the
    node is not found or has children.  As in ZooKeeper, the expected version
    [-1] matches every version, a [Set] adds one to the version, a created
    node has version 0 and needs its parent. *)
Module Zk.
Import GoBytes.

Inductive Error : Type := ZBADVERSION | ZNONODE | ZNODEEXISTS | ZNOTEMPTY.

#[export] Instance Error_eq_dec : EqDecision Error.
Proof. solve_decision. Defined.

Definition IsError (err code : Error) : bool := bool_decide (err = code).

Record znode : Type := mkZnode { zdata : string; zversion : Z }.

Abbreviation store := (gmap string znode).

(** [path.Dir] on the paths of the store, which have no doubled slash and
    no dot element. *)
Definition Dir (p : string) : string :=
  match findLast "/" p with
  | None => "."
  | Some O => "/"
  | Some i => sliceTo i p
  end.

Definition hasParent (s : store) (p : string) : bool :=
  String.eqb (Dir p) "/" || bool_decide (is_Some (s !! Dir p)).

Definition hasChildren (s : store) (p : string) : bool :=
  existsb (λ entry, String.eqb (Dir entry.1) p) (map_to_list s).

Definition versionMatches (expected : Z) (n : znode) : bool :=
  (expected =? -1) || (expected =? zversion n).

Definition Get (s : store) (p : string) : Error + (string * Z) :=
  match s !! p with
  | Some n => inr (zdata n, zversion n)
  | None => inl ZNONODE
  end.

(** [Set]; the name is a keyword here. *)
Definition Set_ (s : store) (p data : string) (version : Z) : (Error + Z) * store :=
  match s !! p with
  | None => (inl ZNONODE, s)
  | Some n =>
      if versionMatches version n
      then (inr (zversion n + 1), <[p := mkZnode data (zversion n + 1)]> s)
      else (inl ZBADVERSION, s)
  end.

Definition Create (s : store) (p data : string) : (Error + string) * store :=
  if negb (hasParent s p) then (inl ZNONODE, s)
  else match s !! p with
       | Some _ => (inl ZNODEEXISTS, s)
       | None => (inr p, <[p := mkZnode data 0]> s)
       end.

Definition Delete (s : store) (p : string) (version : Z) : option Error * store :=
  match s !! p with
  | None => (Some ZNONODE, s)
  | Some n =>
      if negb (versionMatches version n) then (Some ZBADVERSION, s)
      else if hasChildren s p then (Some ZNOTEMPTY, s)
      else (None, delete p s)
  end.

End Zk.

(** ** tabletmanager/actor.go: the actor of a tablet *)

Module Actor.
Import GoBytes.

Definition ActionState : Type := string.
Definition ACTION_STATE_QUEUED : ActionState := "".
Definition ACTION_STATE_RUNNING : ActionState := "Running".
Definition ACTION_STATE_FAILED : ActionState := "Failed".
Definition ACTION_STATE_DONE : ActionState := "Done".

(** The arguments and the reply of an action are kept as their JSON text. *)
Record ActionNode : Type := mkActionNode {
  Action : string;
  ActionGuid : string;
  Error : string;
  State : ActionState;
  path : string;
  args : string;
  reply : string
}.

Definition set_State (v : ActionState) (n : ActionNode) : ActionNode :=
  mkActionNode (Action n) (ActionGuid n) (Error n) v (path n) (args n) (reply n).
Definition set_Error (v : string) (n : ActionNode) : ActionNode :=
  mkActionNode (Action n) (ActionGuid n) v (State n) (path n) (args n) (reply n).
Definition set_path (v : string) (n : ActionNode) : ActionNode :=
  mkActionNode (Action n) (ActionGuid n) (Error n) (State n) v (args n) (reply n).

(** The values of Go's [error] that the actor returns. *)
Inductive error : Type :=
| ZkError (err : Zk.Error)
| JsonError (data : string)                (* of the JSON decoder *)
| Errorf (format : string) (a : list string)  (* [fmt.Errorf(format, a...)] *)
| TabletActorError (msg : string)
| ActionError (msg : string)               (* of a handler; [msg] is its [Error()] *)
| ActionFailed (msg : string).             (* of [WaitForCompletion], for a failed action *)

(** What the sources do not hold: the JSON codec of the action node
    ([jscfg.ToJson] and [encoding/json]); the handlers behind
    [dispatchAction], which may change the node and the store and return an
    error, known by its string; and [ActionToActionLogPath]. *)
Class Environment : Type := {
  ActionNodeToJson : ActionNode → string;
  ActionNodeFromJson : string → string → error + ActionNode;
  dispatchAction : ActionNode → Zk.store → ActionNode * option string * Zk.store;
  ActionToActionLogPath : string → string
}.

(** What is used of the codec: a node that is written is read back, with the
    path it is read from, and the empty data of a directory is no node. *)
Class Codec `{Environment} : Prop := {
  ActionNodeFromJson_ToJson n p :
    ActionNodeFromJson (ActionNodeToJson n) p = inr (set_path p n);
  ActionNodeFromJson_empty p : ∃ err, ActionNodeFromJson "" p = inl err
}.

(** *** The calls of an actor *)

(** A program of the actor: the calls it makes on the store and on the
    handlers, each with what comes next for every answer.  [Watch] waits
    until the path exists. *)
Inductive prog (R : Type) : Type :=
| Ret (r : R)
| OpGet (p : string) (k : Zk.Error + (string * Z) → prog R)
| OpSet (p data : string) (version : Z) (k : Zk.Error + Z → prog R)
| OpCreate (p data : string) (k : Zk.Error + string → prog R)
| OpDelete (p : string) (version : Z) (k : option Zk.Error → prog R)
| OpDispatch (n : ActionNode) (k : ActionNode * option string → prog R)
| OpWatch (p : string) (k : unit → prog R).
Arguments Ret {R} r.
Arguments OpGet {R} p k.
Arguments OpSet {R} p data version k.
Arguments OpCreate {R} p data k.
Arguments OpDelete {R} p version k.
Arguments OpDispatch {R} n k.
Arguments OpWatch {R} p k.

Fixpoint bind {A B : Type} (m : prog A) (f : A → prog B) : prog B :=
  match m with
  | Ret a => f a
  | OpGet p k => OpGet p (λ r, bind (k r) f)
  | OpSet p data version k => OpSet p data version (λ r, bind (k r) f)
  | OpCreate p data k => OpCreate p data (λ r, bind (k r) f)
  | OpDelete p version k => OpDelete p version (λ r, bind (k r) f)
  | OpDispatch n k => OpDispatch n (λ r, bind (k r) f)
  | OpWatch p k => OpWatch p (λ r, bind (k r) f)
  end.

#[export] Instance prog_ret : MRet prog := λ A a, Ret a.
#[export] Instance prog_bind : MBind prog := λ A B f m, bind m f.

Definition zconn_Get (p : string) : prog (Zk.Error + (string * Z)) := OpGet p Ret.
Definition zconn_Set (p data : string) (version : Z) : prog (Zk.Error + Z) :=
  OpSet p data version Ret.
Definition zconn_Create (p data : string) : prog (Zk.Error + string) := OpCreate p data Ret.
Definition zconn_Delete (p : string) (version : Z) : prog (option Zk.Error) :=
  OpDelete p version Ret.
Definition ta_dispatchAction (n : ActionNode) : prog (ActionNode * option string) :=
  OpDispatch n Ret.
Definition zconn_Watch (p : string) : prog unit := OpWatch p Ret.

(** The calls made, with their answers. *)
Inductive event : Type :=
| EvGet (p : string) (r : Zk.Error + (string * Z))
| EvSet (p data : string) (version : Z) (r : Zk.Error + Z)
| EvCreate (p data : string) (r : Zk.Error + string)
| EvDelete (p : string) (version : Z) (r : option Zk.Error)
| EvDispatch (n : ActionNode) (r : ActionNode * option string)
| EvWatch (p : string).

(** The actors on one store, and what one call of one of them has made of
    the store. *)
Record config (R : Type) : Type := mkConfig {
  storeOf : Zk.store;
  pool : list (prog R)
}.
Arguments mkConfig {R} storeOf pool.
Arguments storeOf {R} c.
Arguments pool {R} c.

Record entry : Type := mkEntry {
  actor : nat;
  before : Zk.store;
  what : event;
  after : Zk.store
}.

Section WithEnvironment.
Context `{Environment}.

(** Modelled from the spec: [WaitForCompletion] is not among the sources.
    Section 4.4: it watches for the existence of the log path; on appearance
    it reads the terminal node and wraps the error of a failed one.  The
    timeout 0 of [HandleAction] is no timeout. *)
Definition WaitForCompletion (actionPath : string) : prog (option error) :=
  let actionLogPath := ActionToActionLogPath actionPath in
  _ ← zconn_Watch actionLogPath;
  r ← zconn_Get actionLogPath;
  match r with
  | inl zkErr => mret (Some (ZkError zkErr))
  | inr (data, _) =>
      match ActionNodeFromJson data actionLogPath with
      | inl err => mret (Some err)
      | inr actionNode =>
          if String.eqb (State actionNode) ACTION_STATE_FAILED
          then mret (Some (ActionFailed (Error actionNode)))
          else mret None
      end
  end.

(** Write the result of an action into zookeeper. *)
Definition StoreActionResponse (actionNode : ActionNode) (actionPath : string)
    (actionErr : option string) : prog (option error) :=
  (* change our state *)
  let actionNode :=
    match actionErr with
    | Some msg => set_State ACTION_STATE_FAILED (set_Error msg actionNode)
    | None => set_State ACTION_STATE_DONE (set_Error "" actionNode)
    end in
  (* and write the data *)
  let data := ActionNodeToJson actionNode in
  let actionLogPath := ActionToActionLogPath actionPath in
  r ← zconn_Create actionLogPath data;
  match r with
  | inl err =>
      if Zk.IsError err Zk.ZNONODE then
        (* the parent doesn't exists, try to create it *)
        let actionLogDir := Zk.Dir actionLogPath in
        r ← zconn_Create actionLogDir "";
        match r with
        | inl err => mret (Some (ZkError err))
        | inr _ =>
            (* and try to store again *)
            r ← zconn_Create actionLogPath data;
            match r with
            | inl err => mret (Some (ZkError err))
            | inr _ => mret None
            end
        end
      else mret (Some (ZkError err))
  | inr _ => mret None
  end.

(** [HandleAction] once the node is claimed: the validation, the dispatch
    and the record of the result. *)
Definition HandleAction_claimed (actionPath action actionGuid : string)
    (actionNode : ActionNode) : prog (option error) :=
  (* validate actions, but don't write this back into zk *)
  if negb (String.eqb (Action actionNode) action)
     || negb (String.eqb (ActionGuid actionNode) actionGuid)
  then mret (Some (TabletActorError
                     ("invalid action initiation: " +:+ action +:+ " " +:+ actionGuid)))
  else
    '(actionNode, actionErr) ← ta_dispatchAction actionNode;
    err ← StoreActionResponse actionNode actionPath actionErr;
    match err with
    | Some err => mret (Some err)
    | None =>
        (* remove from zk on completion *)
        zkErr ← zconn_Delete actionPath (-1);
        match zkErr with
        | Some zkErr => mret (Some (ZkError zkErr))
        | None => mret (ActionError <$> actionErr)
        end
    end.

(** [HandleAction] past the switch on the state of the node. *)
Definition HandleAction_claim (actionPath action actionGuid : string)
    (actionNode : ActionNode) (stat : Z) : prog (option error) :=
  (* Claim the action by this process. *)
  let actionNode := set_State ACTION_STATE_RUNNING actionNode in
  let newData := ActionNodeToJson actionNode in
  r ← zconn_Set actionPath newData stat;
  match r with
  | inl zkErr =>
      if Zk.IsError zkErr Zk.ZBADVERSION
      then
        (* The action is schedule by another actor. Most likely
           the tablet restarted during an action. Just wait for completion. *)
        WaitForCompletion actionPath
      else mret (Some (ZkError zkErr))
  | inr _ =>
      (* the tablet path and the vt root that the actor keeps from the action
         path are not modelled *)
      HandleAction_claimed actionPath action actionGuid actionNode
  end.

Definition HandleAction (actionPath action actionGuid : string) (forceRerun : bool)
  : prog (option error) :=
  r ← zconn_Get actionPath;
  match r with
  | inl zkErr => mret (Some (ZkError zkErr))
  | inr (data, stat) =>
      match ActionNodeFromJson data actionPath with
      | inl err => mret (Some err)
      | inr actionNode =>
          if String.eqb (State actionNode) ACTION_STATE_RUNNING then
            if negb forceRerun then WaitForCompletion actionPath
            else HandleAction_claim actionPath action actionGuid actionNode stat
          else if String.eqb (State actionNode) ACTION_STATE_FAILED then
            (* this should not be happening any more, but keep it for now *)
            mret (Some (Errorf (Error actionNode) []))
          else if String.eqb (State actionNode) ACTION_STATE_DONE then
            (* this is bad *)
            mret (Some (Errorf "Unexpected finished ActionNode in action queue: %v"
                               [actionPath]))
          else HandleAction_claim actionPath action actionGuid actionNode stat
      end
  end.

(** *** Running the actors *)


(** The next call of a program on the store; a program that has returned,
    or that watches a path that does not exist, makes none. *)
Definition exec1 {R : Type} (s : Zk.store) (p : prog R)
  : option (Zk.store * prog R * event) :=
  match p with
  | Ret _ => None
  | OpGet p k => let r := Zk.Get s p in Some (s, k r, EvGet p r)
  | OpSet p data version k =>
      let '(r, s') := Zk.Set_ s p data version in Some (s', k r, EvSet p data version r)
  | OpCreate p data k =>
      let '(r, s') := Zk.Create s p data in Some (s', k r, EvCreate p data r)
  | OpDelete p version k =>
      let '(r, s') := Zk.Delete s p version in Some (s', k r, EvDelete p version r)
  | OpDispatch n k =>
      let '(n', err, s') := dispatchAction n s in
      Some (s', k (n', err), EvDispatch n (n', err))
  | OpWatch p k =>
      if bool_decide (is_Some (s !! p)) then Some (s, k (), EvWatch p) else None
  end.


Definition stepActor {R : Type} (i : nat) (c : config R) : config R * list entry :=
  match pool c !! i with
  | Some p =>
      match exec1 (storeOf c) p with
      | Some (s', p', ev) =>
          (mkConfig s' (<[i := p']> (pool c)), [mkEntry i (storeOf c) ev s'])
      | None => (c, [])
      end
  | None => (c, [])
  end.

(** The actors run in the order of [sched], one call at a time. *)
Fixpoint runSched {R : Type} (sched : list nat) (c : config R) : config R * list entry :=
  match sched with
  | [] => (c, [])
  | i :: sched =>
      let '(c, tr) := stepActor i c in
      let '(c, tr') := runSched sched c in
      (c, tr ++ tr')
  end.

(** One actor alone, for at most [fuel] calls: the store and the program
    that are left, and the calls made. *)
Fixpoint run {R : Type} (fuel : nat) (s : Zk.store) (p : prog R)
  : Zk.store * prog R * list event :=
  match fuel with
  | O => (s, p, [])
  | S fuel =>
      match exec1 s p with
      | Some (s', p', ev) =>
          let '(s'', p'', tr) := run fuel s' p' in (s'', p'', ev :: tr)
      | None => (s, p, [])
      end
  end.

Definition returned {R : Type} (c : config R) (i : nat) : option R :=
  match pool c !! i with
  | Some (Ret r) => Some r
  | _ => None
  end.

(** *** Vocabulary of the properties *)

(** The state of the action node at a path of the store. *)
Definition stateAt (s : Zk.store) (p : string) : option ActionState :=
  match s !! p with
  | Some n =>
      match ActionNodeFromJson (Zk.zdata n) p with
      | inr node => Some (State node)
      | inl _ => None
      end
  | None => None
  end.


(** The node may be claimed: it is not terminal, and it is running only
    when a rerun is forced. *)
Definition claimable (forceRerun : bool) (actionNode : ActionNode) : Prop :=
  State actionNode ≠ ACTION_STATE_FAILED
  ∧ State actionNode ≠ ACTION_STATE_DONE
  ∧ (State actionNode = ACTION_STATE_RUNNING → forceRerun = true).

(** The record of the result: the node as the handler left it, done, or
    failed with the error of the handler. *)
Definition terminalNode (actionNode : ActionNode) (actionErr : option string)
  : ActionNode :=
  match actionErr with
  | Some msg => set_State ACTION_STATE_FAILED (set_Error msg actionNode)
  | None => set_State ACTION_STATE_DONE (set_Error "" actionNode)
  end.




(** A call that has created the node at [p]. *)
Definition creates (p : string) (ev : event) : bool :=
  match ev with
  | EvCreate p' _ (inr _) => String.eqb p' p
  | _ => false
  end.



(** The handlers leave the node at [p] alone. *)
Definition handlersKeep (p : string) : Prop :=
  ∀ n s, (dispatchAction n s).2 !! p = s !! p.

(** The calls of [HandleAction] of a pool of actors. *)
Definition actors (calls : list (string * string * string * bool))
  : list (prog (option error)) :=
  map (λ '(actionPath, action, actionGuid, forceRerun),
         HandleAction actionPath action actionGuid forceRerun) calls.

(** The race of two actors: both read the node, both try the claim, the
    first runs to its end, then the second. *)
Definition raceSchedule : list nat :=
  [0; 1; 0; 1]%nat ++ replicate 5 0%nat ++ replicate 2 1%nat.

(** Who made which call. *)
Definition calls (tr : list entry) : list (nat * event) :=
  map (λ e, (actor e, what e)) tr.






End WithEnvironment.

(** *** The order of the calls of an actor *)

(** A call that reads the store and changes nothing. *)
Definition isRead (ev : event) : bool :=
  match ev with
  | EvGet _ _ | EvWatch _ => true
  | _ => false
  end.

(** A program that makes at most [n] calls, whatever the answers. *)
Inductive within {R : Type} : nat → prog R → Prop :=
| within_Ret n r : within n (Ret r)
| within_Get n p k : (∀ r, within n (k r)) → within (S n) (OpGet p k)
| within_Set n p data version k :
    (∀ r, within n (k r)) → within (S n) (OpSet p data version k)
| within_Create n p data k : (∀ r, within n (k r)) → within (S n) (OpCreate p data k)
| within_Delete n p version k : (∀ r, within n (k r)) → within (S n) (OpDelete p version k)
| within_Dispatch n node k : (∀ r, within n (k r)) → within (S n) (OpDispatch node k)
| within_Watch n p k : (∀ r, within n (k r)) → within (S n) (OpWatch p k).

Section CallOrder.
Context `{Environment}.

(** A program of the actor on [actionPath] whose calls are in order: it
    reads the action node and the log path, sets the action node to a node in
    state Running, creates the log path and its directory, watches the log
    path, and deletes the action node only once it has created the log path
    ([recorded]). *)
Inductive orderly {R : Type} (actionPath : string) : bool → prog R → Prop :=
| orderly_Ret recorded r : orderly actionPath recorded (Ret r)
| orderly_Get recorded p k :
    p = actionPath ∨ p = ActionToActionLogPath actionPath →
    (∀ r, orderly actionPath recorded (k r)) →
    orderly actionPath recorded (OpGet p k)
| orderly_Set recorded node version k :
    (∀ r, orderly actionPath recorded (k r)) →
    orderly actionPath recorded
      (OpSet actionPath (ActionNodeToJson (set_State ACTION_STATE_RUNNING node)) version k)
| orderly_Create recorded p data k :
    p = ActionToActionLogPath actionPath ∨ p = Zk.Dir (ActionToActionLogPath actionPath) →
    (∀ err, orderly actionPath recorded (k (inl err))) →
    (∀ created,
       orderly actionPath (recorded || String.eqb p (ActionToActionLogPath actionPath))
         (k (inr created))) →
    orderly actionPath recorded (OpCreate p data k)
| orderly_Delete version k :
    (∀ r, orderly actionPath true (k r)) →
    orderly actionPath true (OpDelete actionPath version k)
| orderly_Dispatch recorded n k :
    (∀ r, orderly actionPath recorded (k r)) →
    orderly actionPath recorded (OpDispatch n k)
| orderly_Watch recorded k :
    (∀ r, orderly actionPath recorded (k r)) →
    orderly actionPath recorded (OpWatch (ActionToActionLogPath actionPath) k).

(** The same of the calls made: [recorded] tells whether the log path has
    been created before them. *)
Fixpoint inOrder (actionPath : string) (recorded : bool) (tr : list event) : Prop :=
  match tr with
  | [] => True
  | ev :: tr =>
      match ev with
      | EvGet p _ =>
          (p = actionPath ∨ p = ActionToActionLogPath actionPath)
          ∧ inOrder actionPath recorded tr
      | EvSet p data _ _ =>
          p = actionPath
          ∧ (∃ node, data = ActionNodeToJson (set_State ACTION_STATE_RUNNING node))
          ∧ inOrder actionPath recorded tr
      | EvCreate p _ r =>
          (p = ActionToActionLogPath actionPath
           ∨ p = Zk.Dir (ActionToActionLogPath actionPath))
          ∧ inOrder actionPath
              (recorded
               || (match r with inr _ => true | inl _ => false end
                   && String.eqb p (ActionToActionLogPath actionPath))) tr
      | EvDelete p _ _ =>
          p = actionPath ∧ recorded = true ∧ inOrder actionPath recorded tr
      | EvDispatch _ _ => inOrder actionPath recorded tr
      | EvWatch p =>
          p = ActionToActionLogPath actionPath ∧ inOrder actionPath recorded tr
      end
  end.

(** A program that does not delete the node at [p]. *)
Inductive spares {R : Type} (p : string) : prog R → Prop :=
| spares_Ret r : spares p (Ret r)
| spares_Get q k : (∀ r, spares p (k r)) → spares p (OpGet q k)
| spares_Set q data version k : (∀ r, spares p (k r)) → spares p (OpSet q data version k)
| spares_Create q data k : (∀ r, spares p (k r)) → spares p (OpCreate q data k)
| spares_Delete q version k : q ≠ p → (∀ r, spares p (k r)) → spares p (OpDelete q version k)
| spares_Dispatch n k : (∀ r, spares p (k r)) → spares p (OpDispatch n k)
| spares_Watch q k : (∀ r, spares p (k r)) → spares p (OpWatch q k).

End CallOrder.

End Actor.


(** ** mysqlctl/binlog_parser.go: the parser of the update stream *)

Module UpdateStream.
Import Mysqlctl.

Record eventBuffer : Type := mkEvent {
  evPosition : BinlogPosition;
  LogLine : string
}.

(** The fields of the update stream's [Blp] that [handleBeginEvent] uses. *)
Record Blp : Type := mkBlp {
  inTxn : bool;
  txnLineBuffer : list eventBuffer;
  currentPosition : BinlogPosition
}.

Definition NewEventBuffer (pos : BinlogPosition) (line : string) : eventBuffer :=
  mkEvent
    (mkPos (mkCoord (RelayFilename (coordinates pos)) 0
                    (MasterFilename (coordinates pos)) (MasterPosition (coordinates pos)))
           "" (Timestamp pos) 0 0)
    line.

(** [Blp.handleBeginEvent]; [inl len] is the panic "BEGIN encountered with
    non-empty trxn buffer, len: %d". *)
Definition handleBeginEvent (blp : Blp) (line : string) : nat + Blp :=
  if negb (length (txnLineBuffer blp) =? 0)%nat || inTxn blp then
    inl (length (txnLineBuffer blp))
  else
    let event := NewEventBuffer (currentPosition blp) line in
    inr (mkBlp true (txnLineBuffer blp ++ [event]) (currentPosition blp)).

(** [Blp.parseDbChange] of the update stream, on the two values it uses:
    [dbname] is [globalState.dbname], and the result is [blp.dbmatch] after
    the call. *)
Definition parseDbChange (dbname : string) (dbmatch : bool) (line : string) : bool :=
  if negb (GoBytes.HasPrefix line BINLOG_DB_CHANGE) then dbmatch
  else if String.eqb dbname "" then dbmatch
  else
    let new_db := GoBytes.TrimLeft line USE in
    if negb (String.eqb new_db dbname) then false else dbmatch.

End UpdateStream.

(** ** A subscriber and a binlog, for the scenarios *)

Module Scenario.
Import GoBytes Mysqlctl BinlogServer.

(** Modelled from the spec: package key is not among the sources.  A keyspace
    id is the unsigned 64-bit value as a 64-bit key, here its 8 bytes, most
    significant first. *)
Definition uint64Key (n : Z) : Key.KeyspaceId :=
  let b (k : Z) := String (ascii_of_N (Z.to_N ((n / 256 ^ k) mod 256))) "" in
  b 7 +:+ b 6 +:+ b 5 +:+ b 4 +:+ b 3 +:+ b 2 +:+ b 1 +:+ b 0.

(** Modelled from the spec: a key range is the half-open interval
    [[start, end)] of the key space; the empty bound is no bound. *)
Definition contains (kr : Key.KeyRange) (id : Key.KeyspaceId) : bool :=
  (String.eqb (Key.Start kr) "" || String.leb (Key.Start kr) id)
  && (String.eqb (Key.End kr) "" || String.ltb id (Key.End kr)).

(** Statements that belong to a transaction, in the manner of
    [handleTxnEvent] of binlog_parser.go: DML, SET TIMESTAMP and
    SET INSERT_ID. *)
Definition isTxnStatement (line firstKw : string) : bool :=
  String.eqb (GetSqlType firstKw) DML
  || HasPrefix line BINLOG_SET_TIMESTAMP || HasPrefix line BINLOG_SET_INSERT.

Definition splitPath (p : string) : string * string :=
  match findLast "/" p with
  | Some i => (sliceTo (S i) p, sliceFrom (S i) p)
  | None => ("", p)
  end.

#[export] Instance externals : Externals := {|
  IsTxnStatement := isTxnStatement;
  EncodeCoordinatesToPosition c := Some (MasterFilename c);
  KeyRange_Contains := contains;
  Uint64Key_KeyspaceId := uint64Key;
  KeyspaceId_Hex s := s;
  path_Split := splitPath;
  path_Join dir file := dir +:+ file
|}.

Definition tab : string := String (ascii_of_nat 9) "".

(** A subscriber of the key range [[0x80, 0xC0)] on a master binlog. *)
Definition subscriber : Blp :=
  NewBlp (mkCoord "" 0 "mysql-bin.000001" 4) ""
         (Key.mkKeyRange (String (ascii_of_nat 128) "") (String (ascii_of_nat 192) "")).

(** The header of a binlog and a transaction of two DMLs whose keyspace ids
    are 0x40... and 0xA0..., up to its last statement. *)
Definition txnOpen : list string := [
  "# at 4";
  "#130101 12:00:00 server id 1  end_log_pos 106 " +:+ tab +:+ "Start: binlog v 4";
  "# at 106";
  "#130101 12:00:01 server id 1  end_log_pos 174 " +:+ tab +:+ "Query";
  "SET TIMESTAMP=1357041601/*!*/;";
  "BEGIN";
  "/*!*/;";
  "# at 174";
  "#130101 12:00:01 server id 1  end_log_pos 300 " +:+ tab +:+ "Query";
  "insert into t(id) values (1) /* EMD keyspace_id: 4611686018427387904 user_id 1 */";
  "/*!*/;";
  "# at 300";
  "#130101 12:00:01 server id 1  end_log_pos 420 " +:+ tab +:+ "Query";
  "update t set a = 1 where id = 2 /* EMD keyspace_id: 11529215046068469760 user_id 2 */";
  "/*!*/;";
  "# at 420";
  "#130101 12:00:01 server id 1  end_log_pos 447 " +:+ tab +:+ "Xid = 12"
].

Definition txnCommitted : list string := txnOpen ++ ["COMMIT/*!*/;"].
Definition txnRolledBack : list string := txnOpen ++ ["ROLLBACK/*!*/;"].
Definition txnReopened : list string := txnOpen ++ ["BEGIN/*!*/;"].

(** The parser after [lines]; a panic leaves the subscriber as it started. *)
Definition after (lines : list string) : Blp :=
  match parseBinlogEvents (startLoop subscriber) lines with
  | Ok st => blpOf st
  | Panic _ => subscriber
  end.

Definition statement (line : string) : eventBuffer :=
  let ev := NewEventBuffer (currentPosition (after txnOpen)) line in
  set_firstKw (ToLower (SplitN2_first line SPACE)) ev.

(** The parser inside the transaction, after the last line of [txnOpen], and
    the statements that may come next, as values. *)
Definition openTxn : Blp := Eval vm_compute in after txnOpen.
Definition commitStatement : eventBuffer := Eval vm_compute in statement "COMMIT".
Definition rollbackStatement : eventBuffer := Eval vm_compute in statement "ROLLBACK".
Definition beginStatement : eventBuffer := Eval vm_compute in statement "BEGIN".

(** Two DDL statements of a master log whose end_log_pos go from 500 back
    to 300. *)
Definition outOfOrder : list string := [
  "# at 106";
  "#130101 12:00:01 server id 1  end_log_pos 500 " +:+ tab +:+ "Query";
  "create table a (id int)/*!*/;";
  "# at 200";
  "#130101 12:00:02 server id 1  end_log_pos 300 " +:+ tab +:+ "Query";
  "create table b (id int)/*!*/;"
].

(** The loop after the committed transaction. *)
Definition committedLoop : loopState :=
  Eval vm_compute in
    match parseBinlogEvents (startLoop subscriber) txnCommitted with
    | Ok st => st
    | Panic _ => startLoop subscriber
    end.

(** Three subscribers of a server whose ceiling is 1200: one at 2400 DML a
    second, one at 500, and one that has sent no DML yet and has no rate. *)
Definition throttled (tag : string) : Blp :=
  NewBlp (mkCoord "" 0 "mysql-bin.000001" 4) "" (Key.mkKeyRange "" tag).

Definition fast : Blp := Eval vm_compute in throttled "80".
Definition steady : Blp := Eval vm_compute in throttled "c0".
Definition idle : Blp := Eval vm_compute in throttled "ff".

Definition rates : list (string * list float) :=
  [("DmlCount.80", [2400%float]); ("DmlCount.c0", [500%float])].

(** A subscriber of the database vt_test, and a log that changes to another
    database before the transaction. *)
Definition dbSubscriber : Blp :=
  NewBlp (mkCoord "" 0 "mysql-bin.000001" 4) "vt_test"
         (Key.mkKeyRange (String (ascii_of_nat 128) "") (String (ascii_of_nat 192) "")).

Definition otherDb : list string := "Use other_db/*!*/;" :: txnCommitted.

(** A statement on two lines. *)
Definition twoLines : list string := ["create table a "; "(id int)/*!*/;"].

(** A subscriber that a tick has slowed down. *)
Definition slowed : Blp := Eval vm_compute in set_sleepToThrottle (45 * 1000000) fast.

(** A subscriber on the relay logs of a replica, started at the master
    position 500. *)
Definition replicaSubscriber : Blp :=
  set_usingRelayLogs true
    (NewBlp (mkCoord "/vt/relay-bin.000007" 0 "mysql-bin.000001" 500) ""
       (Key.mkKeyRange (String (ascii_of_nat 128) "") (String (ascii_of_nat 192) ""))).

(** A transaction whose second insert takes its id from SET INSERT_ID, after
    an insert out of the key range, up to its last statement. *)
Definition insertIdTxn : list string := [
  "SET TIMESTAMP=1357041601/*!*/;";
  "BEGIN";
  "/*!*/;";
  "insert into t(id) values (1) /* EMD keyspace_id: 4611686018427387904 user_id 1 */";
  "/*!*/;";
  "SET INSERT_ID=7/*!*/;";
  "insert into u(id) values (null) /* EMD keyspace_id: 11529215046068469760 user_id 2 */";
  "/*!*/;"
].

Definition insertIdBuffer : Blp := Eval vm_compute in after insertIdTxn.

End Scenario.

(** ** An action queue to run the actor on *)

Module ActorScenario.
Import GoBytes Zk Actor.

(** A codec for the examples: every character of a field after a plus sign,
    a full stop at the end of the field; the header, the arguments and the
    reply one after the other. *)
Fixpoint encodeField (s : string) : string :=
  match s with
  | EmptyString => "."
  | String c s => String "+" (String c (encodeField s))
  end.

Fixpoint decodeField (s : string) : option (string * string) :=
  match s with
  | EmptyString => None
  | String c rest =>
      if Ascii.eqb c "." then Some ("", rest)
      else
        match rest with
        | EmptyString => None
        | String d rest' =>
            if Ascii.eqb c "+" then
              match decodeField rest' with
              | Some (field, rest'') => Some (String d field, rest'')
              | None => None
              end
            else None
        end
  end.

Definition toJson (n : ActionNode) : string :=
  encodeField (Action n) +:+ encodeField (ActionGuid n) +:+ encodeField (Error n)
  +:+ encodeField (State n) +:+ encodeField (args n) +:+ encodeField (reply n).

Definition fromJson (data p : string) : error + ActionNode :=
  match decodeField data with
  | Some (action, data1) =>
    match decodeField data1 with
    | Some (guid, data2) =>
      match decodeField data2 with
      | Some (err, data3) =>
        match decodeField data3 with
        | Some (state, data4) =>
          match decodeField data4 with
          | Some (args, data5) =>
            match decodeField data5 with
            | Some (reply, "") => inr (mkActionNode action guid err state p args reply)
            | _ => inl (JsonError data)
            end
          | None => inl (JsonError data)
          end
        | None => inl (JsonError data)
        end
      | None => inl (JsonError data)
      end
    | None => inl (JsonError data)
    end
  | None => inl (JsonError data)
  end.

(** Modelled from the spec: [ActionToActionLogPath] is not among the
    sources.  The terminal records of the actions of [<target>/action] are
    under [<target>/actionlog]. *)
Definition actionToActionLogPath (actionPath : string) : string :=
  match find "/action/" actionPath with
  | Some i => sliceTo i actionPath +:+ "/actionlog/" +:+ sliceFrom (i + 8) actionPath
  | None => actionPath
  end.

(** A tablet that knows the action Ping only: the other names take the
    default of [dispatchAction]. *)
Definition pingOnly (n : ActionNode) (s : Zk.store)
  : ActionNode * option string * Zk.store :=
  if String.eqb (Action n) "Ping" then (n, None, s)
  else (n, Some ("invalid action: " +:+ Action n), s).

#[export] Instance environment : Environment := {|
  ActionNodeToJson := toJson;
  ActionNodeFromJson := fromJson;
  dispatchAction := pingOnly;
  ActionToActionLogPath := actionToActionLogPath
|}.

(** A queued Ping in the action queue of a tablet that has no log of
    actions yet. *)
Definition tabletPath : string := "/zk/test/vt/tablets/0000000001".
Definition pingPath : string := tabletPath +:+ "/action/0000000001".

Definition queuedPing : ActionNode :=
  mkActionNode "Ping" "guid-1" "" ACTION_STATE_QUEUED pingPath "{}" "{}".

Definition pingStore : Zk.store :=
  <[pingPath := mkZnode (toJson queuedPing) 0]>
    (<[tabletPath +:+ "/action" := mkZnode "" 0]>
       (<[tabletPath := mkZnode "" 0]> ∅)).

Definition pingLogDir : string := tabletPath +:+ "/actionlog".
Definition pingLogPath : string := pingLogDir +:+ "/0000000001".
Definition runningPing : ActionNode := set_State ACTION_STATE_RUNNING queuedPing.
Definition donePing : ActionNode := set_State ACTION_STATE_DONE runningPing.

(** The store once the Ping is claimed. *)
Definition claimedStore : Zk.store :=
  <[pingPath := mkZnode (toJson runningPing) 1]> pingStore.

(** The queue with the Ping done, and the store in which the log already
    holds a record of the Ping. *)
Definition doneStore : Zk.store :=
  <[pingPath := mkZnode (toJson donePing) 1]> pingStore.

Definition loggedStore : Zk.store :=
  <[pingLogPath := mkZnode (toJson donePing) 0]>
    (<[pingLogDir := mkZnode "" 0]> pingStore).

End ActorScenario.

(** * Properties *)

(** ** [ShardInfo.Rebuild] *)

Module ShardFacts.
Import Key Naming Shard.

Lemma last_cons_default {A : Type} (l : list A) :
  ∀ (a d : A), List.last (a :: l) d = List.last l a.
Proof.
  induction l as [|b l IH]; intros a d; [reflexivity|].
  change (List.last (a :: b :: l) d) with (List.last (b :: l) d).
  rewrite (IH b d), (IH b a). reflexivity.
Qed.

Lemma aliasesOfType_cons (ty : TabletType) (ti : TabletInfo) (l : list TabletInfo) :
  aliasesOfType ty (ti :: l) =
  if decide (tType (tiTablet ti) = ty)
  then aliasOf ti :: aliasesOfType ty l
  else aliasesOfType ty l.
Proof.
  unfold aliasesOfType, hasType. cbn [List.filter].
  case_decide.
  - by rewrite bool_decide_eq_true_2.
  - by rewrite bool_decide_eq_false_2.
Qed.

Lemma aliasesOfType_app (ty : TabletType) (l1 l2 : list TabletInfo) :
  aliasesOfType ty (l1 ++ l2) = aliasesOfType ty l1 ++ aliasesOfType ty l2.
Proof. unfold aliasesOfType. by rewrite List.filter_app, map_app. Qed.

(** The loop invariant of [Rebuild]: once the first member has been seen
    ([i > 0]) the aliases collected so far are extended by those of the
    remaining members, the key range is kept, and the first remaining member
    whose key range differs ends the loop with the error. *)
Lemma Rebuild_loop_spec (l : list TabletInfo) :
  ∀ (i : nat) (tmp : Shard.Shard),
    Rebuild_loop (S i) tmp l =
    match firstMismatch (KeyRange tmp) l with
    | Some bad => inl (ErrInconsistentKeyRange (KeyRange tmp) (tKeyRange (tiTablet bad)))
    | None =>
        inr (mkShard
               (List.last (aliasesOfType TYPE_MASTER l) (MasterAlias tmp))
               (ReplicaAliases tmp ++ aliasesOfType TYPE_REPLICA l)
               (RdonlyAliases tmp ++ aliasesOfType TYPE_RDONLY l)
               (KeyRange tmp))
    end.
Proof.
  induction l as [|ti rest IH]; intros i tmp.
  - destruct tmp; simpl. by rewrite !app_nil_r.
  - cbn [Rebuild_loop firstMismatch List.find].
    set (tmp' := match tType (tiTablet ti) with
                 | TYPE_MASTER => _ | TYPE_REPLICA => _ | TYPE_RDONLY => _
                 | _ => tmp end).
    assert (Hkr : KeyRange tmp' = KeyRange tmp)
      by (subst tmp'; destruct (tType (tiTablet ti)); reflexivity).
    rewrite Hkr. case_decide as Hk.
    + rewrite bool_decide_eq_true_2 by congruence. reflexivity.
    + rewrite bool_decide_eq_false_2 by (intros Hne; apply Hne; congruence).
      rewrite IH, Hkr. fold (firstMismatch (KeyRange tmp) rest).
      destruct (firstMismatch (KeyRange tmp) rest); [reflexivity|].
      f_equal. rewrite !aliasesOfType_cons.
      subst tmp'. destruct (tType (tiTablet ti)) eqn:Hty;
        repeat case_decide; try congruence;
        rewrite ?last_cons_default; cbn;
        rewrite <- ?app_assoc; reflexivity.
Qed.

Lemma firstMismatch_None (k : Key.KeyRange) (l : list TabletInfo) :
  firstMismatch k l = None ↔ ∀ ti, In ti l → tKeyRange (tiTablet ti) = k.
Proof.
  unfold firstMismatch. induction l as [|x l IH]; cbn [List.find].
  - split; [intros _ ti []|done].
  - case_bool_decide as Hx.
    + split; [done|]. intros H. destruct Hx. apply H. by left.
    + rewrite IH. split.
      * intros H ti [<-|Hin]; [|by apply H].
        destruct (decide (tKeyRange (tiTablet x) = k)); [done|by destruct Hx].
      * intros H ti Hin. apply H. by right.
Qed.

Lemma firstMismatch_Some (k : Key.KeyRange) (l : list TabletInfo) (bad : TabletInfo) :
  firstMismatch k l = Some bad → In bad l ∧ tKeyRange (tiTablet bad) ≠ k.
Proof.
  unfold firstMismatch. intros H. apply List.find_some in H as [Hin Hb].
  split; [done|]. by apply bool_decide_eq_true_1 in Hb.
Qed.

(** [Rebuild] as a whole: the error for the first member that disagrees with
    the first member's key range, the partition of the members otherwise. *)
Lemma Rebuild_spec (si : ShardInfo) (l : list TabletInfo) :
  Rebuild si l =
  match firstMismatch (firstKeyRange l) l with
  | Some bad =>
      (si, Some (ErrInconsistentKeyRange (firstKeyRange l) (tKeyRange (tiTablet bad))))
  | None => (mkShardInfo (keyspace si) (shardName si) (partitioned l), None)
  end.
Proof.
  unfold Rebuild. destruct l as [|ti rest]; [reflexivity|].
  cbn [Rebuild_loop firstKeyRange]. rewrite Rebuild_loop_spec.
  set (tmp' := match tType (tiTablet ti) with
               | TYPE_MASTER => _ | TYPE_REPLICA => _ | TYPE_RDONLY => _
               | _ => newShard end).
  cbn [set_KeyRange KeyRange MasterAlias ReplicaAliases RdonlyAliases].
  unfold firstMismatch at 2. cbn [List.find].
  rewrite bool_decide_eq_false_2 by (intros Hne; by apply Hne).
  fold (firstMismatch (tKeyRange (tiTablet ti)) rest).
  destruct (firstMismatch _ rest); [reflexivity|].
  unfold partitioned. rewrite !aliasesOfType_cons. cbn [firstKeyRange].
  subst tmp'. destruct (tType (tiTablet ti));
    repeat case_decide; try congruence;
    rewrite ?last_cons_default; reflexivity.
Qed.

Lemma Rebuild_consistent (si : ShardInfo) (l : list TabletInfo) :
  (∀ ti, In ti l → tKeyRange (tiTablet ti) = firstKeyRange l) →
  Rebuild si l = (mkShardInfo (keyspace si) (shardName si) (partitioned l), None).
Proof.
  intros H. rewrite Rebuild_spec.
  by apply firstMismatch_None in H as ->.
Qed.

Lemma Rebuild_inconsistent (si : ShardInfo) (l : list TabletInfo) (a b : TabletInfo) :
  In a l → In b l → tKeyRange (tiTablet a) ≠ tKeyRange (tiTablet b) →
  ∃ bad, In bad l ∧ tKeyRange (tiTablet bad) ≠ firstKeyRange l ∧
         Rebuild si l =
         (si, Some (ErrInconsistentKeyRange (firstKeyRange l) (tKeyRange (tiTablet bad)))).
Proof.
  intros Ha Hb Hab. rewrite Rebuild_spec.
  destruct (firstMismatch (firstKeyRange l) l) as [bad|] eqn:Hm.
  - apply firstMismatch_Some in Hm as [? ?]. by exists bad.
  - exfalso. apply Hab.
    pose proof (proj1 (firstMismatch_None _ _) Hm) as Hall.
    by rewrite (Hall a Ha), (Hall b Hb).
Qed.

(** C7. For every list of member tablets, [Rebuild] either fails or stores a
    shard whose replica and rdonly aliases are exactly the aliases of the
    members of that type, in input order, whose master alias is the alias of
    the member of type master (the empty alias when there is none), and whose
    key range is the one all members share.  When two members have different
    key ranges [Rebuild] returns the error and leaves the shard record as it
    was. *)
Theorem Rebuild_partitions_members (si : ShardInfo) (l : list TabletInfo) :
  ((∀ ti, In ti l → tKeyRange (tiTablet ti) = firstKeyRange l) →
   let si' := fst (Rebuild si l) in
   snd (Rebuild si l) = None ∧
   keyspace si' = keyspace si ∧ shardName si' = shardName si ∧
   ReplicaAliases (siShard si') = map aliasOf (List.filter (hasType TYPE_REPLICA) l) ∧
   RdonlyAliases (siShard si') = map aliasOf (List.filter (hasType TYPE_RDONLY) l) ∧
   MasterAlias (siShard si') =
     List.last (map aliasOf (List.filter (hasType TYPE_MASTER) l)) Naming.zero ∧
   (∀ m, List.filter (hasType TYPE_MASTER) l = [m] → MasterAlias (siShard si') = aliasOf m) ∧
   (List.filter (hasType TYPE_MASTER) l = [] → MasterAlias (siShard si') = Naming.zero) ∧
   (∀ ti, In ti l → KeyRange (siShard si') = tKeyRange (tiTablet ti)))
  ∧
  (∀ a b, In a l → In b l → tKeyRange (tiTablet a) ≠ tKeyRange (tiTablet b) →
   fst (Rebuild si l) = si ∧ is_Some (snd (Rebuild si l))).
Proof.
  split.
  - intros H. rewrite (Rebuild_consistent si l H). cbn.
    repeat split; try reflexivity.
    + intros m Hm. unfold aliasesOfType. by rewrite Hm.
    + intros Hm. unfold aliasesOfType. by rewrite Hm.
    + intros ti Hin. symmetry. by apply H.
  - intros a b Ha Hb Hab.
    destruct (Rebuild_inconsistent si l a b Ha Hb Hab) as (bad & _ & _ & ->).
    cbn. eauto.
Qed.

Lemma Rebuild_partitions_members_witness :
  (let l := [tablet "nj" 1 TYPE_REPLICA lowHalf; tablet "nj" 2 TYPE_MASTER lowHalf;
             tablet "nj" 3 TYPE_SPARE lowHalf; tablet "ny" 4 TYPE_RDONLY lowHalf;
             tablet "ny" 5 TYPE_REPLICA lowHalf] in
   let si' := fst (Rebuild shard0 l) in
   snd (Rebuild shard0 l) = None ∧
   ReplicaAliases (siShard si') = [mkAlias "nj" 1; mkAlias "ny" 5] ∧
   RdonlyAliases (siShard si') = [mkAlias "ny" 4] ∧
   MasterAlias (siShard si') = mkAlias "nj" 2 ∧
   KeyRange (siShard si') = lowHalf)
  ∧
  (let l := [tablet "nj" 1 TYPE_REPLICA lowHalf; tablet "nj" 2 TYPE_MASTER highHalf] in
   fst (Rebuild shard0 l) = shard0 ∧ is_Some (snd (Rebuild shard0 l))).
Proof.
  split.
  - intros l si'.
    destruct (proj1 (Rebuild_partitions_members shard0 l))
      as (He & _ & _ & Hr & Hro & Hm & _ & _ & Hk).
    + intros ti Hin. cbn in Hin.
      repeat (destruct Hin as [<-|Hin]; [reflexivity|]). destruct Hin.
    + split; [exact He|]. split; [exact Hr|]. split; [exact Hro|].
      split; [exact Hm|].
      apply (Hk (tablet "nj" 1 TYPE_REPLICA lowHalf)). by left.
  - intros l.
    apply (proj2 (Rebuild_partitions_members shard0 l)
             (tablet "nj" 1 TYPE_REPLICA lowHalf) (tablet "nj" 2 TYPE_MASTER highHalf)).
    + by left.
    + right; by left.
    + discriminate.
Defined.

(** C10. [Rebuild] reports no error about membership: its only error is the
    key-range mismatch, so members whose key ranges agree are accepted
    whatever their types.  A member that is not master, replica or rdonly
    adds no alias to any set, yet its key range is compared like any other;
    and of several members of type master the last one of the list becomes
    [MasterAlias], with no error. *)
Theorem Rebuild_membership_unchecked (si : ShardInfo) (l : list TabletInfo) :
  ((∀ ti, In ti l → tKeyRange (tiTablet ti) = firstKeyRange l) →
   snd (Rebuild si l) = None)
  ∧
  (∀ e, snd (Rebuild si l) = Some e →
   ∃ bad, In bad l ∧ tKeyRange (tiTablet bad) ≠ firstKeyRange l ∧
          e = ErrInconsistentKeyRange (firstKeyRange l) (tKeyRange (tiTablet bad)))
  ∧
  (∀ l1 ti l2, l = l1 ++ ti :: l2 →
   tType (tiTablet ti) ∉ [TYPE_MASTER; TYPE_REPLICA; TYPE_RDONLY] →
   (∀ ty, ty ∈ [TYPE_MASTER; TYPE_REPLICA; TYPE_RDONLY] →
          aliasesOfType ty l = aliasesOfType ty (l1 ++ l2)) ∧
   (snd (Rebuild si l) = None →
    MasterAlias (siShard (fst (Rebuild si l))) =
      List.last (aliasesOfType TYPE_MASTER (l1 ++ l2)) Naming.zero ∧
    ReplicaAliases (siShard (fst (Rebuild si l))) = aliasesOfType TYPE_REPLICA (l1 ++ l2) ∧
    RdonlyAliases (siShard (fst (Rebuild si l))) = aliasesOfType TYPE_RDONLY (l1 ++ l2)) ∧
   (tKeyRange (tiTablet ti) ≠ firstKeyRange l →
    fst (Rebuild si l) = si ∧ is_Some (snd (Rebuild si l))))
  ∧
  (∀ l1 m1 l2 m2 l3, l = l1 ++ m1 :: l2 ++ m2 :: l3 →
   tType (tiTablet m1) = TYPE_MASTER → tType (tiTablet m2) = TYPE_MASTER →
   aliasesOfType TYPE_MASTER l3 = [] →
   (∀ ti, In ti l → tKeyRange (tiTablet ti) = firstKeyRange l) →
   snd (Rebuild si l) = None ∧
   MasterAlias (siShard (fst (Rebuild si l))) = aliasOf m2).
Proof.
  split; [|split; [|split]].
  - intros H. by rewrite (Rebuild_consistent si l H).
  - intros e. rewrite Rebuild_spec.
    destruct (firstMismatch (firstKeyRange l) l) as [bad|] eqn:Hm; [|discriminate].
    intros [= <-]. apply firstMismatch_Some in Hm as [? ?]. by exists bad.
  - intros l1 ti l2 -> Hty.
    assert (Hal : ∀ ty, ty ∈ [TYPE_MASTER; TYPE_REPLICA; TYPE_RDONLY] →
              aliasesOfType ty (l1 ++ ti :: l2) = aliasesOfType ty (l1 ++ l2)).
    { intros ty Hin. rewrite !aliasesOfType_app, aliasesOfType_cons.
      case_decide as Heq; [|reflexivity]. destruct Hty. by rewrite Heq. }
    split; [exact Hal|split].
    + rewrite Rebuild_spec.
      destruct (firstMismatch _ _); [discriminate|]. intros _. cbn.
      rewrite <- !Hal by set_solver. done.
    + intros Hne.
      destruct (l1 ++ ti :: l2) as [|hd tl] eqn:Hl; [by destruct l1|].
      destruct (Rebuild_inconsistent si (hd :: tl) ti hd) as (bad & _ & _ & ->).
      * rewrite <- Hl. apply in_or_app. right. by left.
      * by left.
      * exact Hne.
      * cbn. eauto.
  - intros l1 m1 l2 m2 l3 -> H1 H2 H3 Hall.
    rewrite (Rebuild_consistent si _ Hall). cbn. split; [reflexivity|].
    rewrite aliasesOfType_app, aliasesOfType_cons, aliasesOfType_app, aliasesOfType_cons.
    rewrite !decide_True by done. rewrite H3.
    change (aliasOf m1 :: aliasesOfType TYPE_MASTER l2 ++ [aliasOf m2])
      with ((aliasOf m1 :: aliasesOfType TYPE_MASTER l2) ++ [aliasOf m2]).
    rewrite app_assoc. apply List.last_last.
Qed.

Lemma Rebuild_membership_unchecked_witness :
  (let l := [tablet "nj" 1 TYPE_MASTER lowHalf; tablet "nj" 2 TYPE_SCRAP lowHalf;
             tablet "nj" 3 TYPE_MASTER lowHalf; tablet "nj" 4 TYPE_LAG lowHalf] in
   snd (Rebuild shard0 l) = None ∧
   MasterAlias (siShard (fst (Rebuild shard0 l))) = mkAlias "nj" 3)
  ∧
  (let l := [tablet "nj" 1 TYPE_MASTER lowHalf; tablet "nj" 2 TYPE_BACKUP highHalf] in
   aliasesOfType TYPE_REPLICA l = aliasesOfType TYPE_REPLICA [tablet "nj" 1 TYPE_MASTER lowHalf] ∧
   fst (Rebuild shard0 l) = shard0 ∧ is_Some (snd (Rebuild shard0 l))).
Proof.
  split.
  - intros l.
    apply (proj2 (proj2 (proj2 (Rebuild_membership_unchecked shard0 l)))
             [] (tablet "nj" 1 TYPE_MASTER lowHalf)
             [tablet "nj" 2 TYPE_SCRAP lowHalf]
             (tablet "nj" 3 TYPE_MASTER lowHalf)
             [tablet "nj" 4 TYPE_LAG lowHalf]); try reflexivity.
    intros ti Hin. cbn in Hin.
    repeat (destruct Hin as [<-|Hin]; [reflexivity|]). destruct Hin.
  - intros l.
    destruct (proj1 (proj2 (proj2 (Rebuild_membership_unchecked shard0 l)))
                [tablet "nj" 1 TYPE_MASTER lowHalf]
                (tablet "nj" 2 TYPE_BACKUP highHalf) [])
      as (Hal & _ & Herr).
    + reflexivity.
    + cbn. intros Hin. repeat (apply elem_of_cons in Hin as [Hin|Hin]; [discriminate|]).
      by apply elem_of_nil in Hin.
    + split.
      * apply Hal. apply elem_of_cons. right. apply elem_of_cons. by left.
      * apply Herr. discriminate.
Defined.

End ShardFacts.

(** ** [BinlogReader]: where reading starts *)

Module BinlogReaderFacts.
Import BinlogReader.

Lemma remaining_next (dir : gmap Z file) (id : Z) (f : file) :
  dir !! id = Some f → (remaining dir (id + 1) < remaining dir id)%nat.
Proof.
  intros Hf. unfold remaining. apply map_subset_size, map_subset_alt.
  split.
  - apply map_filter_subseteq_ext. intros i x _; cbn. lia.
  - exists id. split.
    + apply map_lookup_filter_None. right. intros x _; cbn. lia.
    + assert (Hin : filter (λ kv : Z * file, id ≤ kv.1) dir !! id = Some f)
        by (apply map_lookup_filter_Some; split; [done|cbn; lia]).
      by rewrite Hin.
Qed.

Lemma remaining_le (dir : gmap Z file) (id : Z) : (remaining dir id ≤ size dir)%nat.
Proof. apply map_subseteq_size, map_filter_subseteq. Qed.

(** With one unit of fuel per remaining file and one more, the rotation loop
    of [serve] ends. *)
Lemma serve_rotate_total (dir : gmap Z file) :
  ∀ (fuel : nat) (f : file) (nextLog pos : Z),
    (remaining dir nextLog < fuel)%nat →
    is_Some (serve_rotate fuel dir f nextLog pos).
Proof.
  induction fuel as [|fuel IH]; intros f nextLog pos Hfuel; [lia|].
  cbn [serve_rotate]. destruct (pos >? fileSize f); [|eauto].
  unfold open. destruct (dir !! nextLog) as [f'|] eqn:Hnext; [|eauto].
  apply IH. pose proof (remaining_next dir nextLog f' Hnext). lia.
Qed.

(** More fuel does not change a result. *)
Lemma serve_rotate_fuel_mono (dir : gmap Z file) :
  ∀ (fuel fuel' : nat) (f : file) (nextLog pos : Z) (o : outcome),
    (fuel ≤ fuel')%nat →
    serve_rotate fuel dir f nextLog pos = Some o →
    serve_rotate fuel' dir f nextLog pos = Some o.
Proof.
  induction fuel as [|fuel IH]; intros fuel' f nextLog pos o Hle; [discriminate|].
  destruct fuel' as [|fuel']; [lia|]. cbn [serve_rotate].
  destruct (pos >? fileSize f); [|done].
  destruct (open dir nextLog) as [[f' next']|]; [|done].
  apply IH. lia.
Qed.

Lemma lands_start (dir : gmap Z file) (id pos id' pos' : Z) :
  lands dir id pos id' pos' → is_Some (dir !! id).
Proof. destruct 1; eauto. Qed.

Lemma beyond_start (dir : gmap Z file) (id pos : Z) :
  beyond dir id pos → is_Some (dir !! id).
Proof. destruct 1; eauto. Qed.

(** The rotation loop follows the walk of the specification. *)
Lemma serve_rotate_lands (dir : gmap Z file) (id pos id' pos' : Z) :
  lands dir id pos id' pos' →
  ∀ f, dir !! id = Some f →
  ∃ f' fuel, dir !! id' = Some f' ∧
    serve_rotate fuel dir f (id + 1) pos = Some (inject f' id' pos').
Proof.
  induction 1 as [id pos f0 Hf0 Hle|id pos id' pos' f0 Hf0 Hlt Hl IH]; intros f Hf.
  - rewrite Hf0 in Hf. injection Hf as <-. exists f0, 1%nat. split; [done|].
    cbn [serve_rotate]. destruct (Z.gtb_spec pos (fileSize f0)); [lia|].
    do 2 f_equal. lia.
  - rewrite Hf0 in Hf. injection Hf as <-.
    destruct (lands_start _ _ _ _ _ Hl) as [f1 Hf1].
    destruct (IH f1 Hf1) as (f' & fuel & Hf' & Hrun).
    exists f', (S fuel). split; [done|].
    cbn [serve_rotate]. destruct (Z.gtb_spec pos (fileSize f0)); [|lia].
    unfold open. rewrite Hf1. exact Hrun.
Qed.

Lemma serve_rotate_beyond (dir : gmap Z file) (id pos : Z) :
  beyond dir id pos →
  ∀ f, dir !! id = Some f →
  ∃ fuel, serve_rotate fuel dir f (id + 1) pos = Some Panicked.
Proof.
  induction 1 as [id pos f0 Hf0 Hlt Hnone|id pos f0 Hf0 Hlt Hb IH]; intros f Hf;
    rewrite Hf0 in Hf; injection Hf as <-.
  - exists 1%nat. cbn [serve_rotate].
    destruct (Z.gtb_spec pos (fileSize f0)); [|lia].
    unfold open. by rewrite Hnone.
  - destruct (beyond_start _ _ _ Hb) as [f1 Hf1].
    destruct (IH f1 Hf1) as [fuel Hrun]. exists (S fuel). cbn [serve_rotate].
    destruct (Z.gtb_spec pos (fileSize f0)); [|lia].
    unfold open. rewrite Hf1. exact Hrun.
Qed.

(** [serve] always reaches its copy loop, returns or panics. *)
Lemma serve_total (dir : gmap Z file) (filename pos : Z) :
  is_Some (serve dir filename pos).
Proof.
  unfold serve, open. destruct (dir !! filename) as [f|]; [|eauto].
  destruct (pos >? 0); [|eauto].
  apply serve_rotate_total. unfold serve_fuel.
  pose proof (remaining_le dir (filename + 1)). lia.
Qed.

Lemma serve_rotate_result (dir : gmap Z file) (f : file) (nextLog pos : Z)
  (fuel : nat) (o : outcome) :
  serve_rotate fuel dir f nextLog pos = Some o →
  serve_rotate (serve_fuel dir) dir f nextLog pos = Some o.
Proof.
  intros Hrun.
  destruct (serve_rotate_total dir (serve_fuel dir) f nextLog pos) as [o' Ho'].
  { unfold serve_fuel. pose proof (remaining_le dir nextLog). lia. }
  destruct (Nat.le_ge_cases fuel (serve_fuel dir)) as [Hle|Hle].
  - by apply (serve_rotate_fuel_mono dir fuel).
  - rewrite Ho'. rewrite (serve_rotate_fuel_mono dir _ fuel _ _ _ o' Hle Ho') in Hrun.
    done.
Qed.

Lemma inject_copies (f : file) (id pos n : Z) :
  readFirstEventSize f = Some n →
  BINLOG_HEADER_SIZE + n < 2 ^ 32 →
  BINLOG_HEADER_SIZE + n ≤ fileSize f →
  inject f id pos =
  Copying id pos (BINLOG_HEADER_SIZE + n)
          (firstn (Z.to_nat (BINLOG_HEADER_SIZE + n)) f).
Proof.
  intros Hn Hlt Hle. unfold inject. rewrite Hn.
  assert (0 ≤ n).
  { unfold readFirstEventSize in Hn.
    destruct (firstn 4 _) as [|b0 [|b1 [|b2 [|b3 [|]]]]]; try discriminate.
    injection Hn as <-. unfold byteZ. lia. }
  rewrite Z.mod_small by (unfold BINLOG_HEADER_SIZE in *; lia).
  destruct (Z.ltb_spec (fileSize f) (BINLOG_HEADER_SIZE + n)); [lia|done].
Qed.

(** C6, as the claim states it, fails for [ServeData]: with logs 1 (100 bytes)
    and 2 (200 bytes) and start offset 150 in log 1, [serve] rotates to log 2
    and starts copying at offset 50, while [ServeData] logs an error and
    returns without writing a byte. *)
Lemma ServeData_does_not_walk :
  serve twoLogs 1 150 = Some (Copying 2 50 23 (firstn 23 (binlog 200))) ∧
  ServeData twoLogs 1 150 = Returned [].
Proof. split; vm_compute; reflexivity. Qed.

(** C6 (amended). For a start offset greater than zero, [serve] (the HTTP
    entry point) always ends its search; when subtracting the size of each
    file from the remaining offset lands within a file, [serve] starts there,
    after replaying that file's header and first event; when the offset lies
    beyond all existing files it panics and serves nothing.  [ServeData] (the
    entry point of the streaming pipeline) does not walk: an offset greater
    than the size of the starting file makes it log an error and return
    without serving data, and an offset within the starting file is served
    as [serve] does. *)
Theorem serve_walks_ServeData_refuses (dir : gmap Z file) (filename pos : Z) :
  0 < pos →
  is_Some (serve dir filename pos) ∧
  (∀ id' pos', lands dir filename pos id' pos' →
     ∃ f', dir !! id' = Some f' ∧ pos' ≤ fileSize f' ∧
           serve dir filename pos = Some (inject f' id' pos') ∧
           (∀ n, readFirstEventSize f' = Some n →
                 BINLOG_HEADER_SIZE + n < 2 ^ 32 →
                 BINLOG_HEADER_SIZE + n ≤ fileSize f' →
                 serve dir filename pos =
                 Some (Copying id' pos' (BINLOG_HEADER_SIZE + n)
                         (firstn (Z.to_nat (BINLOG_HEADER_SIZE + n)) f')))) ∧
  (beyond dir filename pos → serve dir filename pos = Some Panicked) ∧
  (∀ f, dir !! filename = Some f → fileSize f < pos →
        ServeData dir filename pos = Returned []) ∧
  (∀ f, dir !! filename = Some f → pos ≤ fileSize f →
        ServeData dir filename pos = inject f filename pos ∧
        serve dir filename pos = Some (inject f filename pos)).
Proof.
  intros Hpos. split; [apply serve_total|].
  assert (Hgt : (pos >? 0) = true) by (destruct (Z.gtb_spec pos 0); [done|lia]).
  split; [|split; [|split]].
  - intros id' pos' Hl.
    assert (Hin : pos' ≤ match dir !! id' with Some f' => fileSize f' | None => pos' end).
    { clear Hgt Hpos. induction Hl as [id p f0 Hf0 Hle|]; [by rewrite Hf0|done]. }
    destruct (lands_start _ _ _ _ _ Hl) as [f Hf].
    destruct (serve_rotate_lands dir _ _ _ _ Hl f Hf) as (f' & fuel & Hf' & Hrun).
    rewrite Hf' in Hin.
    assert (Hserve : serve dir filename pos = Some (inject f' id' pos')).
    { unfold serve, open. rewrite Hf, Hgt. by apply (serve_rotate_result dir f _ _ fuel). }
    exists f'. repeat split; try done.
    intros n Hn Hlt Hle. rewrite Hserve. f_equal. by apply inject_copies.
  - intros Hb. destruct (beyond_start _ _ _ Hb) as [f Hf].
    destruct (serve_rotate_beyond dir _ _ Hb f Hf) as [fuel Hrun].
    unfold serve, open. rewrite Hf, Hgt. by apply (serve_rotate_result dir f _ _ fuel).
  - intros f Hf Hlt. unfold ServeData, open. rewrite Hf, Hgt.
    destruct (Z.gtb_spec pos (fileSize f)); [done|lia].
  - intros f Hf Hle. split.
    + unfold ServeData, open. rewrite Hf, Hgt.
      destruct (Z.gtb_spec pos (fileSize f)); [lia|done].
    + unfold serve, open, serve_fuel. rewrite Hf, Hgt. cbn [serve_rotate].
      destruct (Z.gtb_spec pos (fileSize f)); [lia|].
      do 2 f_equal. lia.
Qed.

Lemma serve_walks_ServeData_refuses_witness :
  serve twoLogs 1 150 = Some (Copying 2 50 23 (firstn 23 (binlog 200))) ∧
  ServeData twoLogs 1 150 = Returned [] ∧
  ServeData twoLogs 1 50 = inject (binlog 100) 1 50.
Proof.
  assert (H1 : twoLogs !! 1 = Some (binlog 100)) by (vm_compute; reflexivity).
  assert (H2 : twoLogs !! 2 = Some (binlog 200)) by (vm_compute; reflexivity).
  assert (Hl : lands twoLogs 1 150 2 50).
  { apply (lands_next twoLogs 1 150 2 50 (binlog 100) H1); [vm_compute; reflexivity|].
    apply (lands_here twoLogs 2 50 (binlog 200) H2). vm_compute. discriminate. }
  destruct (serve_walks_ServeData_refuses twoLogs 1 150 ltac:(lia))
    as (_ & Hw & _ & Hr & _).
  destruct (serve_walks_ServeData_refuses twoLogs 1 50 ltac:(lia))
    as (_ & _ & _ & _ & Hs).
  split; [|split].
  - destruct (Hw 2 50 Hl) as (f' & Hf' & _ & _ & Hcopy).
    rewrite H2 in Hf'. injection Hf' as <-.
    apply (Hcopy 19); vm_compute; (reflexivity || discriminate).
  - apply (Hr (binlog 100) H1). vm_compute. reflexivity.
  - apply (Hs (binlog 100) H1). vm_compute. discriminate.
Defined.

End BinlogReaderFacts.

(** ** The binlog server: transaction batches *)

Module BinlogServerFacts.
Import GoBytes Mysqlctl BinlogServer.

Lemma prefix_cons_inv (c : ascii) (p s : string) :
  String.prefix (String c p) s = true → ∃ s', s = String c s' ∧ String.prefix p s' = true.
Proof.
  destruct s as [|d s']; cbn; [discriminate|].
  destruct (ascii_dec c d) as [<-|]; [|discriminate]. eauto.
Qed.

Ltac prefix_clash :=
  cbv [HasPrefix BINLOG_BEGIN BINLOG_COMMIT BINLOG_ROLLBACK BINLOG_SET_TIMESTAMP] in *;
  repeat match goal with
         | H : String.prefix (String _ _) _ = true |- _ =>
             apply prefix_cons_inv in H as (? & -> & _)
         end;
  reflexivity.

Lemma BEGIN_not_TIMESTAMP s : HasPrefix s BINLOG_BEGIN = true → HasPrefix s BINLOG_SET_TIMESTAMP = false.
Proof. intros H. prefix_clash. Qed.
Lemma COMMIT_not_BEGIN s : HasPrefix s BINLOG_COMMIT = true → HasPrefix s BINLOG_BEGIN = false.
Proof. intros H. prefix_clash. Qed.

Section WithExternals.
Context `{Externals}.

Ltac inv_bind H :=
  cbv [mbind result_bind mret result_ret panic] in H;
  repeat match type of H with
    | match ?m with _ => _ end = _ => let E := fresh "E" in destruct m eqn:E; try discriminate
    | (let '(_, _) := ?m in _) = _ => let E := fresh "E" in destruct m eqn:E
    end.

Lemma withEncodedPosition_Ok pos pos' :
  withEncodedPosition pos = Ok pos' →
  coordinates pos' = coordinates pos ∧ Timestamp pos' = Timestamp pos ∧ Xid pos' = Xid pos.
Proof.
  unfold withEncodedPosition. destruct (EncodeCoordinatesToPosition _); [|discriminate].
  intros [= <-]. done.
Qed.

Lemma createBeginEvent_Ok ev r :
  createBeginEvent ev = Ok r → SqlType r = BEGIN ∧ stamped r ev.
Proof.
  unfold createBeginEvent. intros Hr. inv_bind Hr. injection Hr as <-.
  apply withEncodedPosition_Ok in E. done.
Qed.

Lemma createCommitEvent_Ok ev r :
  createCommitEvent ev = Ok r → SqlType r = COMMIT ∧ stamped r ev.
Proof.
  unfold createCommitEvent. intros Hr. inv_bind Hr. injection Hr as <-.
  apply withEncodedPosition_Ok in E. done.
Qed.

Lemma createDmlEvent_Ok ev k r :
  createDmlEvent ev k = Ok r →
  SqlType r = GetDmlType (firstKw ev) ∧ KeyspaceId r = k ∧ stamped r ev.
Proof.
  unfold createDmlEvent. intros Hr.
  cbv [mbind result_bind] in Hr.
  destruct (withEncodedPosition (evPosition ev)) as [pos|] eqn:E; [|discriminate].
  apply withEncodedPosition_Ok in E.
  cbn [SqlType set_KeyspaceId set_SqlType] in Hr.
  destruct (String.eqb (GetDmlType (firstKw ev)) "insert").
  - destruct (parseIndexSeq (LogLine ev)) as [[[[[? ?] ?] ?] ?]|]; [|discriminate].
    injection Hr as <-.
    repeat match goal with |- context [if ?b then _ else _] => destruct b end; done.
  - injection Hr as <-. done.
Qed.

Lemma isStatement_prefixes ev :
  isStatement ev = true →
  HasPrefix (LogLine ev) BINLOG_BEGIN = false ∧ HasPrefix (LogLine ev) BINLOG_COMMIT = false.
Proof.
  unfold isStatement, isBegin, isCommit. intros [H1 H2]%andb_true_iff.
  by apply negb_true_iff in H1, H2.
Qed.

(** One statement of the buffer, as the loop of [buildTxnResponse] treats it. *)
Lemma loop_statement (kr : Key.KeyRange) (ev : eventBuffer) (rest : list eventBuffer)
  (acc : list BinlogResponse) (n : Z) (buf : list string) (out : list BinlogResponse * Z) :
  isStatement ev = true →
  buildTxnResponse_loop kr (ev :: rest) acc n buf = Ok out →
  if inKeyRange kr ev
  then ∃ r, dmlEventOf r ev ∧
            buildTxnResponse_loop kr rest (acc ++ [r]) (n + 1) [] = Ok out
  else ∃ buf', buildTxnResponse_loop kr rest acc n buf' = Ok out.
Proof.
  intros [Hb Hc]%isStatement_prefixes. cbn [buildTxnResponse_loop].
  rewrite Hb, Hc. unfold inKeyRange, isDml.
  destruct (String.eqb (GetSqlType (firstKw ev)) DML); cbn [andb]; [|eauto].
  cbv [mbind result_bind].
  destruct (parseKeyspaceId _ _) as [[str id]|] eqn:Hk; [|discriminate].
  destruct (String.eqb str ""); cbn [negb andb]; [eauto|].
  destruct (KeyRange_Contains kr id); cbn [negb]; [|eauto].
  destruct (createDmlEvent ev str) as [r|] eqn:Hr; [|discriminate].
  intros Hout. exists (set_Sql (buf ++ [LogLine ev]) r). split; [|done].
  apply createDmlEvent_Ok in Hr as (Hty & Hks & Hst).
  split; [exact Hty|]. split; [exists id; cbn; congruence|].
  split; [by exists buf|exact Hst].
Qed.

Lemma loop_statements (kr : Key.KeyRange) (stmts : list eventBuffer) :
  ∀ (tail : list eventBuffer) (acc : list BinlogResponse) (n : Z) (buf : list string)
    (out : list BinlogResponse * Z),
    Forall (λ ev, isStatement ev = true) stmts →
    buildTxnResponse_loop kr (stmts ++ tail) acc n buf = Ok out →
    ∃ dmls buf',
      Forall2 dmlEventOf dmls (List.filter (inKeyRange kr) stmts) ∧
      buildTxnResponse_loop kr tail (acc ++ dmls) (n + Z.of_nat (length dmls)) buf' = Ok out.
Proof.
  induction stmts as [|ev stmts IH]; intros tail acc n buf out Hall Hout.
  - exists [], buf. rewrite app_nil_r, Z.add_0_r. by split; [constructor|].
  - apply Forall_cons in Hall as [Hev Hall].
    apply (loop_statement kr ev _ acc n buf out Hev) in Hout.
    cbn [List.filter]. destruct (inKeyRange kr ev).
    + destruct Hout as (r & Hr & Hout).
      destruct (IH _ _ _ _ _ Hall Hout) as (dmls & buf' & Hdmls & Hloop).
      exists (r :: dmls), buf'. split; [by constructor|].
      rewrite <- app_assoc in Hloop. cbn [app length] in *.
      replace (n + Z.of_nat (S (length dmls))) with (n + 1 + Z.of_nat (length dmls)) by lia.
      done.
    + destruct Hout as (buf1 & Hout).
      destruct (IH _ _ _ _ _ Hall Hout) as (dmls & buf' & Hdmls & Hloop).
      by exists dmls, buf'.
Qed.

(** The response built for a buffered transaction. *)
Lemma buildTxnResponse_shape (blp : Blp) (b c : eventBuffer) (stmts : list eventBuffer)
  (resp : list BinlogResponse) (dmlCount : Z) :
  txnLineBuffer blp = b :: stmts ++ [c] →
  isBegin b = true → Forall (λ ev, isStatement ev = true) stmts → isCommit c = true →
  buildTxnResponse blp = Ok (resp, dmlCount) →
  ∃ rb dmls rc,
    resp = rb :: dmls ++ [rc] ∧
    SqlType rb = BEGIN ∧ stamped rb b ∧
    Forall2 dmlEventOf dmls (List.filter (inKeyRange (keyspaceRange blp)) stmts) ∧
    SqlType rc = COMMIT ∧ stamped rc c ∧
    dmlCount = Z.of_nat (length dmls).
Proof.
  intros Hbuf Hb Hstmts Hc. unfold buildTxnResponse. rewrite Hbuf.
  cbn [buildTxnResponse_loop]. unfold isBegin in Hb. rewrite Hb.
  cbv [mbind result_bind].
  destruct (createBeginEvent b) as [rb|] eqn:Hrb; [|discriminate].
  intros Hout.
  apply loop_statements in Hout as (dmls & buf' & Hdmls & Hout); [|done].
  cbn [buildTxnResponse_loop] in Hout.
  rewrite (COMMIT_not_BEGIN _ Hc) in Hout. unfold isCommit in Hc. rewrite Hc in Hout.
  cbv [mbind result_bind] in Hout.
  destruct (createCommitEvent c) as [rc|] eqn:Hrc; [|discriminate].
  injection Hout as <- <-.
  apply createBeginEvent_Ok in Hrb as [? ?]. apply createCommitEvent_Ok in Hrc as [? ?].
  exists rb, dmls, rc. cbn [app]. split; [reflexivity|]. do 5 (split; [done|]). lia.
Qed.

Lemma loop_statements_total (kr : Key.KeyRange) (stmts : list eventBuffer) :
  ∀ (tail : list eventBuffer) (acc : list BinlogResponse) (n : Z) (buf : list string),
    Forall (λ ev, isStatement ev = true) stmts →
    Forall (wellFormed kr) stmts →
    ∃ dmls buf',
      buildTxnResponse_loop kr (stmts ++ tail) acc n buf =
      buildTxnResponse_loop kr tail (acc ++ dmls) (n + Z.of_nat (length dmls)) buf'.
Proof.
  induction stmts as [|ev stmts IH]; intros tail acc n buf Hall Hwf.
  - exists [], buf. by rewrite app_nil_r, Z.add_0_r.
  - apply Forall_cons in Hall as [Hev Hall]. apply Forall_cons in Hwf as [Hwf1 Hwf].
    apply isStatement_prefixes in Hev as [Hb Hc].
    cbn [app buildTxnResponse_loop]. rewrite Hb, Hc.
    unfold wellFormed, inKeyRange, isDml in Hwf1.
    destruct (String.eqb (GetSqlType (firstKw ev)) DML).
    + destruct (Hwf1 eq_refl) as (str & id & Hk & Hr). rewrite Hk in *.
      cbv [mbind result_bind]. cbn [andb] in Hr.
      destruct (String.eqb str ""); [by apply IH|].
      destruct (KeyRange_Contains kr id); cbn [negb andb] in *; [|by apply IH].
      destruct (Hr eq_refl) as [r ->].
      destruct (IH tail (acc ++ [set_Sql (buf ++ [LogLine ev]) r]) (n + 1) [] Hall Hwf)
        as (dmls & buf' & ->).
      exists (set_Sql (buf ++ [LogLine ev]) r :: dmls), buf'.
      rewrite <- app_assoc. cbn [app length].
      replace (n + Z.of_nat (S (length dmls))) with (n + 1 + Z.of_nat (length dmls)) by lia.
      reflexivity.
    + by apply IH.
Qed.

Lemma createBeginEvent_total ev : encodable ev → ∃ r, createBeginEvent ev = Ok r.
Proof.
  intros [p Hp]. unfold createBeginEvent, withEncodedPosition. rewrite Hp.
  cbv [mbind result_bind]. eauto.
Qed.

Lemma createCommitEvent_total ev : encodable ev → ∃ r, createCommitEvent ev = Ok r.
Proof.
  intros [p Hp]. unfold createCommitEvent, withEncodedPosition. rewrite Hp.
  cbv [mbind result_bind]. eauto.
Qed.

Lemma buildTxnResponse_total (blp : Blp) (b c : eventBuffer) (stmts : list eventBuffer) :
  txnLineBuffer blp = b :: stmts ++ [c] →
  isBegin b = true → Forall (λ ev, isStatement ev = true) stmts → isCommit c = true →
  encodable b → encodable c → Forall (wellFormed (keyspaceRange blp)) stmts →
  ∃ out, buildTxnResponse blp = Ok out.
Proof.
  intros Hbuf Hb Hstmts Hc Heb Hec Hwf. unfold buildTxnResponse. rewrite Hbuf.
  cbn [buildTxnResponse_loop]. unfold isBegin in Hb. rewrite Hb.
  destruct (createBeginEvent_total b Heb) as [rb ->]. cbv [mbind result_bind].
  destruct (loop_statements_total (keyspaceRange blp) stmts [c] ([] ++ [rb]) 0 [] Hstmts Hwf)
    as (dmls & buf' & ->).
  cbn [buildTxnResponse_loop].
  rewrite (COMMIT_not_BEGIN _ Hc). unfold isCommit in Hc. rewrite Hc.
  destruct (createCommitEvent_total c Hec) as [rc ->]. cbv [mbind result_bind]. eauto.
Qed.

(** A commit inside a transaction: the response that is built, and what is
    sent of it. *)
Lemma handleCommitEvent_inTxn (blp blp' : Blp) (commitEvent b : eventBuffer)
  (stmts : list eventBuffer) :
  dbmatch blp = true → txnLineBuffer blp = b :: stmts →
  isBegin b = true → Forall (λ ev, isStatement ev = true) stmts →
  isCommit commitEvent = true →
  handleCommitEvent blp commitEvent = Ok blp' →
  let wanted := List.filter (inKeyRange (keyspaceRange blp)) stmts in
  ∃ rb dmls rc,
    responseStream blp' = rb :: dmls ++ [rc] ∧
    SqlType rb = BEGIN ∧ stamped rb b ∧
    Forall2 dmlEventOf dmls wanted ∧
    SqlType rc = COMMIT ∧
    coordinates (respPosition rc) = coordinates (evPosition commitEvent) ∧
    Xid (respPosition rc) = Xid (currentPosition blp) ∧
    effects blp' = effects blp ++ commitEffects blp wanted (rb :: dmls ++ [rc]).
Proof.
  intros Hdb Hbuf Hb Hstmts Hc Hout wanted.
  set (c := set_evPosition (set_Xid (Xid (currentPosition blp)) (evPosition commitEvent))
              commitEvent).
  set (blp1 := set_txnLineBuffer (txnLineBuffer blp ++ [c]) blp).
  assert (Hbuf1 : txnLineBuffer blp1 = b :: stmts ++ [c]) by (cbn; by rewrite Hbuf).
  assert (Hc1 : isCommit c = true) by done.
  revert Hout. unfold handleCommitEvent. rewrite Hdb. cbn [negb].
  fold c. fold blp1. cbv [mbind result_bind].
  destruct (buildTxnResponse blp1) as [[resp n]|] eqn:Hresp; [|discriminate].
  destruct (buildTxnResponse_shape blp1 b c stmts resp n Hbuf1 Hb Hstmts Hc1 Hresp)
    as (rb & dmls & rc & -> & Hrb & Hsb & Hdmls & Hrc & (Hsc & _ & Hxc) & ->).
  change (keyspaceRange blp1) with (keyspaceRange blp) in Hdmls.
  fold wanted in Hdmls.
  intros Hout. exists rb, dmls, rc.
  assert (Hlen : length dmls = length wanted) by (by eapply Forall2_length).
  destruct wanted as [|w wanted'] eqn:Hw.
  - destruct dmls; [|discriminate]. cbn in Hout. injection Hout as <-.
    cbn. rewrite app_nil_r. repeat split; try done; apply Hsb.
  - destruct dmls as [|d dmls']; [discriminate|].
    destruct (Z.eqb_spec (Z.of_nat (length (d :: dmls'))) 0) as [Hz|_];
      [cbn in Hz; lia|].
    cbn [sendStream responseStream set_responseStream set_effects effects sleepToThrottle] in Hout.
    cbn [commitEffects].
    change (sleepToThrottle blp1) with (sleepToThrottle blp) in Hout.
    change (effects blp1) with (effects blp) in Hout.
    destruct (sleepToThrottle blp >? 0); injection Hout as <-; cbn;
      repeat split; try done; try apply Hsb.
    by rewrite <- app_assoc.
Qed.

(** A commit whose buffered statements are well formed does not panic. *)
Lemma handleCommitEvent_total (blp : Blp) (commitEvent b : eventBuffer)
  (stmts : list eventBuffer) :
  txnLineBuffer blp = b :: stmts →
  isBegin b = true → Forall (λ ev, isStatement ev = true) stmts →
  isCommit commitEvent = true →
  encodable b → encodable commitEvent →
  Forall (wellFormed (keyspaceRange blp)) stmts →
  ∃ blp', handleCommitEvent blp commitEvent = Ok blp'.
Proof.
  intros Hbuf Hb Hstmts Hc Heb Hec Hwf.
  unfold handleCommitEvent. destruct (dbmatch blp); cbn [negb]; [|eauto].
  set (c := set_evPosition (set_Xid (Xid (currentPosition blp)) (evPosition commitEvent))
              commitEvent).
  set (blp1 := set_txnLineBuffer (txnLineBuffer blp ++ [c]) blp).
  assert (∃ out, buildTxnResponse blp1 = Ok out) as [[resp n] Hresp].
  { apply (buildTxnResponse_total blp1 b c stmts); try done. cbn. by rewrite Hbuf. }
  rewrite Hresp. cbv [mbind result_bind].
  repeat match goal with |- context [if ?x then _ else _] => destruct x end; eauto.
Qed.

Lemma sentBatches_app l1 l2 : sentBatches (l1 ++ l2) = sentBatches l1 ++ sentBatches l2.
Proof.
  induction l1 as [|[b|d] l1 IH]; cbn; [done| |done]. by rewrite IH.
Qed.

Lemma GetDmlType_dml (kw : string) :
  String.eqb (GetSqlType kw) DML = true → GetDmlType kw ∈ dmlTypes.
Proof.
  unfold GetSqlType, GetDmlType, sqlKwMap, lookupKw, dmlTypes.
  repeat match goal with
    | |- context [String.eqb ?k kw] =>
        destruct (String.eqb_spec k kw) as [<-|_];
          [first [discriminate | intros _; cbn; set_solver]|]
    end.
  discriminate.
Qed.

Ltac break_match_hyp H :=
  repeat match type of H with
    | context [match ?x with _ => _ end] =>
        lazymatch x with
        | context [match _ with _ => _ end] => fail
        | _ => destruct x eqn:?; try discriminate H
        end
    end.

(** Position lines touch neither the transaction buffer nor what was sent. *)
Lemma parsePositionData_frame (blp blp' : Blp) (line : string) :
  parsePositionData blp line = Ok blp' →
  inTxn blp' = inTxn blp ∧ txnLineBuffer blp' = txnLineBuffer blp ∧
  effects blp' = effects blp.
Proof.
  unfold parsePositionData, parseRotateEvent, parseMasterPosition, parseXid, at_.
  cbv [mbind result_bind panic]. intros Hp.
  break_match_hyp Hp; injection Hp as <-; done.
Qed.

Lemma parseDbChange_frame (blp blp' : Blp) (ev : eventBuffer) :
  parseDbChange blp ev = Ok blp' →
  inTxn blp' = inTxn blp ∧ txnLineBuffer blp' = txnLineBuffer blp ∧
  effects blp' = effects blp.
Proof.
  unfold parseDbChange. intros Hp.
  break_match_hyp Hp; injection Hp as <-; done.
Qed.

Lemma handleCommitEvent_noTxn (blp blp' : Blp) (commitEvent : eventBuffer) :
  txnLineBuffer blp = [] → isCommit commitEvent = true →
  handleCommitEvent blp commitEvent = Ok blp' →
  effects blp' = effects blp.
Proof.
  intros Hbuf Hc. unfold handleCommitEvent, buildTxnResponse.
  destruct (dbmatch blp); cbn [negb]; [|by intros [= <-]].
  cbn [txnLineBuffer set_txnLineBuffer keyspaceRange]. rewrite Hbuf.
  cbn [app buildTxnResponse_loop LogLine set_evPosition].
  rewrite (COMMIT_not_BEGIN _ Hc). unfold isCommit in Hc. rewrite Hc.
  cbv [mbind result_bind].
  destruct (createCommitEvent _); [|discriminate].
  cbn. by intros [= <-].
Qed.

Lemma inKeyRange_isDml kr ev : inKeyRange kr ev = true → isDml ev = true.
Proof. unfold inKeyRange. by intros [? _]%andb_true_iff. Qed.

Lemma dmlEvents_types (kr : Key.KeyRange) (dmls : list BinlogResponse)
  (stmts : list eventBuffer) :
  Forall2 dmlEventOf dmls (List.filter (inKeyRange kr) stmts) →
  Forall (λ r, SqlType r ∈ dmlTypes) dmls.
Proof.
  intros HF. assert (Hin : Forall (λ ev, inKeyRange kr ev = true)
                             (List.filter (inKeyRange kr) stmts)).
  { apply List.Forall_forall. intros ev Hev. by apply List.filter_In in Hev as [_ ?]. }
  induction HF as [|r ev dmls evs Hr _ IH]; [constructor|].
  apply Forall_cons in Hin as [Hev Hin]. constructor; [|by apply IH].
  destruct Hr as (-> & _). apply GetDmlType_dml. by apply inKeyRange_isDml in Hev.
Qed.

Lemma handleCommitEvent_invariant (blp blp' : Blp) (commitEvent : eventBuffer) :
  streamInvariant blp → isCommit commitEvent = true →
  handleCommitEvent blp commitEvent = Ok blp' →
  Forall (λ b, wholeTxn b ∨ ddlBatch b) (sentBatches (effects blp')).
Proof.
  intros [Hinv Hsent] Hc Hout.
  destruct (dbmatch blp) eqn:Hdb.
  2:{ unfold handleCommitEvent in Hout. rewrite Hdb in Hout. by injection Hout as <-. }
  destruct (inTxn blp) eqn:Htxn.
  - unfold txnInvariant in Hinv. rewrite Htxn in Hinv.
    destruct Hinv as (b & stmts & Hbuf & Hb & Hstmts).
    destruct (handleCommitEvent_inTxn blp blp' commitEvent b stmts Hdb Hbuf Hb Hstmts Hc Hout)
      as (rb & dmls & rc & _ & Hrb & _ & Hdmls & Hrc & _ & _ & ->).
    rewrite sentBatches_app. apply Forall_app. split; [done|].
    unfold commitEffects.
    destruct (List.filter _ _) as [|w ws] eqn:Hw; [constructor|].
    assert (Forall (λ b, wholeTxn b ∨ ddlBatch b) [rb :: dmls ++ [rc]]).
    { constructor; [|constructor]. left. exists rb, dmls, rc.
      repeat split; try done.
      - intros ->. inversion Hdmls.
      - rewrite <- Hw in Hdmls. by eapply dmlEvents_types. }
    by destruct (sleepToThrottle blp >? 0).
  - unfold txnInvariant in Hinv. rewrite Htxn in Hinv.
    by rewrite (handleCommitEvent_noTxn blp blp' commitEvent Hinv Hc Hout).
Qed.

Lemma handleCommitEvent_frame (blp blp' : Blp) (commitEvent : eventBuffer) :
  handleCommitEvent blp commitEvent = Ok blp' →
  keyspaceRange blp' = keyspaceRange blp ∧ sleepToThrottle blp' = sleepToThrottle blp.
Proof.
  unfold handleCommitEvent. cbv [mbind result_bind]. intros Hp.
  break_match_hyp Hp; injection Hp as <-; done.
Qed.

Lemma extractEventTimestamp_Ok (blp blp' : Blp) (ev ev' : eventBuffer) :
  extractEventTimestamp blp ev = Ok (blp', ev') →
  inTxn blp' = inTxn blp ∧ txnLineBuffer blp' = txnLineBuffer blp ∧
  effects blp' = effects blp ∧ LogLine ev' = LogLine ev.
Proof.
  unfold extractEventTimestamp. intros Hp.
  break_match_hyp Hp; injection Hp as <- <-; done.
Qed.

Lemma txnInvariant_append (blp blp' : Blp) (ev : eventBuffer) :
  txnInvariant blp → inTxn blp = true → isStatement ev = true →
  inTxn blp' = true → txnLineBuffer blp' = txnLineBuffer blp ++ [ev] →
  txnInvariant blp'.
Proof.
  unfold txnInvariant. intros Hinv Htxn Hev -> ->. rewrite Htxn in Hinv.
  destruct Hinv as (b & stmts & -> & Hb & Hstmts).
  exists b, (stmts ++ [ev]). repeat split; try done.
  apply Forall_app. split; [done|]. by constructor.
Qed.

Lemma SET_TIMESTAMP_statement ev :
  HasPrefix (LogLine ev) BINLOG_SET_TIMESTAMP = true → isStatement ev = true.
Proof.
  intros Hp. unfold isStatement, isBegin, isCommit.
  assert (HasPrefix (LogLine ev) BINLOG_BEGIN = false) as -> by prefix_clash.
  assert (HasPrefix (LogLine ev) BINLOG_COMMIT = false) as -> by prefix_clash.
  done.
Qed.

(** Every statement handled by [parseEventData] keeps the invariant. *)
Lemma parseEventData_invariant (blp blp' : Blp) (ev : eventBuffer) :
  streamInvariant blp → parseEventData blp ev = Ok blp' → streamInvariant blp'.
Proof.
  intros Hinv. pose proof Hinv as [Htxn Hsent]. unfold parseEventData.
  destruct (HasPrefix (LogLine ev) BINLOG_SET_TIMESTAMP) eqn:Hts.
  { cbv [mbind result_bind].
    destruct (extractEventTimestamp blp ev) as [[blp1 ev1]|] eqn:Hx; [|discriminate].
    apply extractEventTimestamp_Ok in Hx as (Hi & Hb & He & Hl).
    cbn [inTxn set_initialSeek]. rewrite Hi.
    destruct (inTxn blp) eqn:Hin; intros [= <-]; split; cbn; rewrite ?He; try done.
    - apply (txnInvariant_append blp _ ev1 Htxn Hin); [|done|by cbn; rewrite Hb].
      apply SET_TIMESTAMP_statement. by rewrite Hl.
    - unfold txnInvariant in *. cbn. rewrite Hi, Hb. by rewrite Hin in *. }
  destruct (HasPrefix (LogLine ev) BINLOG_BEGIN) eqn:Hbg.
  { unfold handleBeginEvent.
    destruct ((0 <? length (txnLineBuffer blp))%nat && inTxn blp); [discriminate|].
    intros [= <-]. split; [|done]. unfold txnInvariant. cbn.
    exists ev, []. by repeat split. }
  destruct (HasPrefix (LogLine ev) BINLOG_ROLLBACK) eqn:Hrb.
  { intros [= <-]. by split. }
  destruct (HasPrefix (LogLine ev) BINLOG_COMMIT) eqn:Hcm.
  { cbv [mbind result_bind].
    destruct (handleCommitEvent blp ev) as [blp1|] eqn:Hc; [|discriminate].
    intros [= <-]. split; [done|]. cbn.
    by apply (handleCommitEvent_invariant blp blp1 ev). }
  destruct (0 <? String.length (LogLine ev))%nat; [|by intros [= <-]].
  destruct (inTxn blp && IsTxnStatement (LogLine ev) (firstKw ev)) eqn:Hin.
  { apply andb_true_iff in Hin as [Hin _]. intros [= <-]. split; [|done].
    apply (txnInvariant_append blp _ ev Htxn Hin); [|done|done].
    unfold isStatement, isBegin, isCommit. by rewrite Hbg, Hcm. }
  destruct (String.eqb (GetSqlType (firstKw ev)) DDL).
  { unfold handleDdlEvent, createDdlStream. cbv [mbind result_bind].
    destruct (withEncodedPosition _); [|discriminate]. intros [= <-]. split; [done|].
    cbn. rewrite sentBatches_app. apply Forall_app. split; [done|].
    constructor; [|constructor]. right. eexists. by split. }
  destruct (String.eqb (GetSqlType (firstKw ev)) DML); [discriminate|].
  by intros [= <-].
Qed.

Lemma streamInvariant_frame (blp blp' : Blp) :
  inTxn blp' = inTxn blp → txnLineBuffer blp' = txnLineBuffer blp →
  effects blp' = effects blp → streamInvariant blp → streamInvariant blp'.
Proof. unfold streamInvariant, txnInvariant. by intros -> -> ->. Qed.

Lemma parseLine_invariant (st st' : loopState) (line : string) :
  streamInvariant (blpOf st) → parseLine st line = Ok st' → streamInvariant (blpOf st').
Proof.
  intros Hinv. unfold parseLine.
  destruct line as [|c line]; [by intros [= <-]|].
  set (body := if initialSeek (blpOf st) && _ && _ then _ else _).
  assert (Hbody : body = Ok st' → streamInvariant (blpOf st')).
  { subst body. destruct (_ && _ && _); [by intros [= <-]|].
    destruct (findLast _ _); [|by intros [= <-]].
    cbv [mbind result_bind].
    destruct (parseDbChange _ _) as [blp1|] eqn:Hdb; [|discriminate].
    destruct (parseEventData _ _) as [blp2|] eqn:Hev; [|discriminate].
    intros [= <-]. cbn [blpOf].
    apply parseDbChange_frame in Hdb as (? & ? & ?).
    eapply parseEventData_invariant; [|exact Hev].
    by apply (streamInvariant_frame (blpOf st)). }
  destruct (Ascii.eqb_spec c "#"%char) as [->|Hc].
  - cbv [mbind result_bind].
    destruct (parsePositionData _ _) as [blp1|] eqn:Hp; [|discriminate].
    intros [= <-]. cbn [blpOf].
    apply parsePositionData_frame in Hp as (? & ? & ?).
    by apply (streamInvariant_frame (blpOf st)).
  - intros Hout. apply Hbody. rewrite <- Hout. subst body.
    destruct c as [[] [] [] [] [] [] [] []]; try reflexivity. by destruct Hc.
Qed.

Lemma parseBinlogEvents_invariant (lines : list string) :
  ∀ st st', streamInvariant (blpOf st) → parseBinlogEvents st lines = Ok st' →
            streamInvariant (blpOf st').
Proof.
  induction lines as [|line lines IH]; intros st st' Hinv; cbn [parseBinlogEvents].
  - by intros [= <-].
  - cbv [mbind result_bind].
    destruct (parseLine st line) as [st1|] eqn:Hl; [|discriminate].
    apply IH. by apply (parseLine_invariant st st1 line).
Qed.

Lemma NewBlp_invariant (start : ReplicationCoordinates) (db : string) (kr : Key.KeyRange) :
  streamInvariant (NewBlp start db kr).
Proof. split; [done|constructor]. Qed.

(** C3. When a COMMIT is handled inside a transaction ([blp] holds the BEGIN
    event and the statements buffered since), the response that is built is
    the begin event, then the DML events of exactly those buffered DML
    statements whose extracted keyspace id lies in the subscriber's key
    range, in their order, then the commit event; it is sent as one batch
    when at least one DML is in range and not sent at all when none is.  A
    buffer of well-formed statements always yields this response. *)
Theorem commit_filters_by_key_range (blp : Blp) (commitEvent : eventBuffer) :
  txnInvariant blp → inTxn blp = true → dbmatch blp = true →
  isCommit commitEvent = true →
  let stmts := tail (txnLineBuffer blp) in
  let wanted := List.filter (inKeyRange (keyspaceRange blp)) stmts in
  (∀ blp', handleCommitEvent blp commitEvent = Ok blp' →
     ∃ rb dmls rc,
       responseStream blp' = rb :: dmls ++ [rc] ∧
       SqlType rb = BEGIN ∧
       Forall2 dmlEventOf dmls wanted ∧
       SqlType rc = COMMIT ∧
       (wanted = [] → effects blp' = effects blp) ∧
       (wanted ≠ [] →
        effects blp' =
        effects blp ++ Sent (rb :: dmls ++ [rc]) ::
          (if sleepToThrottle blp >? 0 then [Slept (sleepToThrottle blp)] else [])))
  ∧
  (Forall encodable (txnLineBuffer blp) → encodable commitEvent →
   Forall (wellFormed (keyspaceRange blp)) stmts →
   ∃ blp', handleCommitEvent blp commitEvent = Ok blp').
Proof.
  intros Hinv Htxn Hdb Hc stmts wanted. unfold txnInvariant in Hinv. rewrite Htxn in Hinv.
  destruct Hinv as (b & stmts' & Hbuf & Hb & Hstmts).
  assert (stmts = stmts') as -> by (subst stmts; by rewrite Hbuf).
  split.
  - intros blp' Hout.
    destruct (handleCommitEvent_inTxn blp blp' commitEvent b stmts' Hdb Hbuf Hb Hstmts Hc Hout)
      as (rb & dmls & rc & Hresp & Hrb & _ & Hdmls & Hrc & _ & _ & Heff).
    exists rb, dmls, rc. fold wanted in Hdmls, Heff.
    repeat split; try done.
    + intros Hw. rewrite Heff, Hw. cbn. by rewrite app_nil_r.
    + intros Hw. rewrite Heff. by destruct wanted.
  - intros Henc Hencc Hwf. rewrite Hbuf in Henc. apply Forall_cons in Henc as [Heb _].
    by apply (handleCommitEvent_total blp commitEvent b stmts').
Qed.

Lemma wholeTxn_one_begin (batch : list BinlogResponse) :
  wholeTxn batch →
  length (List.filter (λ r, String.eqb (SqlType r) BEGIN) batch) = 1%nat.
Proof.
  intros (rb & mid & rc & -> & Hrb & Hrc & _ & Hmid).
  cbn [List.filter]. rewrite Hrb. cbn [String.eqb length]. f_equal.
  rewrite List.filter_app. cbn [List.filter]. rewrite Hrc.
  replace (String.eqb COMMIT BEGIN) with false by reflexivity.
  rewrite app_nil_r.
  induction Hmid as [|r mid Hr _ IH]; [reflexivity|].
  cbn [List.filter]. unfold dmlTypes in Hr.
  repeat (apply elem_of_cons in Hr as [->|Hr]; [exact IH|]).
  by apply elem_of_nil in Hr.
Qed.

Lemma parseEventData_sends (blp blp' : Blp) (ev : eventBuffer) :
  parseEventData blp ev = Ok blp' →
  effects blp' = effects blp ∨ isCommit ev = true ∨ GetSqlType (firstKw ev) = DDL.
Proof.
  unfold parseEventData. cbv [mbind result_bind]. intros Hp.
  destruct (HasPrefix (LogLine ev) BINLOG_SET_TIMESTAMP).
  { destruct (extractEventTimestamp blp ev) as [[blp1 ev1]|] eqn:Hx; [|discriminate].
    apply extractEventTimestamp_Ok in Hx as (_ & _ & He & _). left.
    cbn [inTxn set_initialSeek] in Hp.
    by destruct (inTxn blp1); injection Hp as <-. }
  destruct (HasPrefix (LogLine ev) BINLOG_BEGIN).
  { unfold handleBeginEvent in Hp. left.
    by destruct (_ && _); [discriminate|injection Hp as <-]. }
  destruct (HasPrefix (LogLine ev) BINLOG_ROLLBACK); [left; by injection Hp as <-|].
  destruct (HasPrefix (LogLine ev) BINLOG_COMMIT) eqn:Hc; [by right; left|].
  destruct (0 <? String.length (LogLine ev))%nat; [|left; by injection Hp as <-].
  destruct (inTxn blp && _); [left; by injection Hp as <-|].
  destruct (String.eqb_spec (GetSqlType (firstKw ev)) DDL); [by right; right|].
  destruct (String.eqb (GetSqlType (firstKw ev)) DML); [discriminate|].
  left. by injection Hp as <-.
Qed.

(** C4. Whatever lines the parser of a subscriber has read, every batch it
    has sent is the single event of a DDL statement or a whole transaction:
    a begin event first, DML events, a commit event last, and no other begin.
    A ROLLBACK sends nothing, discards the buffered events and clears
    [inTxn]; only COMMIT and DDL statements send anything, so the events
    buffered since BEGIN never reach the subscriber of a rolled-back
    transaction.  A BEGIN inside a transaction is a parse error, in the
    server's parser and in the parser of binlog_parser.go. *)
Theorem delivered_batches_are_whole :
  (∀ (start : ReplicationCoordinates) (db : string) (kr : Key.KeyRange) (relay : bool)
     (lines : list string) (st : loopState),
     parseBinlogEvents (startLoop (set_usingRelayLogs relay (NewBlp start db kr))) lines
       = Ok st →
     Forall (λ batch,
               ddlBatch batch ∨
               (wholeTxn batch ∧
                length (List.filter (λ r, String.eqb (SqlType r) BEGIN) batch) = 1%nat))
            (sentBatches (effects (blpOf st))))
  ∧
  (∀ (blp : Blp) (ev : eventBuffer),
     HasPrefix (LogLine ev) BINLOG_ROLLBACK = true →
     parseEventData blp ev = Ok (set_txnLineBuffer [] (set_inTxn false blp)))
  ∧
  (∀ (blp blp' : Blp) (ev : eventBuffer),
     parseEventData blp ev = Ok blp' →
     effects blp' = effects blp ∨ isCommit ev = true ∨ GetSqlType (firstKw ev) = DDL)
  ∧
  (∀ (blp : Blp) (ev : eventBuffer),
     txnInvariant blp → inTxn blp = true → isBegin ev = true →
     parseEventData blp ev =
     Panic (PanicParse (ErrBeginInTxn (length (txnLineBuffer blp))
                          (map LogLine (txnLineBuffer blp)))))
  ∧
  (∀ (blp : UpdateStream.Blp) (line : string),
     UpdateStream.inTxn blp = true ∨ UpdateStream.txnLineBuffer blp ≠ [] →
     UpdateStream.handleBeginEvent blp line =
     inl (length (UpdateStream.txnLineBuffer blp))).
Proof.
  split; [|split; [|split; [|split]]].
  - intros start db kr relay lines st Hrun.
    assert (Hinv : streamInvariant (blpOf st)).
    { eapply parseBinlogEvents_invariant; [|exact Hrun].
      split; [done|constructor]. }
    destruct Hinv as [_ Hsent]. eapply Forall_impl; [exact Hsent|].
    intros batch [Hw|Hd]; [right|by left]. split; [done|by apply wholeTxn_one_begin].
  - intros blp ev Hr. unfold parseEventData.
    assert (HasPrefix (LogLine ev) BINLOG_SET_TIMESTAMP = false) as -> by prefix_clash.
    assert (HasPrefix (LogLine ev) BINLOG_BEGIN = false) as -> by prefix_clash.
    by rewrite Hr.
  - intros blp blp' ev. apply parseEventData_sends.
  - intros blp ev Hinv Htxn Hb. unfold parseEventData.
    unfold isBegin in Hb. rewrite (BEGIN_not_TIMESTAMP _ Hb), Hb.
    unfold handleBeginEvent, txnInvariant in *. rewrite Htxn in *.
    destruct Hinv as (b & stmts & -> & _). reflexivity.
  - intros blp line Hin. unfold UpdateStream.handleBeginEvent.
    destruct Hin as [->|Hne]; [by rewrite orb_true_r|].
    by destruct (UpdateStream.txnLineBuffer blp).
Qed.

Lemma posLe_refl p : posLe p p.
Proof. right. split; [done|lia]. Qed.

Lemma posLe_trans p q r : posLe p q → posLe q r → posLe p r.
Proof. unfold posLe. lia. Qed.

Lemma posLeb_spec p q : posLeb p q = true ↔ posLe p q.
Proof. unfold posLeb, posLe. rewrite orb_true_iff, andb_true_iff. lia. Qed.

Lemma sublist_StronglySorted {A} (R : A → A → Prop) (l1 l2 : list A) :
  l1 `sublist_of` l2 → StronglySorted R l2 → StronglySorted R l1.
Proof.
  induction 1 as [|x l1 l2 Hs IH|x l1 l2 Hs IH]; intros Hl2; [done| |].
  - apply StronglySorted_cons in Hl2 as [Hx Hl2]. apply StronglySorted_cons.
    split; [|by apply IH]. apply Forall_forall. intros y Hy.
    by eapply Forall_forall; [exact Hx|eapply elem_of_sublist].
  - apply StronglySorted_cons in Hl2 as [_ Hl2]. by apply IH.
Qed.

Lemma sublist_Forall' {A} (P : A → Prop) (l1 l2 : list A) :
  l1 `sublist_of` l2 → Forall P l2 → Forall P l1.
Proof.
  intros Hs Hl2. apply Forall_forall. intros y Hy.
  by eapply Forall_forall; [exact Hl2|eapply elem_of_sublist].
Qed.

Lemma sublist_List_filter {A} (p : A → bool) (l : list A) : List.filter p l `sublist_of` l.
Proof.
  induction l as [|x l IH]; [constructor|]. cbn. destruct (p x); by constructor.
Qed.

Lemma sublist_map {A B} (f : A → B) (l1 l2 : list A) :
  l1 `sublist_of` l2 → map f l1 `sublist_of` map f l2.
Proof. induction 1; cbn; by constructor. Qed.

Lemma reported_app (blp blp' : Blp) (l : list effect) :
  effects blp' = effects blp ++ l →
  reported blp' =
  reported blp ++ map (λ r, master (coordinates (respPosition r))) (concat (sentBatches l)).
Proof.
  intros He. unfold reported. by rewrite He, sentBatches_app, concat_app, map_app.
Qed.

Lemma reported_same (blp blp' : Blp) :
  effects blp' = effects blp → reported blp' = reported blp.
Proof. unfold reported. by intros ->. Qed.

Lemma buffered_same (blp blp' : Blp) :
  txnLineBuffer blp' = txnLineBuffer blp → buffered blp' = buffered blp.
Proof. unfold buffered. by intros ->. Qed.

Lemma dmlEvents_coords (dmls : list BinlogResponse) (evs : list eventBuffer) :
  Forall2 dmlEventOf dmls evs →
  map (λ r, master (coordinates (respPosition r))) dmls =
  map (λ ev, master (coordinates (evPosition ev))) evs.
Proof.
  induction 1 as [|r ev dmls evs (_ & _ & _ & Hc & _) _ IH]; [done|].
  cbn. by rewrite Hc, IH.
Qed.

(** Position lines leave the reported and the buffered coordinates alone. *)
Lemma parseDbChange_current (blp blp' : Blp) (ev : eventBuffer) :
  parseDbChange blp ev = Ok blp' → currentPosition blp' = currentPosition blp.
Proof.
  unfold parseDbChange. intros Hp.
  break_match_hyp Hp; injection Hp as <-; done.
Qed.

Lemma extractEventTimestamp_coords (blp blp' : Blp) (ev ev' : eventBuffer) :
  extractEventTimestamp blp ev = Ok (blp', ev') →
  current blp' = current blp ∧
  coordinates (evPosition ev') = coordinates (evPosition ev).
Proof.
  unfold extractEventTimestamp. intros Hp.
  break_match_hyp Hp; injection Hp as <- <-; done.
Qed.

Lemma handleCommitEvent_current (blp blp' : Blp) (commitEvent : eventBuffer) :
  handleCommitEvent blp commitEvent = Ok blp' → current blp' = current blp.
Proof.
  unfold handleCommitEvent. cbv [mbind result_bind]. intros Hp.
  break_match_hyp Hp; injection Hp as <-; done.
Qed.

(** What a commit reports: nothing, or the coordinates of the BEGIN event,
    of some of the buffered statements in their order, and of the COMMIT. *)
Lemma handleCommitEvent_reported (blp blp' : Blp) (commitEvent : eventBuffer) :
  txnInvariant blp → isCommit commitEvent = true →
  handleCommitEvent blp commitEvent = Ok blp' →
  reported blp' `sublist_of`
  reported blp ++ buffered blp ++ [master (coordinates (evPosition commitEvent))].
Proof.
  intros Hinv Hc Hout.
  assert (Hsame : effects blp' = effects blp →
            reported blp' `sublist_of`
            reported blp ++ buffered blp ++ [master (coordinates (evPosition commitEvent))]).
  { intros He. rewrite (reported_same _ _ He). by apply sublist_inserts_r. }
  destruct (dbmatch blp) eqn:Hdb.
  2:{ apply Hsame. unfold handleCommitEvent in Hout. rewrite Hdb in Hout.
      by injection Hout as <-. }
  unfold txnInvariant in Hinv. destruct (inTxn blp) eqn:Htxn.
  2:{ apply Hsame. by apply (handleCommitEvent_noTxn blp blp' commitEvent). }
  destruct Hinv as (b & stmts & Hbuf & Hb & Hstmts).
  destruct (handleCommitEvent_inTxn blp blp' commitEvent b stmts Hdb Hbuf Hb Hstmts Hc Hout)
    as (rb & dmls & rc & _ & _ & (Hcb & _) & Hdmls & _ & Hcc & _ & Heff).
  destruct (List.filter (inKeyRange (keyspaceRange blp)) stmts) as [|w ws] eqn:Hw.
  { apply Hsame. rewrite Heff. cbn. by rewrite app_nil_r. }
  rewrite (reported_app _ _ _ Heff). apply sublist_app; [done|].
  rewrite <- Hw in Hdmls. apply dmlEvents_coords in Hdmls.
  unfold buffered. rewrite Hbuf.
  assert (Hb' : concat (sentBatches (commitEffects blp (w :: ws) (rb :: dmls ++ [rc])))
               = rb :: dmls ++ [rc]).
  { cbn. destruct (sleepToThrottle blp >? 0); cbn; by rewrite app_nil_r. }
  rewrite Hb'. cbn [map]. rewrite map_app, Hdmls, Hcb. cbn [map]. rewrite Hcc.
  constructor. apply sublist_app; [|done].
  apply sublist_map, sublist_List_filter.
Qed.

(** One statement: what is reported and buffered afterwards was reported,
    buffered or is the statement's own coordinate, in that order. *)
Lemma parseEventData_chain (blp blp' : Blp) (ev : eventBuffer) :
  txnInvariant blp → parseEventData blp ev = Ok blp' →
  (effects blp' = effects blp ∨ txnLineBuffer blp = [] ∨ inTxn blp' = false) →
  (reported blp' ++ buffered blp' `sublist_of`
   reported blp ++ buffered blp ++ [master (coordinates (evPosition ev))])
  ∧ current blp' = current blp.
Proof.
  intros Htxn. unfold parseEventData.
  set (ce := master (coordinates (evPosition ev))).
  assert (Hdrop : reported blp ++ buffered blp `sublist_of`
                  reported blp ++ buffered blp ++ [ce]).
  { rewrite app_assoc. by apply sublist_inserts_r. }
  destruct (HasPrefix (LogLine ev) BINLOG_SET_TIMESTAMP) eqn:Hts.
  { cbv [mbind result_bind].
    destruct (extractEventTimestamp blp ev) as [[blp1 ev1]|] eqn:Hx; [|discriminate].
    pose proof (extractEventTimestamp_coords _ _ _ _ Hx) as [Hcur Hco].
    apply extractEventTimestamp_Ok in Hx as (Hi & Hb & He & Hl).
    cbn [inTxn set_initialSeek].
    destruct (inTxn blp1); intros [= <-] _; (split; [|exact Hcur]).
    - unfold reported, buffered. cbn. rewrite He, Hb, map_app. cbn.
      subst ce. by rewrite Hco.
    - unfold reported, buffered. cbn. rewrite He, Hb. exact Hdrop. }
  destruct (HasPrefix (LogLine ev) BINLOG_BEGIN) eqn:Hbg.
  { unfold handleBeginEvent.
    destruct ((0 <? length (txnLineBuffer blp))%nat && inTxn blp); [discriminate|].
    intros [= <-] _. split; [|done]. unfold reported, buffered. cbn.
    apply sublist_app; [done|]. by apply sublist_inserts_l. }
  destruct (HasPrefix (LogLine ev) BINLOG_ROLLBACK) eqn:Hrb.
  { intros [= <-] _. split; [|done]. unfold reported, buffered at 1. cbn.
    rewrite app_nil_r. by apply sublist_inserts_r. }
  destruct (HasPrefix (LogLine ev) BINLOG_COMMIT) eqn:Hcm.
  { cbv [mbind result_bind].
    destruct (handleCommitEvent blp ev) as [blp1|] eqn:Hc; [|discriminate].
    intros [= <-] _. split; [|by apply (handleCommitEvent_current blp blp1 ev)].
    unfold buffered at 1. cbn [txnLineBuffer set_txnLineBuffer map]. rewrite app_nil_r.
    change (reported (set_txnLineBuffer [] (set_inTxn false blp1))) with (reported blp1).
    by apply handleCommitEvent_reported. }
  destruct (0 <? String.length (LogLine ev))%nat; [|by intros [= <-] _].
  destruct (inTxn blp && IsTxnStatement (LogLine ev) (firstKw ev)) eqn:Hin.
  { intros [= <-] _. split; [|done]. unfold reported, buffered. cbn.
    by rewrite map_app. }
  destruct (String.eqb (GetSqlType (firstKw ev)) DDL).
  { unfold handleDdlEvent, createDdlStream. cbv [mbind result_bind].
    destruct (withEncodedPosition _) as [pos|] eqn:Hpos; [|discriminate].
    apply withEncodedPosition_Ok in Hpos as (Hco & _).
    intros [= <-] Hcond. split; [|done].
    assert (Hbuf : txnLineBuffer blp = []).
    { destruct Hcond as [He|[Hb|Hi]]; [|done|].
      - cbn in He. apply (f_equal length) in He. rewrite length_app in He.
        cbn in He. lia.
      - cbn in Hi. unfold txnInvariant in Htxn. by rewrite Hi in Htxn. }
    unfold reported, buffered. cbn. rewrite Hbuf, sentBatches_app, concat_app, map_app.
    cbn. rewrite app_nil_r. subst ce. by rewrite Hco. }
  destruct (String.eqb (GetSqlType (firstKw ev)) DML); [discriminate|].
  by intros [= <-] _.
Qed.

(** The ways a line can take through [parseLine]. *)
Lemma parseLine_cases (st st' : loopState) (line : string) :
  parseLine st line = Ok st' →
  st' = st
  ∨ (∃ blp', parsePositionData (blpOf st) (TrimSpace line) = Ok blp'
             ∧ st' = mkLoop blp' (readAhead st) (event st))
  ∨ (∃ e, evPosition e =
          evPosition (if readAhead st then event st
                      else NewEventBuffer (currentPosition (blpOf st)) line)
          ∧ (st' = mkLoop (blpOf st) true e
             ∨ ∃ blp1 blp2, parseDbChange (blpOf st) e = Ok blp1
                            ∧ parseEventData blp1 e = Ok blp2
                            ∧ st' = mkLoop blp2 false e)).
Proof.
  unfold parseLine. destruct line as [|c line]; [intros [= <-]; by left|].
  set (body := if initialSeek (blpOf st) && _ && _ then _ else _).
  assert (Hbody : body = Ok st' →
            st' = st
            ∨ (∃ e, evPosition e =
                    evPosition (if readAhead st then event st
                                else NewEventBuffer (currentPosition (blpOf st))
                                       (String c line))
                    ∧ (st' = mkLoop (blpOf st) true e
                       ∨ ∃ blp1 blp2, parseDbChange (blpOf st) e = Ok blp1
                                      ∧ parseEventData blp1 e = Ok blp2
                                      ∧ st' = mkLoop blp2 false e))).
  { subst body. destruct (_ && _ && _); [intros [= <-]; by left|].
    intros Hout. right.
    destruct (findLast _ _).
    - cbv [mbind result_bind] in Hout.
      match type of Hout with
      | context [match ?x with _ => _ end] => destruct x as [blp1|] eqn:Hdb
      end; [|discriminate].
      match type of Hout with
      | context [match ?x with _ => _ end] => destruct x as [blp2|] eqn:Hev
      end; [|discriminate].
      injection Hout as <-. eexists. split;
        [|right; exists blp1, blp2; split; [exact Hdb|split; [exact Hev|reflexivity]]].
      by destruct (readAhead st).
    - injection Hout as <-. eexists. split; [|by left]. by destruct (readAhead st). }
  destruct (Ascii.eqb_spec c "#"%char) as [->|Hc].
  - intros Hout. cbv [mbind result_bind] in Hout.
    match type of Hout with
    | context [match ?x with _ => _ end] => destruct x as [blp1|] eqn:Hp
    end; [|discriminate].
    injection Hout as <-. right. left. by exists blp1.
  - intros Hout. destruct Hbody as [?|?]; [|by left|by right; right].
    rewrite <- Hout. subst body.
    destruct c as [[] [] [] [] [] [] [] []]; try reflexivity. by destruct Hc.
Qed.

Lemma StronglySorted_snoc (l : list (string * Z)) (p : string * Z) :
  StronglySorted posLe l → Forall (λ q, posLe q p) l → StronglySorted posLe (l ++ [p]).
Proof.
  intros Hl Hp. apply StronglySorted_app. split; [|split; [done|repeat constructor]].
  intros x y Hx Hy. apply list_elem_of_singleton in Hy as ->.
  by eapply Forall_forall in Hp.
Qed.

Lemma parseLine_inOrder (st st' : loopState) (line : string) :
  coordinatesInOrder st → parseLine st line = Ok st' →
  posLe (current (blpOf st)) (current (blpOf st')) →
  (effects (blpOf st') = effects (blpOf st) ∨ txnLineBuffer (blpOf st) = []
   ∨ inTxn (blpOf st') = false) →
  coordinatesInOrder st'.
Proof.
  intros (Hs & Hle & Hinv) Hline Hcur Hcond.
  pose proof (parseLine_invariant _ _ _ Hinv Hline) as Hinv'.
  destruct Hinv as [Htxn _].
  apply parseLine_cases in Hline as [->|[(blp' & Hp & ->)|(e & He & Hline)]].
  - done.
  - apply parsePositionData_frame in Hp as (Hi & Hb & Hef).
    unfold coordinatesInOrder, chain in *. cbn [blpOf readAhead event] in *.
    rewrite (reported_same _ _ Hef), (buffered_same _ _ Hb).
    split; [done|]. split; [|done].
    eapply Forall_impl; [exact Hle|]. intros p Hp. eapply posLe_trans; [exact Hp|exact Hcur].
  - set (full := reported (blpOf st) ++ buffered (blpOf st)
                 ++ [master (coordinates (evPosition e))]).
    assert (Hfull : StronglySorted posLe full
                    ∧ Forall (λ p, posLe p (current (blpOf st))) full).
    { subst full. unfold chain in Hs, Hle. rewrite He.
      destruct (readAhead st); [done|]. rewrite app_nil_r in Hs, Hle.
      rewrite app_assoc. split.
      - by apply StronglySorted_snoc.
      - apply Forall_app. split; [done|]. constructor; [|done]. apply posLe_refl. }
    destruct Hfull as [Hfs Hfl].
    destruct Hline as [->|(blp1 & blp2 & Hdb & Hev & ->)].
    + unfold coordinatesInOrder, chain. cbn [blpOf readAhead event]. by fold full.
    + pose proof (parseDbChange_current _ _ _ Hdb) as Hc1.
      apply parseDbChange_frame in Hdb as (Hi & Hb & Hef).
      assert (Htxn1 : txnInvariant blp1) by (unfold txnInvariant in *; by rewrite Hi, Hb).
      cbn [blpOf] in Hcond. rewrite <- Hef, <- Hb in Hcond.
      destruct (parseEventData_chain blp1 blp2 e Htxn1 Hev Hcond) as [Hsub Hc2].
      rewrite (reported_same _ _ Hef), (buffered_same _ _ Hb) in Hsub. fold full in Hsub.
      unfold coordinatesInOrder, chain. cbn [blpOf readAhead]. rewrite app_nil_r.
      split; [by eapply sublist_StronglySorted|]. split; [|done].
      rewrite Hc2. unfold current. rewrite Hc1. by eapply sublist_Forall'.
Qed.

Lemma parseBinlogEvents_inOrder (lines : list string) (st st' : loopState) :
  coordinatesInOrder st → orderedInput st lines →
  parseBinlogEvents st lines = Ok st' → coordinatesInOrder st'.
Proof.
  revert st. induction lines as [|line lines IH]; intros st Hk Hord; cbn.
  - by intros [= <-].
  - cbn in Hord. cbv [mbind result_bind].
    destruct (parseLine st line) as [st1|] eqn:Hl; [|discriminate].
    destruct Hord as (Hcur & Hcond & Hord). intros Hrun.
    eapply IH; [|exact Hord|exact Hrun]. by eapply parseLine_inOrder.
Qed.

Lemma nondecreasingb_sorted (l : list (string * Z)) :
  StronglySorted posLe l → nondecreasingb l = true.
Proof.
  induction 1 as [|p l Hl IH Hp]; [done|].
  destruct l as [|q l]; [done|].
  change (posLeb p q && nondecreasingb (q :: l) = true).
  apply Forall_cons in Hp as [Hq _]. apply posLeb_spec in Hq. by rewrite Hq, IH.
Qed.

(** C5 (amended). As long as no line moves the current coordinates of the
    parser backwards (file index first, offset next) and no statement is sent
    while a transaction is buffered, the (master file, master offset) pairs of
    the responses sent to the subscriber, in the order sent, never decrease,
    and none exceeds the current coordinates; on a master log and on a relay
    log alike.  The parser itself copies the end_log_pos and Rotate values
    without comparing them. *)
Theorem reported_coordinates_nondecreasing
  (start : ReplicationCoordinates) (db : string) (kr : Key.KeyRange) (relay : bool)
  (lines : list string) (st : loopState) :
  orderedInput (startLoop (set_usingRelayLogs relay (NewBlp start db kr))) lines →
  parseBinlogEvents (startLoop (set_usingRelayLogs relay (NewBlp start db kr))) lines
    = Ok st →
  StronglySorted posLe (reported (blpOf st))
  ∧ Forall (λ p, posLe p (current (blpOf st))) (reported (blpOf st)).
Proof.
  intros Hord Hrun.
  assert (Hk : coordinatesInOrder
                 (startLoop (set_usingRelayLogs relay (NewBlp start db kr)))).
  { split; [constructor|]. split; [constructor|].
    apply (streamInvariant_frame (NewBlp start db kr)); [done..|].
    apply NewBlp_invariant. }
  destruct (parseBinlogEvents_inOrder _ _ _ Hk Hord Hrun) as (Hs & Hle & _).
  unfold chain in Hs, Hle. split.
  - eapply sublist_StronglySorted; [|exact Hs]. by apply sublist_inserts_r.
  - apply Forall_app in Hle. tauto.
Qed.

End WithExternals.

Import Scenario.

Lemma commit_filters_by_key_range_witness :
  ∃ blp' rb d rc,
    handleCommitEvent openTxn commitStatement = Ok blp' ∧
    responseStream blp' = [rb; d; rc] ∧
    SqlType rb = BEGIN ∧ SqlType d = "update" ∧ SqlType rc = COMMIT ∧
    KeyspaceId d = "11529215046068469760" ∧
    effects blp' = [Sent [rb; d; rc]].
Proof.
  assert (Hinv : txnInvariant openTxn).
  { unfold txnInvariant. cbn [inTxn openTxn]. eexists _, _.
    split; [reflexivity|]. split; [reflexivity|]. repeat constructor. }
  destruct (commit_filters_by_key_range openTxn commitStatement Hinv)
    as [Hshape Htotal]; [reflexivity..|].
  destruct Htotal as [blp' Hout].
  { cbn [txnLineBuffer openTxn]. repeat constructor; eexists; reflexivity. }
  { eexists; reflexivity. }
  { cbn [txnLineBuffer openTxn tail]. repeat constructor; intros _; eexists _, _;
      (split; [vm_compute; reflexivity|]); intros Hin; vm_compute in Hin;
      try discriminate Hin.
    vm_compute. eexists. reflexivity. }
  destruct (Hshape blp' Hout) as (rb & dmls & rc & Hresp & Hrb & Hdmls & Hrc & _ & Heff).
  assert (Hw : List.filter (inKeyRange (keyspaceRange openTxn)) (tail (txnLineBuffer openTxn))
               = [nth 2 (txnLineBuffer openTxn) commitStatement])
    by (vm_compute; reflexivity).
  rewrite Hw in Hdmls.
  destruct dmls as [|d [|d' dmls]];
    [inversion Hdmls| |exfalso; inversion Hdmls as [|? ? ? ? _ Hnil]; inversion Hnil].
  exists blp', rb, d, rc.
  inversion Hdmls as [|? ? ? ? (Hty & (id & Hks) & _) _]; subst.
  split; [exact Hout|]. split; [exact Hresp|]. split; [exact Hrb|].
  split; [exact Hty|]. split; [exact Hrc|].
  split.
  - vm_compute in Hks. by injection Hks.
  - rewrite Heff; [reflexivity|]. rewrite Hw. discriminate.
Defined.

Lemma delivered_batches_are_whole_witness :
  Forall (λ batch,
            ddlBatch batch ∨
            (wholeTxn batch ∧
             length (List.filter (λ r, String.eqb (SqlType r) BEGIN) batch) = 1%nat))
         (sentBatches (effects (after txnCommitted)))
  ∧ parseEventData openTxn rollbackStatement
    = Ok (set_txnLineBuffer [] (set_inTxn false openTxn))
  ∧ parseEventData openTxn beginStatement
    = Panic (PanicParse (ErrBeginInTxn 3 (map LogLine (txnLineBuffer openTxn))))
  ∧ UpdateStream.handleBeginEvent
      (UpdateStream.mkBlp true [UpdateStream.mkEvent zeroPos "BEGIN"] zeroPos) "BEGIN"
    = inl 1%nat.
Proof.
  destruct (@delivered_batches_are_whole externals)
    as (Hrun & Hrollback & _ & Hbegin & Hold).
  split; [|split; [|split]].
  - destruct (parseBinlogEvents (startLoop (set_usingRelayLogs false
               (NewBlp (mkCoord "" 0 "mysql-bin.000001" 4) ""
                  (Key.mkKeyRange (String (ascii_of_nat 128) "")
                                  (String (ascii_of_nat 192) ""))))) txnCommitted)
      as [st|x] eqn:Hst; [|vm_compute in Hst; discriminate Hst].
    replace (after txnCommitted) with (blpOf st).
    + exact (Hrun _ _ _ _ _ _ Hst).
    + vm_compute in Hst. injection Hst as <-. vm_compute. reflexivity.
  - apply Hrollback. reflexivity.
  - apply Hbegin; [|reflexivity..].
    unfold txnInvariant. cbn [inTxn openTxn]. eexists _, _.
    split; [reflexivity|]. split; [reflexivity|]. repeat constructor.
  - apply Hold. by left.
Defined.

(** C5 as stated fails: the parser copies the end_log_pos of each position
    line, so that a log whose positions go back yields responses whose
    coordinates go back. *)
Lemma coordinates_can_decrease :
  parseBinlogEvents (startLoop subscriber) outOfOrder
    = Ok (mkLoop (after outOfOrder) false
            (mkEvent (mkPos (mkCoord "" 0 "mysql-bin.000001" 300) "" 0 0 0)
                     "create table b (id int)" "create"))
  ∧ reported (after outOfOrder) = [("mysql-bin.000001", 500); ("mysql-bin.000001", 300)]
  ∧ nondecreasingb (reported (after outOfOrder)) = false.
Proof. vm_compute. repeat split. Qed.

Lemma reported_coordinates_nondecreasing_witness :
  orderedInput (startLoop subscriber) txnCommitted
  ∧ parseBinlogEvents (startLoop subscriber) txnCommitted = Ok committedLoop
  ∧ StronglySorted posLe (reported (blpOf committedLoop))
  ∧ Forall (λ p, posLe p (current (blpOf committedLoop))) (reported (blpOf committedLoop)).
Proof.
  assert (Hord : orderedInput (startLoop subscriber) txnCommitted).
  { vm_compute.
    repeat split; solve [by left | by right | by right; left | by right; right]. }
  assert (Hrun : parseBinlogEvents (startLoop subscriber) txnCommitted = Ok committedLoop).
  { vm_compute. reflexivity. }
  split; [exact Hord|]. split; [exact Hrun|].
  exact (@reported_coordinates_nondecreasing externals
           (mkCoord "" 0 "mysql-bin.000001" 4) ""
           (Key.mkKeyRange (String (ascii_of_nat 128) "") (String (ascii_of_nat 192) ""))
           false txnCommitted committedLoop Hord Hrun).
Defined.

End BinlogServerFacts.

(** ** The throttle ticker *)

Module ThrottleFacts.
Import Mysqlctl BinlogServer Throttle Scenario.

Lemma rateLoop_unfold (rateMap : list (string * list float))
    (m : gmap string float) (t n : float) :
  fold_left (λ '(krRateMap, totalQps, numClients) '(kr, rateList),
               let clientQps := avgRate rateList in
               (<[kr := clientQps]> krRateMap,
                (totalQps + clientQps)%float, (numClients + 1)%float))
            rateMap (m, t, n)
  = (foldl (λ m entry, <[entry.1 := avgRate entry.2]> m) m rateMap,
     fold_left (λ total entry, (total + avgRate entry.2)%float) rateMap t,
     Nat.iter (length rateMap) (λ c, (c + 1)%float) n).
Proof.
  revert m t n. induction rateMap as [|[kr rateList] rateMap IH]; intros m t n; [done|].
  cbn [fold_left foldl length]. rewrite IH. by rewrite Nat.iter_succ_r.
Qed.

Lemma foldl_insert_fresh (rateMap : list (string * list float))
    (m : gmap string float) (k : string) :
  k ∉ rateMap.*1 →
  foldl (λ m entry, <[entry.1 := avgRate entry.2]> m) m rateMap !! k = m !! k.
Proof.
  revert m. induction rateMap as [|[kr rateList] rateMap IH]; intros m Hk; [done|].
  cbn in Hk |- *. apply not_elem_of_cons in Hk as [Hne Hk].
  rewrite IH by done. by rewrite lookup_insert_ne.
Qed.

Lemma foldl_insert_member (rateMap : list (string * list float))
    (m : gmap string float) (k : string) (rateList : list float) :
  NoDup rateMap.*1 → (k, rateList) ∈ rateMap →
  foldl (λ m entry, <[entry.1 := avgRate entry.2]> m) m rateMap !! k
  = Some (avgRate rateList).
Proof.
  revert m. induction rateMap as [|[kr rl] rateMap IH]; intros m Hnd Hin.
  - by apply elem_of_nil in Hin.
  - cbn in Hnd. apply NoDup_cons in Hnd as [Hfresh Hnd].
    apply elem_of_cons in Hin as [[= <- <-]|Hin]; cbn [foldl fst snd].
    + rewrite foldl_insert_fresh by done. by rewrite lookup_insert_eq.
    + by apply IH.
Qed.

Lemma foldl_insert_keys (rateMap : list (string * list float))
    (m : gmap string float) (k : string) :
  is_Some (foldl (λ m entry, <[entry.1 := avgRate entry.2]> m) m rateMap !! k) →
  k ∈ rateMap.*1 ∨ is_Some (m !! k).
Proof.
  revert m. induction rateMap as [|[kr rl] rateMap IH]; intros m Hk; [by right|].
  cbn in Hk |- *. apply IH in Hk as [Hk|Hk].
  - left. by right.
  - destruct (decide (kr = k)) as [->|Hne]; [left; by left|].
    rewrite lookup_insert_ne in Hk by done. by right.
Qed.

Lemma Seconds_tickerInterval : Seconds tickerInterval = 60%float.
Proof. vm_compute. reflexivity. Qed.

(** C8 (amended). When a tick of the throttle ticker finds the sum of the
    average DML rates of the rate map above the ceiling, every client is left
    as it was but for its sleep between commits.  The share [max] is the
    ceiling over the number of entries of the rate map (the counters that have
    rates), not over the number of clients.  A client whose counter has the
    average rate [qps] above [max] is assigned the whole part of
    [60 * ((qps - max) / qps)], the seconds of the tick times the excess
    fraction, as milliseconds: a thousandth of [tick * (qps - max) / qps].  A
    client at or below [max], or whose counter has no rates, is assigned zero
    sleep.  The ticker goes on and its map of rates holds the counters of the
    rate map only. *)
Theorem throttle_assigns_milliseconds
    (throttleRate : float) (clients : list Blp)
    (rateMap : list (string * list float)) (krRateMap : gmap string float) :
  clients ≠ [] →
  (throttleRate =? 0)%float = false →
  NoDup rateMap.*1 →
  (∀ k, is_Some (krRateMap !! k) → k ∈ rateMap.*1) →
  (throttleRate <? totalQps rateMap)%float = true →
  Forall2 (throttledAs throttleRate rateMap) clients
          (clientsOf (throttleTick throttleRate clients (Some rateMap) krRateMap))
  ∧ goesOn (throttleTick throttleRate clients (Some rateMap) krRateMap) = true
  ∧ (∀ k, is_Some (krRateMapOf (throttleTick throttleRate clients (Some rateMap) krRateMap)
                     !! k) →
          k ∈ rateMap.*1).
Proof.
  intros Hne Hrate Hnd Hkeys Htotal. unfold throttleTick.
  destruct clients as [|c0 clients0] eqn:Hclients; [done|]. rewrite <- Hclients.
  clear Hne Hclients. rewrite Hrate. unfold rateLoop. rewrite rateLoop_unfold.
  fold (totalQps rateMap). fold (counted (length rateMap)). rewrite Htotal.
  fold (fairShare throttleRate rateMap). cbn [clientsOf goesOn krRateMapOf].
  split; [|split; [done|]].
  - apply Forall2_fmap_r, Forall_Forall2_diag, Forall_forall. intros blpClient _. cbv [compose throttledAs].
    match goal with
    | |- context [match ?x with Some _ => _ | None => _ end] =>
        destruct x as [krQps|] eqn:Hlook
    end.
    + assert (Hin : "DmlCount." +:+ keyrangeTag blpClient ∈ rateMap.*1).
      { destruct (foldl_insert_keys rateMap krRateMap _ (mk_is_Some _ _ Hlook)); auto. }
      apply list_elem_of_fmap in Hin as ([k rl] & Hk & Hin). cbn in Hk. subst k.
      rewrite (foldl_insert_member _ _ _ _ Hnd Hin) in Hlook. injection Hlook as <-.
      rewrite Seconds_tickerInterval. fold (assignedSleep (avgRate rl) (fairShare throttleRate rateMap)).
      assert (Huniq : ∀ rateList, ("DmlCount." +:+ keyrangeTag blpClient, rateList) ∈ rateMap →
                                  avgRate rateList = avgRate rl).
      { intros rateList Hin'.
        pose proof (foldl_insert_member _ krRateMap _ _ Hnd Hin') as H1.
        pose proof (foldl_insert_member _ krRateMap _ _ Hnd Hin) as H2. congruence. }
      destruct (fairShare throttleRate rateMap <? avgRate rl)%float eqn:Hlt; cbn [sleepToThrottle set_sleepToThrottle].
      * split; [by destruct blpClient|]. split.
        -- intros rateList Hin'. by rewrite (Huniq _ Hin'), Hlt.
        -- intros Hout. destruct Hout. apply list_elem_of_fmap. by exists ("DmlCount." +:+ keyrangeTag blpClient, rl).
      * split; [by destruct blpClient|]. split; [|done].
        intros rateList Hin'. by rewrite (Huniq _ Hin'), Hlt.
    + split; [by destruct blpClient|]. split; [|done].
      intros rateList Hin. by rewrite (foldl_insert_member _ _ _ _ Hnd Hin) in Hlook.
  - intros k Hk. apply foldl_insert_keys in Hk as [Hk|Hk]; auto.
Qed.

(** C8 as stated fails.  Of three subscribers under the ceiling 1200, the one
    at 2400 DML a second is assigned 45 milliseconds, where the stated share
    (400, a third of the ceiling) and the stated formula give 50 seconds; the
    one at 500 is above the stated share and is assigned no sleep, where the
    stated formula gives 12 seconds. *)
Lemma sleep_is_not_the_tick_fraction :
  map sleepToThrottle
      (clientsOf (throttleTick 1200 [fast; steady; idle] (Some rates) ∅))
  = [45 * Millisecond; 0; 0]
  ∧ map (λ entry, avgRate entry.2) rates = [2400%float; 500%float]
  ∧ specFairShare 1200 [fast; steady; idle] = 400%float
  ∧ specSleep tickerInterval 2400 400 = 50 * Second
  ∧ specSleep tickerInterval 500 400 = 12 * Second.
Proof. vm_compute. repeat split. Qed.

Lemma throttle_assigns_milliseconds_witness :
  [fast; steady; idle] ≠ []
  ∧ (1200 =? 0)%float = false
  ∧ NoDup rates.*1
  ∧ (1200 <? totalQps rates)%float = true
  ∧ Forall2 (throttledAs 1200 rates) [fast; steady; idle]
            (clientsOf (throttleTick 1200 [fast; steady; idle] (Some rates) ∅)).
Proof.
  assert (Hne : [fast; steady; idle] ≠ []) by discriminate.
  assert (Hrate : (1200 =? 0)%float = false) by (vm_compute; reflexivity).
  assert (Hnd : NoDup rates.*1).
  { refine (bool_decide_unpack _ _). vm_compute. exact I. }
  assert (Hkeys : ∀ k, is_Some ((∅ : gmap string float) !! k) → k ∈ rates.*1).
  { intros k Hk. rewrite lookup_empty in Hk. by destruct Hk. }
  assert (Htotal : (1200 <? totalQps rates)%float = true) by (vm_compute; reflexivity).
  destruct (throttle_assigns_milliseconds 1200 [fast; steady; idle] rates ∅
              Hne Hrate Hnd Hkeys Htotal) as (Hall & _ & _).
  exact (conj Hne (conj Hrate (conj Hnd (conj Htotal Hall)))).
Defined.

End ThrottleFacts.

(** ** The actor of a tablet *)

Module ActorFacts.
Import GoBytes Zk Actor.

Section WithEnvironment.
Context `{Environment} `{!Codec}.

Lemma run_stuck {R : Type} (fuel : nat) (s : store) (p : prog R) :
  exec1 s p = None → run fuel s p = (s, p, []).
Proof. intros Hp. destruct fuel; [done|]. cbn [run]. by rewrite Hp. Qed.

Lemma run_step {R : Type} (fuel : nat) (s s' s'' : store) (p p' p'' : prog R)
    (ev : event) (tr : list event) :
  exec1 s p = Some (s', p', ev) →
  run fuel s' p' = (s'', p'', tr) →
  run (S fuel) s p = (s'', p'', ev :: tr).
Proof. intros Hp Hrun. cbn [run]. by rewrite Hp, Hrun. Qed.

Lemma run_Ret {R : Type} (fuel : nat) (s : store) (r : R) :
  run fuel s (Ret r) = (s, Ret r, []).
Proof. by apply run_stuck. Qed.

Lemma claimable_states (forceRerun : bool) (actionNode : ActionNode) :
  claimable forceRerun actionNode →
  String.eqb (State actionNode) ACTION_STATE_FAILED = false
  ∧ String.eqb (State actionNode) ACTION_STATE_DONE = false
  ∧ (String.eqb (State actionNode) ACTION_STATE_RUNNING = true → forceRerun = true).
Proof.
  intros (Hf & Hd & Hr). repeat split.
  - by apply String.eqb_neq.
  - by apply String.eqb_neq.
  - intros Heq. apply Hr. by apply String.eqb_eq.
Qed.

(** A claimable node that is read takes the actor to the claim. *)
Lemma HandleAction_reads (s : store) (actionPath action actionGuid : string)
    (forceRerun : bool) (zn : znode) (actionNode : ActionNode) :
  s !! actionPath = Some zn →
  ActionNodeFromJson (zdata zn) actionPath = inr actionNode →
  claimable forceRerun actionNode →
  exec1 s (HandleAction actionPath action actionGuid forceRerun)
  = Some (s, HandleAction_claim actionPath action actionGuid actionNode (zversion zn),
          EvGet actionPath (inr (zdata zn, zversion zn))).
Proof.
  intros Hs Hjson Hclaim. apply claimable_states in Hclaim as (Hf & Hd & Hr).
  cbn [HandleAction mbind prog_bind bind zconn_Get exec1]. unfold Zk.Get. rewrite Hs.
  cbn [bind]. rewrite Hjson, Hf, Hd.
  destruct (String.eqb (State actionNode) ACTION_STATE_RUNNING); [|done].
  by rewrite Hr.
Qed.

(** The claim of a node whose version is the one that was read. *)
Lemma HandleAction_claims (s : store) (actionPath action actionGuid : string)
    (zn : znode) (actionNode : ActionNode) :
  s !! actionPath = Some zn →
  exec1 s (HandleAction_claim actionPath action actionGuid actionNode (zversion zn))
  = Some (<[actionPath := mkZnode (ActionNodeToJson
                                     (set_State ACTION_STATE_RUNNING actionNode))
                                  (zversion zn + 1)]> s,
          HandleAction_claimed actionPath action actionGuid
            (set_State ACTION_STATE_RUNNING actionNode),
          EvSet actionPath (ActionNodeToJson (set_State ACTION_STATE_RUNNING actionNode))
                (zversion zn) (inr (zversion zn + 1))).
Proof.
  intros Hs. cbn [HandleAction_claim mbind prog_bind bind zconn_Set exec1].
  unfold Zk.Set_, versionMatches. rewrite Hs, Z.eqb_refl, orb_true_r. reflexivity.
Qed.

Lemma stateAt_insert (s : store) (p : string) (n : ActionNode) (v : Z) :
  stateAt (<[p := mkZnode (ActionNodeToJson n) v]> s) p = Some (State n).
Proof.
  unfold stateAt. rewrite lookup_insert_eq. cbn [zdata].
  by rewrite ActionNodeFromJson_ToJson.
Qed.

(** C9. When the node that [HandleAction] has read and claimed (a queued
    node, or a running one under [forceRerun]) does not carry the action name
    and the guid of the call, the actor returns the error
    "invalid action initiation: <action> <guid>" after two calls on the
    store, the [Get] and the [Set]: no handler is dispatched, nothing is
    created on the log path, nothing is deleted, and the store is left as it
    was but for the node, which stays in the queue, one version up, in state
    Running. *)
Theorem mismatch_after_claim_is_refused
    (s : store) (actionPath action actionGuid : string) (forceRerun : bool)
    (zn : znode) (actionNode : ActionNode) (fuel : nat) :
  s !! actionPath = Some zn →
  ActionNodeFromJson (zdata zn) actionPath = inr actionNode →
  claimable forceRerun actionNode →
  Action actionNode ≠ action ∨ ActionGuid actionNode ≠ actionGuid →
  run (2 + fuel) s (HandleAction actionPath action actionGuid forceRerun)
  = (<[actionPath := mkZnode (ActionNodeToJson (set_State ACTION_STATE_RUNNING actionNode))
                             (zversion zn + 1)]> s,
     Ret (Some (TabletActorError
                  ("invalid action initiation: " +:+ action +:+ " " +:+ actionGuid))),
     [EvGet actionPath (inr (zdata zn, zversion zn));
      EvSet actionPath (ActionNodeToJson (set_State ACTION_STATE_RUNNING actionNode))
            (zversion zn) (inr (zversion zn + 1))])
  ∧ stateAt (<[actionPath := mkZnode (ActionNodeToJson
                                        (set_State ACTION_STATE_RUNNING actionNode))
                                     (zversion zn + 1)]> s) actionPath
    = Some ACTION_STATE_RUNNING.
Proof.
  intros Hs Hjson Hclaim Hmis. split; [|by rewrite stateAt_insert].
  change (2 + fuel)%nat with (S (S fuel)).
  eapply run_step; [by apply HandleAction_reads|].
  eapply run_step; [by apply HandleAction_claims|].
  unfold HandleAction_claimed. cbn [Action ActionGuid set_State].
  assert (Hbad : negb (String.eqb (Action actionNode) action)
                 || negb (String.eqb (ActionGuid actionNode) actionGuid) = true).
  { apply orb_true_iff. destruct Hmis as [Hm|Hm]; [left|right];
      apply negb_true_iff; by apply String.eqb_neq. }
  rewrite Hbad. apply run_Ret.
Qed.

(** *** The record of the result *)




Lemma Create_orphan (s : store) (p data : string) :
  hasParent s p = false → Zk.Create s p data = (inl ZNONODE, s).
Proof. intros Hp. unfold Zk.Create. by rewrite Hp. Qed.






(** *** The claim under concurrency *)














Lemma stepActor_cases {R : Type} (i : nat) (c : config R) :
  stepActor i c = (c, [])
  ∨ ∃ p s' p' ev,
      pool c !! i = Some p ∧ exec1 (storeOf c) p = Some (s', p', ev)
      ∧ stepActor i c = (mkConfig s' (<[i := p']> (pool c)), [mkEntry i (storeOf c) ev s']).
Proof.
  unfold stepActor. destruct (pool c !! i) as [p|] eqn:Hp; [|by left].
  destruct (exec1 (storeOf c) p) as [[[s' p'] ev]|] eqn:Hexec; [|by left].
  right. by exists p, s', p', ev.
Qed.










(** *** The claim is a compare-and-swap *)

















End WithEnvironment.

Import ActorScenario.

(** The codec of the examples reads back what it writes. *)
Lemma decodeField_encodeField (field rest : string) :
  decodeField (encodeField field +:+ rest) = Some (field, rest).
Proof.
  induction field as [|c field IH]; [done|].
  change (decodeField (String "+" (String c (encodeField field +:+ rest)))
          = Some (String c field, rest)).
  cbn [decodeField]. change (Ascii.eqb "+" ".") with false.
  change (Ascii.eqb "+" "+") with true. cbv iota. by rewrite IH.
Qed.

Lemma decodeField_encodeField_end (field : string) :
  decodeField (encodeField field) = Some (field, "").
Proof.
  induction field as [|c field IH]; [done|].
  cbn [encodeField decodeField]. change (Ascii.eqb "+" ".") with false.
  change (Ascii.eqb "+" "+") with true. cbv iota. by rewrite IH.
Qed.

Lemma fromJson_toJson (n : ActionNode) (p : string) :
  fromJson (toJson n) p = inr (set_path p n).
Proof.
  unfold fromJson, toJson.
  by rewrite !decodeField_encodeField, decodeField_encodeField_end.
Qed.

Lemma fromJson_empty (p : string) : ∃ err, fromJson "" p = inl err.
Proof. by exists (JsonError ""). Qed.

#[local] Instance environment_codec : Codec.
Proof. split; [apply fromJson_toJson|apply fromJson_empty]. Qed.

Lemma mismatch_after_claim_is_refused_witness :
  run 2 pingStore (HandleAction pingPath "Sleep" "guid-1" false)
  = (<[pingPath := mkZnode (toJson (set_State ACTION_STATE_RUNNING queuedPing)) 1]> pingStore,
     Ret (Some (TabletActorError "invalid action initiation: Sleep guid-1")),
     [EvGet pingPath (inr (toJson queuedPing, 0));
      EvSet pingPath (toJson (set_State ACTION_STATE_RUNNING queuedPing)) 0 (inr 1)])
  ∧ stateAt (<[pingPath := mkZnode (toJson (set_State ACTION_STATE_RUNNING queuedPing)) 1]>
               pingStore) pingPath
    = Some ACTION_STATE_RUNNING.
Proof.
  assert (Hs : pingStore !! pingPath = Some (mkZnode (toJson queuedPing) 0)).
  { vm_compute. reflexivity. }
  assert (Hjson : ActionNodeFromJson (toJson queuedPing) pingPath = inr queuedPing).
  { vm_compute. reflexivity. }
  assert (Hclaim : claimable false queuedPing).
  { unfold claimable. repeat split; vm_compute; discriminate. }
  assert (Hmis : Action queuedPing ≠ "Sleep" ∨ ActionGuid queuedPing ≠ "guid-1").
  { left. vm_compute. discriminate. }
  exact (mismatch_after_claim_is_refused pingStore pingPath "Sleep" "guid-1" false
           (mkZnode (toJson queuedPing) 0) queuedPing 0 Hs Hjson Hclaim Hmis).
Defined.



Lemma pingOnly_keeps (p : string) : handlersKeep p.
Proof.
  intros n s. cbn [dispatchAction environment]. unfold pingOnly.
  by destruct (String.eqb _ _).
Qed.



End ActorFacts.

(** ** shard.go: membership after a rebuild *)

Module ShardMembershipFacts.
Import Key Naming Shard ShardFacts.

Lemma existsb_alias (alias : TabletAlias) (l : list TabletAlias) :
  existsb (λ a, bool_decide (a = alias)) l = true ↔ In alias l.
Proof.
  rewrite existsb_exists. split.
  - intros (a & Hin & Ha). apply bool_decide_eq_true in Ha. by subst.
  - intros Hin. exists alias. split; [done|]. by apply bool_decide_eq_true.
Qed.

Lemma In_aliasesOfType (ty : TabletType) (l : list TabletInfo) (alias : TabletAlias) :
  In alias (aliasesOfType ty l) ↔
  ∃ ti, In ti l ∧ tType (tiTablet ti) = ty ∧ aliasOf ti = alias.
Proof.
  unfold aliasesOfType. rewrite in_map_iff. split.
  - intros (ti & Ha & Hin). apply filter_In in Hin as [Hin Hty].
    apply bool_decide_eq_true in Hty. by exists ti.
  - intros (ti & Hin & Hty & Ha). exists ti. split; [done|].
    apply filter_In. split; [done|]. by apply bool_decide_eq_true.
Qed.

(** X1. After a rebuild that succeeds, [Contains] tells the members apart as
    the rebuild has sorted them.  Every tablet of the list of type replica or
    rdonly is contained.  A master of the list is contained exactly when its
    alias is the one of the last master of the list, so that of two masters
    the earlier is no member.  A replica or rdonly tablet that is contained
    has the cell and the uid of a tablet of the list of its type: nothing of
    the shard before the rebuild is left.  A tablet of any other type is
    never contained, and when the list has no master a master is contained
    only under the zero alias. *)
Theorem Rebuild_then_Contains (si : ShardInfo) (l : list TabletInfo) :
  snd (Rebuild si l) = None →
  (∀ ti, In ti l →
         tType (tiTablet ti) = TYPE_REPLICA ∨ tType (tiTablet ti) = TYPE_RDONLY →
         Contains (siShard (fst (Rebuild si l))) (tiTablet ti) = true)
  ∧ (∀ ti, In ti l → tType (tiTablet ti) = TYPE_MASTER →
           (Contains (siShard (fst (Rebuild si l))) (tiTablet ti) = true
            ↔ aliasOf ti = List.last (aliasesOfType TYPE_MASTER l) Naming.zero))
  ∧ (∀ tablet,
       tType tablet = TYPE_REPLICA ∨ tType tablet = TYPE_RDONLY →
       Contains (siShard (fst (Rebuild si l))) tablet = true →
       ∃ ti, In ti l ∧ tType (tiTablet ti) = tType tablet
             ∧ aliasOf ti = mkAlias (tCell tablet) (tUid tablet))
  ∧ (∀ tablet,
       tType tablet ∉ [TYPE_MASTER; TYPE_REPLICA; TYPE_RDONLY] →
       Contains (siShard (fst (Rebuild si l))) tablet = false)
  ∧ (aliasesOfType TYPE_MASTER l = [] →
     ∀ tablet, tType tablet = TYPE_MASTER →
               (Contains (siShard (fst (Rebuild si l))) tablet = true
                ↔ mkAlias (tCell tablet) (tUid tablet) = Naming.zero)).
Proof.
  intros Hok. rewrite Rebuild_spec in Hok |- *.
  destruct (firstMismatch (firstKeyRange l) l); [discriminate|]. clear Hok.
  cbn [fst siShard]. unfold partitioned.
  split; [|split; [|split; [|split]]].
  - intros ti Hin [Hty|Hty]; unfold Contains; rewrite Hty;
      cbn [ReplicaAliases RdonlyAliases]; apply existsb_alias, In_aliasesOfType;
      by exists ti.
  - intros ti Hin Hty. unfold Contains. rewrite Hty. cbn [MasterAlias].
    rewrite bool_decide_eq_true. unfold aliasOf. split; by intros ->.
  - intros tablet [Hty|Hty]; unfold Contains; rewrite Hty;
      cbn [ReplicaAliases RdonlyAliases]; intros Hc;
      apply existsb_alias, In_aliasesOfType in Hc as (ti & Hin & Hti & Ha);
      exists ti; by rewrite Hti.
  - intros tablet Hty. unfold Contains.
    destruct (tType tablet); try reflexivity; exfalso; apply Hty;
      repeat (first [by left | right]).
  - intros Hnone tablet Hty. unfold Contains. rewrite Hty. cbn [MasterAlias].
    rewrite Hnone. cbn [List.last]. rewrite bool_decide_eq_true. split; by intros ->.
Qed.

Lemma Rebuild_then_Contains_witness :
  snd (Rebuild shard0 members) = None
  ∧ Contains (siShard (fst (Rebuild shard0 members)))
      (tiTablet (tablet "ny" 4 TYPE_RDONLY lowHalf)) = true
  ∧ Contains (siShard (fst (Rebuild shard0 members)))
      (tiTablet (tablet "nj" 3 TYPE_SPARE lowHalf)) = false.
Proof.
  assert (Hok : snd (Rebuild shard0 members) = None) by (vm_compute; reflexivity).
  destruct (Rebuild_then_Contains shard0 members Hok) as (Hmember & _ & _ & Hother & _).
  split; [exact Hok|]. split.
  - apply Hmember; [|by right]. cbn. auto 10.
  - apply Hother. cbn. intros Hin.
    repeat (apply elem_of_cons in Hin as [Hin|Hin]; [discriminate Hin|]).
    by apply elem_of_nil in Hin.
Defined.

End ShardMembershipFacts.

(** ** actor.go: the order of the calls, and what is left alone *)

Module ActorOrderFacts.
Import GoBytes Zk Actor ActorFacts.

Section WithEnvironment.
Context `{Environment} `{!Codec}.

Lemma orderly_mono {R : Type} (actionPath : string) (recorded recorded' : bool)
    (p : prog R) :
  orderly actionPath recorded p → (recorded = true → recorded' = true) →
  orderly actionPath recorded' p.
Proof.
  intros Hp. revert recorded'.
  induction Hp as [rec r|rec p k Hp _ IH|rec node version k _ IH
                  |rec p data k Hp _ IHl _ IHr|version k _ IH
                  |rec n k _ IH|rec k _ IH]; intros rec' Hrec.
  - constructor.
  - constructor; [done|]. intros r. by apply IH.
  - constructor. intros r. by apply IH.
  - constructor; [done| |].
    + intros err. by apply IHl.
    + intros created. apply IHr. intros [?| ->]%orb_true_iff; [|by rewrite orb_true_r].
      by rewrite Hrec.
  - rewrite Hrec by done. constructor. intros r. by apply IH.
  - constructor. intros r. by apply IH.
  - constructor. intros r. by apply IH.
Qed.

Lemma orderly_bind {A B : Type} (actionPath : string) (m : prog A) (f : A → prog B)
    (recorded : bool) :
  orderly actionPath recorded m →
  (∀ recorded' a, (recorded = true → recorded' = true) →
                  orderly actionPath recorded' (f a)) →
  orderly actionPath recorded (bind m f).
Proof.
  intros Hm. induction Hm as [rec r|rec p k Hp _ IH|rec node version k _ IH
                             |rec p data k Hp _ IHl _ IHr|version k _ IH
                             |rec n k _ IH|rec k _ IH]; intros Hf; cbn [bind].
  - by apply Hf.
  - constructor; [done|]. intros r. by apply IH.
  - constructor. intros r. by apply IH.
  - constructor; [done| |].
    + intros err. by apply IHl.
    + intros created. apply IHr. intros rec' a Hrec. apply Hf.
      intros ->. by apply Hrec.
  - constructor. intros r. by apply IH.
  - constructor. intros r. by apply IH.
  - constructor. intros r. by apply IH.
Qed.

Lemma WaitForCompletion_orderly (actionPath : string) (recorded : bool) :
  orderly actionPath recorded (WaitForCompletion actionPath).
Proof.
  unfold WaitForCompletion. cbn [mbind prog_bind bind zconn_Watch zconn_Get].
  constructor. intros _. constructor; [by right|].
  intros [zkErr|[data stat]]; cbn [bind]; [constructor|].
  destruct (ActionNodeFromJson _ _); [constructor|].
  destruct (String.eqb _ _); constructor.
Qed.

(** [StoreActionResponse] returns no error only when it has created the log
    path. *)
Lemma StoreActionResponse_orderly {B : Type} (actionNode : ActionNode)
    (actionPath : string) (actionErr : option string) (recorded : bool)
    (f : option error → prog B) :
  (∀ err, orderly actionPath recorded (f (Some err))) →
  orderly actionPath true (f None) →
  orderly actionPath recorded (bind (StoreActionResponse actionNode actionPath actionErr) f).
Proof.
  intros Herr Hok. unfold StoreActionResponse.
  cbn [mbind mret prog_ret prog_bind bind zconn_Create].
  constructor; [by left| |].
  - intros err. cbn [bind]. destruct (IsError err ZNONODE); [|cbn [bind]; apply Herr].
    cbn [mbind mret prog_ret prog_bind bind zconn_Create].
    constructor; [by right| |].
    + intros err'. cbn [bind]. apply Herr.
    + intros created. cbn [bind]. constructor; [by left| |].
      * intros err'. cbn [bind].
        eapply orderly_mono; [apply Herr|]. by intros ->.
      * intros created'. cbn [bind]. rewrite String.eqb_refl, !orb_true_r.
        exact Hok.
  - intros created. cbn [bind]. rewrite String.eqb_refl, orb_true_r. exact Hok.
Qed.

Lemma HandleAction_claimed_orderly (actionPath action actionGuid : string)
    (actionNode : ActionNode) :
  orderly actionPath false (HandleAction_claimed actionPath action actionGuid actionNode).
Proof.
  unfold HandleAction_claimed. destruct (_ || _); [constructor|].
  cbn [mbind prog_bind bind ta_dispatchAction]. constructor. intros [handled actionErr].
  cbn [bind]. apply StoreActionResponse_orderly; [constructor|].
  cbn [mbind prog_bind bind zconn_Delete].
  constructor. intros [zkErr|]; cbn [bind]; constructor.
Qed.

Lemma HandleAction_claim_orderly (actionPath action actionGuid : string)
    (actionNode : ActionNode) (stat : Z) :
  orderly actionPath false (HandleAction_claim actionPath action actionGuid actionNode stat).
Proof.
  unfold HandleAction_claim. cbn [mbind prog_bind bind zconn_Set].
  constructor. intros [zkErr|version]; cbn [bind].
  - destruct (IsError zkErr ZBADVERSION); [apply WaitForCompletion_orderly|constructor].
  - apply HandleAction_claimed_orderly.
Qed.

Lemma HandleAction_orderly (actionPath action actionGuid : string) (forceRerun : bool) :
  orderly actionPath false (HandleAction actionPath action actionGuid forceRerun).
Proof.
  unfold HandleAction. cbn [mbind prog_bind bind zconn_Get].
  constructor; [by left|]. intros [zkErr|[data stat]]; cbn [bind]; [constructor|].
  destruct (ActionNodeFromJson _ _) as [err|actionNode]; [constructor|].
  repeat (destruct (String.eqb _ _)); try destruct (negb _);
    first [apply WaitForCompletion_orderly | apply HandleAction_claim_orderly | constructor].
Qed.

(** The calls of an orderly program are in order. *)
Lemma run_inOrder {R : Type} (actionPath : string) (fuel : nat) (s : store)
    (p : prog R) (recorded : bool) :
  orderly actionPath recorded p → inOrder actionPath recorded (run fuel s p).2.
Proof.
  revert s p recorded. induction fuel as [|fuel IH]; intros s p recorded Hp; [done|].
  cbn [run]. destruct Hp as [rec r|rec p k Hp Hk|rec node version k Hk
                            |rec p data k Hp Hl Hr|version k Hk|rec n k Hk|rec k Hk];
    cbn [exec1].
  - done.
  - specialize (IH s (k (Zk.Get s p)) rec (Hk _)).
    destruct (run fuel s _) as [[s'' p''] tr]. by cbn [snd inOrder] in *.
  - destruct (Zk.Set_ _ _ _ _) as [r s']. specialize (IH s' (k r) rec (Hk _)).
    destruct (run fuel s' _) as [[s'' p''] tr]. cbn [snd inOrder] in *.
    split; [done|]. split; [by eexists|done].
  - destruct (Zk.Create _ _ _) as [r s'].
    assert (Hkr : orderly actionPath
                    (rec || (match r with inr _ => true | inl _ => false end
                             && String.eqb p (ActionToActionLogPath actionPath)))
                    (k r)).
    { destruct r as [err|created]; [|apply Hr].
      rewrite andb_false_l, orb_false_r. apply Hl. }
    specialize (IH s' (k r) _ Hkr).
    destruct (run fuel s' _) as [[s'' p''] tr]. by cbn [snd inOrder] in *.
  - destruct (Zk.Delete _ _ _) as [r s']. specialize (IH s' (k r) true (Hk _)).
    destruct (run fuel s' _) as [[s'' p''] tr]. by cbn [snd inOrder] in *.
  - destruct (dispatchAction _ _) as [[n' err] s'].
    specialize (IH s' (k (n', err)) rec (Hk _)).
    destruct (run fuel s' _) as [[s'' p''] tr]. by cbn [snd inOrder] in *.
  - destruct (bool_decide _); [|done]. specialize (IH s (k ()) rec (Hk _)).
    destruct (run fuel s _) as [[s'' p''] tr]. by cbn [snd inOrder] in *.
Qed.

(** Among calls in order, a [Delete] comes after the log path has been
    created. *)
Lemma inOrder_Delete (actionPath : string) (recorded : bool) (tr : list event)
    (i : nat) (p : string) (version : Z) (r : option Zk.Error) :
  inOrder actionPath recorded tr →
  tr !! i = Some (EvDelete p version r) →
  p = actionPath
  ∧ (recorded = true
     ∨ ∃ (j : nat) (data created : string),
         (j < i)%nat
         ∧ tr !! j = Some (EvCreate (ActionToActionLogPath actionPath) data (inr created))).
Proof.
  revert recorded i. induction tr as [|ev tr IH]; intros recorded i Htr Hi; [done|].
  destruct i as [|i].
  - injection Hi as ->. cbn [inOrder] in Htr. destruct Htr as (-> & -> & _). by split; [|left].
  - cbn [lookup list_lookup] in Hi.
    assert (Hnext : ∀ rec', inOrder actionPath rec' tr →
              p = actionPath
              ∧ (rec' = true
                 ∨ ∃ (j : nat) (data created : string),
                     (j < S i)%nat
                     ∧ (ev :: tr) !! j
                       = Some (EvCreate (ActionToActionLogPath actionPath) data
                                 (inr created)))).
    { intros rec' Hrec'. destruct (IH rec' i Hrec' Hi) as [-> [Hr|(j & data & created & Hj & Hev)]].
      - by split; [|left].
      - split; [done|]. right. exists (S j), data, created. split; [lia|done]. }
    destruct ev as [q r'|q data ver r'|q data r'|q ver r'|n r'|q]; cbn [inOrder] in Htr.
    + destruct Htr as [_ Htr]. apply (Hnext _ Htr).
    + destruct Htr as (_ & _ & Htr). apply (Hnext _ Htr).
    + destruct Htr as [_ Htr]. destruct (Hnext _ Htr) as [-> [Hr|Hr]]; [|by split; [|right]].
      split; [done|]. apply orb_true_iff in Hr as [Hr|Hr]; [by left|].
      apply andb_true_iff in Hr as [Hr Hq]. apply String.eqb_eq in Hq as ->.
      destruct r' as [err|created]; [done|].
      right. exists 0%nat, data, created. split; [lia|done].
    + destruct Htr as (_ & _ & Htr). apply (Hnext _ Htr).
    + apply (Hnext _ Htr).
    + destruct Htr as [_ Htr]. apply (Hnext _ Htr).
Qed.

(** X2. Whatever the store holds and however far it runs, [HandleAction]
    makes its calls in order: it reads only the action node and the log path;
    it writes the action node only by the [Set] of a node in state Running;
    it creates only the log path and the directory of the log path; it
    watches only the log path; and it deletes only the action node, and only
    after one of its own calls has created the log path.  An action is never
    taken off the queue before its result is on record. *)
Theorem HandleAction_calls_in_order (fuel : nat) (s : store)
    (actionPath action actionGuid : string) (forceRerun : bool) :
  let tr := (run fuel s (HandleAction actionPath action actionGuid forceRerun)).2 in
  inOrder actionPath false tr
  ∧ ∀ (i : nat) (p : string) (version : Z) (r : option Zk.Error),
      tr !! i = Some (EvDelete p version r) →
      p = actionPath
      ∧ ∃ (j : nat) (data created : string),
          (j < i)%nat
          ∧ tr !! j = Some (EvCreate (ActionToActionLogPath actionPath) data (inr created)).
Proof.
  intros tr.
  assert (Htr : inOrder actionPath false tr).
  { apply run_inOrder, HandleAction_orderly. }
  split; [done|]. intros i p version r Hi.
  by destruct (inOrder_Delete _ _ _ _ _ _ _ Htr Hi) as [-> [?|?]].
Qed.

(** *** The log path is created once *)

Lemma spares_bind {A B : Type} (p : string) (m : prog A) (f : A → prog B) :
  spares p m → (∀ a, spares p (f a)) → spares p (bind m f).
Proof.
  intros Hm Hf. induction Hm; cbn [bind]; [done|constructor; auto..].
Qed.

Lemma orderly_spares {R : Type} (actionPath p : string) (recorded : bool)
    (m : prog R) :
  actionPath ≠ p → orderly actionPath recorded m → spares p m.
Proof.
  intros Hne Hm. induction Hm; constructor; auto. by intros [err|created].
Qed.

Lemma actors_spare (p : string) (calls : list (string * string * string * bool)) :
  (∀ call, call ∈ calls → call.1.1.1 ≠ p) → Forall (spares p) (actors calls).
Proof.
  intros Hcalls. unfold actors. apply Forall_fmap, Forall_forall.
  intros [[[actionPath action] guid] force] Hin.
  eapply orderly_spares; [|apply HandleAction_orderly]. apply (Hcalls _ Hin).
Qed.

Lemma exec1_spares {R : Type} (q : string) (s s' : store) (p p' : prog R) (ev : event) :
  spares q p → exec1 s p = Some (s', p', ev) → spares q p'.
Proof.
  intros Hp. destruct Hp; cbn [exec1]; try discriminate.
  - by intros [= <- <- <-].
  - destruct (Zk.Set_ _ _ _ _). by intros [= <- <- <-].
  - destruct (Zk.Create _ _ _). by intros [= <- <- <-].
  - destruct (Zk.Delete _ _ _). by intros [= <- <- <-].
  - destruct (dispatchAction _ _) as [[n' err] s'']. by intros [= <- <- <-].
  - destruct (bool_decide _); [|discriminate]. by intros [= <- <- <-].
Qed.

(** A call of a program that spares the node at [q] leaves it there, and
    does not create it. *)
Lemma exec1_stays {R : Type} (q : string) (s s' : store) (p p' : prog R) (ev : event) :
  handlersKeep q → spares q p → exec1 s p = Some (s', p', ev) →
  is_Some (s !! q) → is_Some (s' !! q) ∧ creates q ev = false.
Proof.
  intros Hkeep Hp Hexec Hs. destruct Hp as [r|q' k Hk|q' data version k Hk|q' data k Hk
                                           |q' version k Hne Hk|n k Hk|q' k Hk];
    cbn [exec1] in Hexec; try discriminate.
  - by injection Hexec as <- _ <-.
  - unfold Zk.Set_ in Hexec. destruct (s !! q') as [zn|] eqn:Hq';
      [|by injection Hexec as <- _ <-].
    destruct (versionMatches _ _); injection Hexec as <- _ <-; [|done].
    split; [|done]. destruct (decide (q' = q)) as [->|Hne].
    + by rewrite lookup_insert_eq.
    + by rewrite lookup_insert_ne.
  - unfold Zk.Create in Hexec. destruct (negb _); [by injection Hexec as <- _ <-|].
    destruct (s !! q') as [zn|] eqn:Hq'; injection Hexec as <- _ <-; [done|].
    cbn [creates]. destruct (String.eqb_spec q' q) as [->|Hne].
    + rewrite Hq' in Hs. by destruct Hs.
    + by rewrite lookup_insert_ne.
  - unfold Zk.Delete in Hexec. destruct (s !! q'); [|by injection Hexec as <- _ <-].
    destruct (negb _); [by injection Hexec as <- _ <-|].
    destruct (hasChildren _ _); injection Hexec as <- _ <-; [done|].
    by rewrite lookup_delete_ne.
  - pose proof (Hkeep n s) as Hn.
    destruct (dispatchAction n s) as [[n' err] s'']. injection Hexec as <- _ <-.
    cbn in Hn. by rewrite Hn.
  - destruct (bool_decide _); [|discriminate]. by injection Hexec as <- _ <-.
Qed.

Lemma exec1_creates {R : Type} (q : string) (s s' : store) (p p' : prog R) (ev : event) :
  exec1 s p = Some (s', p', ev) → creates q ev = true → is_Some (s' !! q).
Proof.
  intros Hexec. destruct p as [r|q' k|q' data version k|q' data k|q' version k|n k|q' k];
    cbn [exec1] in Hexec; try discriminate.
  - by injection Hexec as _ _ <-.
  - destruct (Zk.Set_ _ _ _ _). by injection Hexec as _ _ <-.
  - unfold Zk.Create in Hexec. destruct (negb _); [by injection Hexec as _ _ <-|].
    destruct (s !! q'); injection Hexec as <- _ <-; [done|].
    cbn [creates]. intros ->%String.eqb_eq. by rewrite lookup_insert_eq.
  - destruct (Zk.Delete _ _ _). by injection Hexec as _ _ <-.
  - destruct (dispatchAction _ _) as [[n' err] s'']. by injection Hexec as _ _ <-.
  - destruct (bool_decide _); [|discriminate]. by injection Hexec as _ _ <-.
Qed.

Lemma runSched_no_create (q : string) (sched : list nat) (c : config (option error)) :
  handlersKeep q → Forall (spares q) (pool c) → is_Some (storeOf c !! q) →
  List.filter (λ e, creates q (what e)) (runSched sched c).2 = [].
Proof.
  intros Hkeep. revert c. induction sched as [|i sched IH]; intros c Hpool Hs; [done|].
  cbn [runSched].
  destruct (stepActor_cases i c) as [->|(p & s' & p' & ev & Hp & Hexec & ->)].
  - specialize (IH c Hpool Hs). by destruct (runSched sched c).
  - assert (Hp_spares : spares q p) by (eapply Forall_lookup_1; eauto).
    destruct (exec1_stays q _ _ _ _ _ Hkeep Hp_spares Hexec Hs) as [Hs' Hev].
    specialize (IH (mkConfig s' (<[i := p']> (pool c)))).
    destruct (runSched sched _) as [c' tr]. cbn [snd app List.filter what] in *.
    rewrite Hev. apply IH; [|done].
    cbn [pool]. apply Forall_insert; [done|]. by eapply exec1_spares.
Qed.

Lemma runSched_one_create (q : string) (sched : list nat) (c : config (option error)) :
  handlersKeep q → Forall (spares q) (pool c) →
  (length (List.filter (λ e, creates q (what e)) (runSched sched c).2) ≤ 1)%nat.
Proof.
  intros Hkeep. revert c. induction sched as [|i sched IH]; intros c Hpool; [cbn; lia|].
  cbn [runSched].
  destruct (stepActor_cases i c) as [->|(p & s' & p' & ev & Hp & Hexec & ->)].
  - specialize (IH c Hpool). by destruct (runSched sched c).
  - assert (Hp_spares : spares q p) by (eapply Forall_lookup_1; eauto).
    assert (Hpool' : Forall (spares q) (<[i := p']> (pool c))).
    { apply Forall_insert; [done|]. by eapply exec1_spares. }
    pose proof (IH (mkConfig s' (<[i := p']> (pool c))) Hpool') as IH1.
    pose proof (runSched_no_create q sched
                  (mkConfig s' (<[i := p']> (pool c))) Hkeep Hpool') as IH0.
    destruct (runSched sched _) as [c' tr]. cbn [snd app List.filter what] in *.
    destruct (creates q ev) eqn:Hev; [|done].
    rewrite IH0; [cbn; lia|]. cbn [storeOf]. by eapply exec1_creates.
Qed.

(** X3. Whatever actors run [HandleAction] and in whatever order their calls
    on the store are interleaved, at most one call creates the node at a path
    that is the action path of none of them and that the handlers leave
    alone: an actor deletes nothing but its own action node, so the record at
    a log path is written once and never replaced. *)
Theorem record_is_created_once (q : string)
    (calls : list (string * string * string * bool)) (sched : list nat) (s : store) :
  handlersKeep q →
  (∀ call, call ∈ calls → call.1.1.1 ≠ q) →
  (length (List.filter (λ e, creates q (what e))
             (runSched sched (mkConfig s (actors calls))).2) ≤ 1)%nat.
Proof.
  intros Hkeep Hcalls. apply runSched_one_create; [done|]. by apply actors_spare.
Qed.

(** *** What the actor cannot claim or cannot record *)

(** X4. [HandleAction] leaves alone what it cannot claim, also under
    [forceRerun]: when the action node is missing it returns the no-node
    error of the store, when the node does not decode it returns the error of
    the decoder, when the node is in state Failed it returns an error with
    the error text of the node, and when the node is in state Done it returns
    "Unexpected finished ActionNode in action queue".  In each case the [Get]
    is its only call and the store is as it was. *)
Theorem unclaimable_node_is_left_alone
    (s : store) (actionPath action actionGuid : string) (forceRerun : bool) (fuel : nat) :
  (s !! actionPath = None →
   run (1 + fuel) s (HandleAction actionPath action actionGuid forceRerun)
   = (s, Ret (Some (ZkError ZNONODE)), [EvGet actionPath (inl ZNONODE)]))
  ∧ (∀ (zn : znode) (err : error),
       s !! actionPath = Some zn →
       ActionNodeFromJson (zdata zn) actionPath = inl err →
       run (1 + fuel) s (HandleAction actionPath action actionGuid forceRerun)
       = (s, Ret (Some err), [EvGet actionPath (inr (zdata zn, zversion zn))]))
  ∧ (∀ (zn : znode) (actionNode : ActionNode),
       s !! actionPath = Some zn →
       ActionNodeFromJson (zdata zn) actionPath = inr actionNode →
       State actionNode = ACTION_STATE_FAILED →
       run (1 + fuel) s (HandleAction actionPath action actionGuid forceRerun)
       = (s, Ret (Some (Errorf (Error actionNode) [])),
          [EvGet actionPath (inr (zdata zn, zversion zn))]))
  ∧ (∀ (zn : znode) (actionNode : ActionNode),
       s !! actionPath = Some zn →
       ActionNodeFromJson (zdata zn) actionPath = inr actionNode →
       State actionNode = ACTION_STATE_DONE →
       run (1 + fuel) s (HandleAction actionPath action actionGuid forceRerun)
       = (s, Ret (Some (Errorf "Unexpected finished ActionNode in action queue: %v"
                          [actionPath])),
          [EvGet actionPath (inr (zdata zn, zversion zn))])).
Proof.
  change (1 + fuel)%nat with (S fuel).
  split; [|split; [|split]].
  - intros Hs. eapply run_step; [|apply run_Ret].
    cbn [HandleAction mbind prog_bind bind zconn_Get exec1]. unfold Zk.Get. by rewrite Hs.
  - intros zn err Hs Hjson. eapply run_step; [|apply run_Ret].
    cbn [HandleAction mbind prog_bind bind zconn_Get exec1]. unfold Zk.Get. rewrite Hs.
    cbn [bind]. by rewrite Hjson.
  - intros zn actionNode Hs Hjson Hstate. eapply run_step; [|apply run_Ret].
    cbn [HandleAction mbind prog_bind bind zconn_Get exec1]. unfold Zk.Get. rewrite Hs.
    cbn [bind]. rewrite Hjson, Hstate. reflexivity.
  - intros zn actionNode Hs Hjson Hstate. eapply run_step; [|apply run_Ret].
    cbn [HandleAction mbind prog_bind bind zconn_Get exec1]. unfold Zk.Get. rewrite Hs.
    cbn [bind]. rewrite Hjson, Hstate. reflexivity.
Qed.

(** X5. When the record of a dispatched action cannot be created, the action
    stays in the queue.  If the log path is taken, [HandleAction] returns the
    node-exists error of the store after the one failed [Create]; if neither
    the directory of the log path nor the directory above it exists, it
    returns the no-node error after the two failed [Create]s.  In both cases
    nothing is deleted, the store is as the handler left it, the error of the
    handler is not returned, and, the handlers leaving the action node alone,
    the node stays in state Running. *)
Theorem unrecorded_action_stays_queued
    (s : store) (actionPath action actionGuid : string) (forceRerun : bool)
    (zn : znode) (actionNode handled : ActionNode) (actionErr : option string)
    (s' : store) (fuel : nat) :
  s !! actionPath = Some zn →
  ActionNodeFromJson (zdata zn) actionPath = inr actionNode →
  claimable forceRerun actionNode →
  Action actionNode = action →
  ActionGuid actionNode = actionGuid →
  dispatchAction (set_State ACTION_STATE_RUNNING actionNode)
    (<[actionPath := mkZnode (ActionNodeToJson (set_State ACTION_STATE_RUNNING actionNode))
                             (zversion zn + 1)]> s)
  = (handled, actionErr, s') →
  (hasParent s' (ActionToActionLogPath actionPath) = true →
   is_Some (s' !! ActionToActionLogPath actionPath) →
   run (4 + fuel) s (HandleAction actionPath action actionGuid forceRerun)
   = (s', Ret (Some (ZkError ZNODEEXISTS)),
      [EvGet actionPath (inr (zdata zn, zversion zn));
       EvSet actionPath (ActionNodeToJson (set_State ACTION_STATE_RUNNING actionNode))
             (zversion zn) (inr (zversion zn + 1));
       EvDispatch (set_State ACTION_STATE_RUNNING actionNode) (handled, actionErr);
       EvCreate (ActionToActionLogPath actionPath)
         (ActionNodeToJson (terminalNode handled actionErr)) (inl ZNODEEXISTS)]))
  ∧ (hasParent s' (ActionToActionLogPath actionPath) = false →
     hasParent s' (Dir (ActionToActionLogPath actionPath)) = false →
     run (5 + fuel) s (HandleAction actionPath action actionGuid forceRerun)
     = (s', Ret (Some (ZkError ZNONODE)),
        [EvGet actionPath (inr (zdata zn, zversion zn));
         EvSet actionPath (ActionNodeToJson (set_State ACTION_STATE_RUNNING actionNode))
               (zversion zn) (inr (zversion zn + 1));
         EvDispatch (set_State ACTION_STATE_RUNNING actionNode) (handled, actionErr);
         EvCreate (ActionToActionLogPath actionPath)
           (ActionNodeToJson (terminalNode handled actionErr)) (inl ZNONODE);
         EvCreate (Dir (ActionToActionLogPath actionPath)) "" (inl ZNONODE)]))
  ∧ (handlersKeep actionPath → stateAt s' actionPath = Some ACTION_STATE_RUNNING).
Proof.
  intros Hs Hjson Hclaim <- <- Hdispatch.
  assert (Hdisp : exec1
            (<[actionPath := mkZnode (ActionNodeToJson
                                        (set_State ACTION_STATE_RUNNING actionNode))
                                     (zversion zn + 1)]> s)
            (HandleAction_claimed actionPath (Action actionNode) (ActionGuid actionNode)
               (set_State ACTION_STATE_RUNNING actionNode))
          = Some (s',
                  StoreActionResponse handled actionPath actionErr ≫= (λ err,
                    match err with
                    | Some err => mret (Some err)
                    | None =>
                        zkErr ← zconn_Delete actionPath (-1);
                        match zkErr with
                        | Some zkErr => mret (Some (ZkError zkErr))
                        | None => mret (ActionError <$> actionErr)
                        end
                    end),
                  EvDispatch (set_State ACTION_STATE_RUNNING actionNode)
                    (handled, actionErr))).
  { unfold HandleAction_claimed.
    change (Action (set_State ACTION_STATE_RUNNING actionNode)) with (Action actionNode).
    change (ActionGuid (set_State ACTION_STATE_RUNNING actionNode))
      with (ActionGuid actionNode).
    rewrite !String.eqb_refl. cbn [negb orb].
    cbn [mbind mret prog_ret prog_bind bind ta_dispatchAction exec1].
    rewrite Hdispatch. reflexivity. }
  split; [|split].
  - intros Hparent [existing Hexists].
    change (4 + fuel)%nat with (S (S (S (S fuel)))).
    eapply run_step; [by apply HandleAction_reads|].
    eapply run_step; [by apply HandleAction_claims|].
    eapply run_step; [exact Hdisp|].
    unfold StoreActionResponse. fold (terminalNode handled actionErr).
    eapply run_step; [|apply run_Ret].
    cbn [mbind mret prog_ret prog_bind bind zconn_Create exec1].
    unfold Zk.Create. rewrite Hparent, Hexists. reflexivity.
  - intros Hparent Hgrand.
    change (5 + fuel)%nat with (S (S (S (S (S fuel))))).
    eapply run_step; [by apply HandleAction_reads|].
    eapply run_step; [by apply HandleAction_claims|].
    eapply run_step; [exact Hdisp|].
    unfold StoreActionResponse. fold (terminalNode handled actionErr).
    eapply run_step.
    { cbn [mbind mret prog_ret prog_bind bind zconn_Create exec1].
      rewrite Create_orphan by done. reflexivity. }
    cbn [bind]. change (IsError ZNONODE ZNONODE) with true. cbv iota.
    eapply run_step; [|apply run_Ret].
    cbn [mbind mret prog_ret prog_bind bind zconn_Create exec1].
    rewrite Create_orphan by done. reflexivity.
  - intros Hkeep. pose proof (Hkeep (set_State ACTION_STATE_RUNNING actionNode)
                                (<[actionPath := mkZnode (ActionNodeToJson
                                      (set_State ACTION_STATE_RUNNING actionNode))
                                    (zversion zn + 1)]> s)) as Hkept.
    rewrite Hdispatch in Hkept. cbn [snd] in Hkept.
    unfold stateAt. rewrite Hkept. apply stateAt_insert.
Qed.

(** *** A running action *)

(** The wait for the record changes nothing. *)
Lemma WaitForCompletion_only_reads (s : store) (actionPath : string) (fuel : nat) :
  (run fuel s (WaitForCompletion actionPath)).1.1 = s
  ∧ Forall (λ ev, isRead ev = true) (run fuel s (WaitForCompletion actionPath)).2.
Proof.
  destruct fuel as [|fuel]; [by split|].
  cbn [run WaitForCompletion mbind prog_bind bind zconn_Watch exec1].
  destruct (bool_decide _); [|by split].
  destruct fuel as [|fuel]; [split; [done|by repeat constructor]|].
  cbn [bind mbind prog_bind run zconn_Get exec1].
  assert (Hret : ∀ (p : prog (option error)),
            (∃ r, p = Ret r) →
            (run fuel s p).1.1 = s ∧ (run fuel s p).2 = []).
  { intros p [r ->]. by rewrite run_Ret. }
  match goal with
  | |- context [run fuel s ?p] =>
      destruct (Hret p) as [Hs Htr]
  end.
  { destruct (Zk.Get s _) as [zkErr|[data stat]]; cbn [bind]; [by eexists|].
    destruct (ActionNodeFromJson _ _); [by eexists|].
    destruct (String.eqb _ _); by eexists. }
  destruct (run fuel s _) as [[s' p'] tr]. cbn [fst snd] in *. subst.
  split; [done|]. by repeat constructor.
Qed.

(** X6. An action that is running is not disturbed.  When the action node
    is in state Running and no rerun is forced, [HandleAction] changes
    nothing in the store however far it runs: after the [Get] of the action
    node it makes no call but the watch and the [Get] of the wait for the
    record, and as long as the log path does not exist it waits, the [Get]
    being its only call. *)
Theorem running_action_is_not_disturbed
    (s : store) (actionPath action actionGuid : string) (zn : znode)
    (actionNode : ActionNode) (fuel : nat) :
  s !! actionPath = Some zn →
  ActionNodeFromJson (zdata zn) actionPath = inr actionNode →
  State actionNode = ACTION_STATE_RUNNING →
  (run fuel s (HandleAction actionPath action actionGuid false)).1.1 = s
  ∧ Forall (λ ev, isRead ev = true)
      (run fuel s (HandleAction actionPath action actionGuid false)).2
  ∧ (s !! ActionToActionLogPath actionPath = None →
     run (1 + fuel) s (HandleAction actionPath action actionGuid false)
     = (s, WaitForCompletion actionPath, [EvGet actionPath (inr (zdata zn, zversion zn))])).
Proof.
  intros Hs Hjson Hstate.
  assert (Hget : exec1 s (HandleAction actionPath action actionGuid false)
                 = Some (s, WaitForCompletion actionPath,
                         EvGet actionPath (inr (zdata zn, zversion zn)))).
  { cbn [HandleAction mbind prog_bind bind zconn_Get exec1]. unfold Zk.Get. rewrite Hs.
    cbn [bind]. rewrite Hjson, Hstate. reflexivity. }
  assert (Hrun : (run fuel s (HandleAction actionPath action actionGuid false)).1.1 = s
                 ∧ Forall (λ ev, isRead ev = true)
                     (run fuel s (HandleAction actionPath action actionGuid false)).2).
  { destruct fuel as [|fuel]; [by split|]. cbn [run]. rewrite Hget.
    destruct (WaitForCompletion_only_reads s actionPath fuel) as [Hstore Hreads].
    destruct (run fuel s (WaitForCompletion actionPath)) as [[s' p'] tr].
    cbn [fst snd] in *. split; [done|]. by constructor. }
  split; [apply Hrun|]. split; [apply Hrun|].
  intros Hnone. change (1 + fuel)%nat with (S fuel).
  eapply run_step; [exact Hget|]. apply run_stuck.
  cbn [WaitForCompletion mbind prog_bind bind zconn_Watch exec1].
  rewrite bool_decide_eq_false_2; [done|]. rewrite Hnone. by intros [? ?].
Qed.

(** *** The number of the calls *)

Lemma within_le {R : Type} (n m : nat) (p : prog R) :
  within n p → (n ≤ m)%nat → within m p.
Proof.
  intros Hp. revert m. induction Hp; intros m Hm; [constructor|..];
    (destruct m as [|m]; [lia|]); constructor; intros r; apply H2; lia.
Qed.

Lemma within_bind {A B : Type} (n k : nat) (m : prog A) (f : A → prog B) :
  within n m → (∀ a, within k (f a)) → within (n + k) (bind m f).
Proof.
  intros Hm Hf. induction Hm; cbn [bind].
  - apply (within_le k); [done|lia].
  - constructor. auto.
  - constructor. auto.
  - constructor. auto.
  - constructor. auto.
  - constructor. auto.
  - constructor. auto.
Qed.

Lemma WaitForCompletion_within (actionPath : string) :
  within 2 (WaitForCompletion actionPath).
Proof.
  unfold WaitForCompletion. cbn [mbind prog_bind bind zconn_Watch zconn_Get].
  constructor. intros _. constructor. intros [zkErr|[data stat]]; cbn [bind]; [constructor|].
  destruct (ActionNodeFromJson _ _); [constructor|].
  destruct (String.eqb _ _); constructor.
Qed.

Lemma StoreActionResponse_within (actionNode : ActionNode) (actionPath : string)
    (actionErr : option string) :
  within 3 (StoreActionResponse actionNode actionPath actionErr).
Proof.
  unfold StoreActionResponse. cbn [mbind prog_bind bind zconn_Create].
  constructor. intros [err|created]; cbn [bind]; [|constructor].
  destruct (IsError err ZNONODE); [|constructor].
  cbn [mbind prog_bind bind zconn_Create]. constructor.
  intros [err'|created]; cbn [bind]; [constructor|].
  constructor. intros [err'|created']; cbn [bind]; constructor.
Qed.

Lemma HandleAction_claimed_within (actionPath action actionGuid : string)
    (actionNode : ActionNode) :
  within 5 (HandleAction_claimed actionPath action actionGuid actionNode).
Proof.
  unfold HandleAction_claimed. destruct (_ || _); [constructor|].
  cbn [mbind prog_bind bind ta_dispatchAction]. constructor. intros [handled actionErr].
  cbn [bind]. apply (within_bind 3 1); [apply StoreActionResponse_within|].
  intros [err|]; [constructor|]. cbn [mbind prog_bind bind zconn_Delete].
  constructor. intros [zkErr|]; cbn [bind]; constructor.
Qed.

Lemma HandleAction_claim_within (actionPath action actionGuid : string)
    (actionNode : ActionNode) (stat : Z) :
  within 6 (HandleAction_claim actionPath action actionGuid actionNode stat).
Proof.
  unfold HandleAction_claim. cbn [mbind prog_bind bind zconn_Set].
  constructor. intros [zkErr|version]; cbn [bind].
  - destruct (IsError zkErr ZBADVERSION); [|constructor].
    apply (within_le 2); [apply WaitForCompletion_within|lia].
  - apply HandleAction_claimed_within.
Qed.

Lemma HandleAction_within (actionPath action actionGuid : string) (forceRerun : bool) :
  within 7 (HandleAction actionPath action actionGuid forceRerun).
Proof.
  unfold HandleAction. cbn [mbind prog_bind bind zconn_Get].
  constructor. intros [zkErr|[data stat]]; cbn [bind]; [constructor|].
  destruct (ActionNodeFromJson _ _) as [err|actionNode]; [constructor|].
  repeat (destruct (String.eqb _ _)); try destruct (negb _);
    first [apply HandleAction_claim_within
          | apply (within_le 2); [apply WaitForCompletion_within|lia]
          | constructor].
Qed.

(** A program within [n] calls makes no more, and has come to its end after
    them: it has returned, or it waits at a watch. *)
Lemma run_within {R : Type} (n : nat) (p : prog R) :
  within n p →
  ∀ (fuel : nat) (s : store),
    (length (run fuel s p).2 ≤ n)%nat
    ∧ ((n ≤ fuel)%nat → exec1 (run fuel s p).1.1 (run fuel s p).1.2 = None).
Proof.
  intros Hp fuel. revert n p Hp. induction fuel as [|fuel IH]; intros n p Hp s.
  - cbn [run fst snd length]. split; [lia|]. intros Hn.
    assert (n = 0%nat) as -> by lia. by inversion Hp.
  - cbn [run]. destruct (exec1 s p) as [[[s' p'] ev]|] eqn:Hexec.
    2:{ cbn [fst snd length]. split; [lia|done]. }
    assert (Hnext : ∃ m, n = S m ∧ within m p').
    { destruct Hp; cbn [exec1] in Hexec; try discriminate.
      - injection Hexec as <- <- <-. eauto.
      - destruct (Zk.Set_ _ _ _ _). injection Hexec as <- <- <-. eauto.
      - destruct (Zk.Create _ _ _). injection Hexec as <- <- <-. eauto.
      - destruct (Zk.Delete _ _ _). injection Hexec as <- <- <-. eauto.
      - destruct (dispatchAction _ _) as [[n' err] s'']. injection Hexec as <- <- <-. eauto.
      - destruct (bool_decide _); [|discriminate]. injection Hexec as <- <- <-. eauto. }
    destruct Hnext as (m & -> & Hp').
    destruct (IH m p' Hp' s') as [Hlen Hend].
    destruct (run fuel s' p') as [[s'' p''] tr]. cbn [fst snd length] in *.
    split; [lia|]. intros Hfuel. apply Hend. lia.
Qed.

(** What is left of an orderly program is orderly. *)
Lemma run_orderly {R : Type} (actionPath : string) (fuel : nat) (s : store) (p : prog R)
    (recorded : bool) :
  orderly actionPath recorded p →
  ∃ recorded', orderly actionPath recorded' (run fuel s p).1.2.
Proof.
  revert s p recorded. induction fuel as [|fuel IH]; intros s p recorded Hp; [by eexists|].
  cbn [run]. destruct (exec1 s p) as [[[s' p'] ev]|] eqn:Hexec; [|by eexists].
  assert (Hnext : ∃ recorded', orderly actionPath recorded' p').
  { destruct Hp; cbn [exec1] in Hexec; try discriminate.
    - injection Hexec as <- <- <-. eauto.
    - destruct (Zk.Set_ _ _ _ _). injection Hexec as <- <- <-. eauto.
    - destruct (Zk.Create _ _ _) as [[err|created] s'']; injection Hexec as <- <- <-; eauto.
    - destruct (Zk.Delete _ _ _). injection Hexec as <- <- <-. eauto.
    - destruct (dispatchAction _ _) as [[n' err] s'']. injection Hexec as <- <- <-. eauto.
    - destruct (bool_decide _); [|discriminate]. injection Hexec as <- <- <-. eauto. }
  destruct Hnext as [recorded' Hp'].
  destruct (IH s' p' recorded' Hp') as [recorded'' Hleft].
  destruct (run fuel s' p') as [[s'' p''] tr]. by exists recorded''.
Qed.

(** X7. [HandleAction] comes to its end within seven calls.  On any store
    it makes at most seven calls on the store and on the handlers (the [Get],
    the [Set], the dispatch, three [Create]s at most, the [Delete]); and once
    it has been given seven calls it has returned or it waits, at the watch
    of a log path that does not exist, for the record of the actor that has
    claimed the action. *)
Theorem HandleAction_ends_within_seven_calls
    (s : store) (actionPath action actionGuid : string) (forceRerun : bool) (fuel : nat) :
  (length (run fuel s (HandleAction actionPath action actionGuid forceRerun)).2 ≤ 7)%nat
  ∧ ((7 ≤ fuel)%nat →
     (∃ r, (run fuel s (HandleAction actionPath action actionGuid forceRerun)).1.2 = Ret r)
     ∨ (∃ k, (run fuel s (HandleAction actionPath action actionGuid forceRerun)).1.2
             = OpWatch (ActionToActionLogPath actionPath) k
             ∧ (run fuel s (HandleAction actionPath action actionGuid forceRerun)).1.1
               !! ActionToActionLogPath actionPath = None)).
Proof.
  destruct (run_within 7 _ (HandleAction_within actionPath action actionGuid forceRerun)
              fuel s) as [Hlen Hend].
  split; [exact Hlen|]. intros Hfuel. specialize (Hend Hfuel).
  pose proof (run_orderly actionPath fuel s _ false
                (HandleAction_orderly actionPath action actionGuid forceRerun))
    as Horder.
  destruct (run fuel s _) as [[s' p'] tr]. cbn [fst snd] in *.
  destruct Horder as [recorded Hp'].
  destruct Hp'; cbn [exec1] in Hend; try discriminate.
  - left. by eexists.
  - destruct (Zk.Set_ _ _ _ _). discriminate.
  - destruct (Zk.Create _ _ _). discriminate.
  - destruct (Zk.Delete _ _ _). discriminate.
  - destruct (dispatchAction _ _) as [[n' err] s'']. discriminate.
  - right. exists k. split; [done|].
    destruct (bool_decide _) eqn:Hb; [discriminate|].
    apply bool_decide_eq_false in Hb. by apply eq_None_not_Some.
Qed.

End WithEnvironment.

Import ActorScenario.

#[local] Existing Instance environment_codec.

Lemma HandleAction_calls_in_order_witness :
  inOrder pingPath false (run 7 pingStore (HandleAction pingPath "Ping" "guid-1" false)).2
  ∧ (run 7 pingStore (HandleAction pingPath "Ping" "guid-1" false)).2 !! 6%nat
    = Some (EvDelete pingPath (-1) None)
  ∧ ∃ (j : nat) (data created : string),
      (j < 6)%nat
      ∧ (run 7 pingStore (HandleAction pingPath "Ping" "guid-1" false)).2 !! j
        = Some (EvCreate pingLogPath data (inr created)).
Proof.
  destruct (HandleAction_calls_in_order 7 pingStore pingPath "Ping" "guid-1" false)
    as [Horder Hdelete].
  assert (Hlast : (run 7 pingStore (HandleAction pingPath "Ping" "guid-1" false)).2 !! 6%nat
                  = Some (EvDelete pingPath (-1) None)) by (vm_compute; reflexivity).
  split; [exact Horder|]. split; [exact Hlast|].
  destruct (Hdelete 6%nat pingPath (-1) None Hlast) as [_ Hcreated]. exact Hcreated.
Defined.

Lemma record_is_created_once_witness :
  (length (List.filter (λ e, creates pingLogPath (what e))
             (runSched raceSchedule
                (mkConfig pingStore (actors [(pingPath, "Ping", "guid-1", false);
                                             (pingPath, "Ping", "guid-1", false)]))).2)
   ≤ 1)%nat.
Proof.
  apply record_is_created_once; [apply pingOnly_keeps|].
  intros call Hcall.
  repeat (apply elem_of_cons in Hcall as [->|Hcall]; [vm_compute; discriminate|]).
  by apply elem_of_nil in Hcall.
Defined.

Lemma unclaimable_node_is_left_alone_witness :
  run 1 pingStore (HandleAction pingLogPath "Ping" "guid-1" false)
  = (pingStore, Ret (Some (ZkError ZNONODE)), [EvGet pingLogPath (inl ZNONODE)])
  ∧ run 1 doneStore (HandleAction pingPath "Ping" "guid-1" true)
    = (doneStore,
       Ret (Some (Errorf "Unexpected finished ActionNode in action queue: %v" [pingPath])),
       [EvGet pingPath (inr (toJson donePing, 1))]).
Proof.
  split.
  - apply (proj1 (unclaimable_node_is_left_alone pingStore pingLogPath "Ping" "guid-1"
                    false 0)).
    vm_compute. reflexivity.
  - apply (proj2 (proj2 (proj2 (unclaimable_node_is_left_alone doneStore pingPath "Ping"
                                  "guid-1" true 0)))
             (mkZnode (toJson donePing) 1) donePing).
    + vm_compute. reflexivity.
    + vm_compute. reflexivity.
    + reflexivity.
Defined.

Lemma unrecorded_action_stays_queued_witness :
  run 4 loggedStore (HandleAction pingPath "Ping" "guid-1" false)
  = (<[pingPath := mkZnode (toJson runningPing) 1]> loggedStore,
     Ret (Some (ZkError ZNODEEXISTS)),
     [EvGet pingPath (inr (toJson queuedPing, 0));
      EvSet pingPath (toJson runningPing) 0 (inr 1);
      EvDispatch runningPing (runningPing, None);
      EvCreate pingLogPath (toJson donePing) (inl ZNODEEXISTS)])
  ∧ stateAt (<[pingPath := mkZnode (toJson runningPing) 1]> loggedStore) pingPath
    = Some ACTION_STATE_RUNNING.
Proof.
  assert (Hs : loggedStore !! pingPath = Some (mkZnode (toJson queuedPing) 0)).
  { vm_compute. reflexivity. }
  assert (Hjson : ActionNodeFromJson (toJson queuedPing) pingPath = inr queuedPing).
  { vm_compute. reflexivity. }
  assert (Hclaim : claimable false queuedPing).
  { unfold claimable. repeat split; vm_compute; discriminate. }
  destruct (unrecorded_action_stays_queued loggedStore pingPath "Ping" "guid-1" false
              (mkZnode (toJson queuedPing) 0) queuedPing runningPing None
              (<[pingPath := mkZnode (toJson runningPing) 1]> loggedStore) 0
              Hs Hjson Hclaim eq_refl eq_refl eq_refl) as (Htaken & _ & Hstays).
  split.
  - apply Htaken.
    + vm_compute. reflexivity.
    + eexists. vm_compute. reflexivity.
  - apply Hstays, pingOnly_keeps.
Defined.

Lemma running_action_is_not_disturbed_witness :
  run 1 claimedStore (HandleAction pingPath "Ping" "guid-1" false)
  = (claimedStore, WaitForCompletion pingPath,
     [EvGet pingPath (inr (toJson runningPing, 1))]).
Proof.
  assert (Hs : claimedStore !! pingPath = Some (mkZnode (toJson runningPing) 1)).
  { vm_compute. reflexivity. }
  assert (Hjson : ActionNodeFromJson (toJson runningPing) pingPath = inr runningPing).
  { vm_compute. reflexivity. }
  apply (proj2 (proj2 (running_action_is_not_disturbed claimedStore pingPath "Ping" "guid-1"
                         (mkZnode (toJson runningPing) 1) runningPing 0 Hs Hjson eq_refl))).
  vm_compute. reflexivity.
Defined.

Lemma HandleAction_ends_within_seven_calls_witness :
  (length (run 9 pingStore (HandleAction pingPath "Ping" "guid-1" false)).2 ≤ 7)%nat
  ∧ (run 9 pingStore (HandleAction pingPath "Ping" "guid-1" false)).1.2 = Ret None.
Proof.
  destruct (HandleAction_ends_within_seven_calls pingStore pingPath "Ping" "guid-1" false 9)
    as [Hcalls Hend].
  split; [exact Hcalls|].
  destruct Hend as [[r Hr]|(k & Hk & _)]; [lia| |].
  - rewrite Hr. f_equal. vm_compute in Hr. by injection Hr as <-.
  - vm_compute in Hk. discriminate Hk.
Defined.

End ActorOrderFacts.

(** ** vt_binlog_server.go: the statements handed to the parser *)

Module ParserLineFacts.
Import GoBytes Mysqlctl BinlogServer.

Lemma lowerAscii_not_U (c : ascii) : lowerAscii c ≠ "U"%char.
Proof.
  destruct c as [[] [] [] [] [] [] [] []]; vm_compute; discriminate.
Qed.

(** A lower-cased keyword is not the "Use " that [parseDbChange] looks for. *)
Lemma ToLower_not_USE (s : string) : String.eqb (ToLower s) USE = false.
Proof.
  apply String.eqb_neq. destruct s as [|c s]; cbn [ToLower]; [discriminate|].
  intros [= Hc _]. by apply lowerAscii_not_U in Hc.
Qed.

(** *** A statement and its delimiter *)

Lemma prefix_length (p s : string) :
  String.prefix p s = true → (String.length p ≤ String.length s)%nat.
Proof.
  revert s. induction p as [|c p IH]; intros s; [cbn; lia|].
  destruct s as [|d s]; cbn [String.prefix]; [discriminate|].
  destruct (ascii_dec c d); [|discriminate]. intros Hp%IH. cbn [String.length]. lia.
Qed.

Lemma findLast_short (sep s : string) :
  (String.length s < String.length sep)%nat → findLast sep s = None.
Proof.
  induction s as [|c s IH]; intros Hlen; cbn [findLast].
  - destruct (String.prefix sep "") eqn:Hp; [|done].
    apply prefix_length in Hp. lia.
  - rewrite IH by (cbn [String.length] in Hlen; lia).
    destruct (String.prefix sep (String c s)) eqn:Hp; [|done].
    apply prefix_length in Hp. lia.
Qed.

Lemma prefix_refl (s : string) : String.prefix s s = true.
Proof.
  induction s as [|c s IH]; [done|]. cbn [String.prefix].
  by destruct (ascii_dec c c).
Qed.

(** The last delimiter of a statement that ends with one is at its end. *)
Lemma findLast_end (sep s : string) :
  sep ≠ "" → findLast sep (s +:+ sep) = Some (String.length s).
Proof.
  intros Hsep. induction s as [|c s IH].
  - change ("" +:+ sep) with sep. destruct sep as [|d sep]; [done|].
    cbn [findLast String.length]. rewrite findLast_short by (cbn [String.length]; lia).
    by rewrite prefix_refl.
  - change (String c s +:+ sep) with (String c (s +:+ sep)).
    cbn [findLast String.length]. by rewrite IH.
Qed.

Lemma sliceTo_app (s t : string) : sliceTo (String.length s) (s +:+ t) = s.
Proof.
  unfold sliceTo. induction s as [|c s IH].
  - change ("" +:+ t) with t. cbn [String.length]. by destruct t.
  - change (String c s +:+ t) with (String c (s +:+ t)).
    cbn [String.length substring]. by rewrite IH.
Qed.

Lemma sliceTo_head (i : nat) (s : string) (c : ascii) (r : string) :
  sliceTo i s = String c r → ∃ s', s = String c s'.
Proof.
  unfold sliceTo. destruct s as [|d s]; [by destruct i|].
  destruct i as [|i]; cbn [substring]; [discriminate|]. intros [= -> _]. eauto.
Qed.

Lemma SplitN2_first_head (s sep : string) (c : ascii) (r : string) :
  SplitN2_first s sep = String c r → ∃ s', s = String c s'.
Proof.
  unfold SplitN2_first. destruct (find sep s) as [i|]; [apply sliceTo_head|eauto].
Qed.

(** The keywords of the DML statements. *)
Lemma GetSqlType_DML (kw : string) :
  GetSqlType kw = DML → kw = "insert" ∨ kw = "update" ∨ kw = "delete".
Proof.
  unfold GetSqlType, sqlKwMap. cbn [lookupKw].
  repeat match goal with
         | |- context [String.eqb ?k kw] =>
             destruct (String.eqb_spec k kw) as [<-|_]; [vm_compute; intros Hty; auto; discriminate Hty|]
         end.
  discriminate.
Qed.

Lemma lowerAscii_head (c : ascii) :
  lowerAscii c = "i"%char ∨ lowerAscii c = "u"%char ∨ lowerAscii c = "d"%char →
  c ≠ "S"%char ∧ c ≠ "B"%char ∧ c ≠ "R"%char ∧ c ≠ "C"%char.
Proof.
  intros Hc. repeat split; intros ->; vm_compute in Hc;
    destruct Hc as [Hc|[Hc|Hc]]; discriminate Hc.
Qed.

(** A DML statement begins with none of the words that [parseEventData]
    looks for first, and is not empty. *)
Lemma dml_statement (sql : string) :
  GetSqlType (ToLower (SplitN2_first sql SPACE)) = DML →
  HasPrefix sql BINLOG_SET_TIMESTAMP = false
  ∧ HasPrefix sql BINLOG_BEGIN = false
  ∧ HasPrefix sql BINLOG_ROLLBACK = false
  ∧ HasPrefix sql BINLOG_COMMIT = false
  ∧ (0 <? String.length sql)%nat = true.
Proof.
  intros Hdml. apply GetSqlType_DML in Hdml.
  assert (Hhead : ∃ c r, SplitN2_first sql SPACE = String c r
                         ∧ (lowerAscii c = "i"%char ∨ lowerAscii c = "u"%char
                            ∨ lowerAscii c = "d"%char)).
  { destruct (SplitN2_first sql SPACE) as [|c r].
    - cbn in Hdml. destruct Hdml as [Hd|[Hd|Hd]]; discriminate Hd.
    - exists c, r. split; [done|]. cbn [ToLower] in Hdml.
      destruct Hdml as [Hd|[Hd|Hd]]; injection Hd as Hd _; auto. }
  destruct Hhead as (c & r & Hfirst & Hc).
  apply SplitN2_first_head in Hfirst as [sql' ->].
  apply lowerAscii_head in Hc as (HS & HB & HR & HC).
  cbv [HasPrefix BINLOG_SET_TIMESTAMP BINLOG_BEGIN BINLOG_ROLLBACK BINLOG_COMMIT].
  cbn [String.prefix String.length].
  repeat split;
    match goal with
    | |- (if ascii_dec ?a c then _ else _) = false =>
        destruct (ascii_dec a c) as [Heq|_]; [by symmetry in Heq|done]
    | |- _ => done
    end.
Qed.

Section WithExternals.
Context `{Externals}.

Ltac break_match_in H :=
  repeat match type of H with
    | context [match ?x with _ => _ end] =>
        lazymatch x with
        | context [match _ with _ => _ end] => fail
        | _ => destruct x eqn:?; try discriminate H
        end
    end.

Lemma parseDbChange_lower (blp : Blp) (event : eventBuffer) (s : string) :
  parseDbChange blp (set_firstKw (ToLower s) event) = Ok blp.
Proof.
  unfold parseDbChange. cbn [firstKw set_firstKw]. by rewrite ToLower_not_USE.
Qed.

Lemma parsePositionData_dbmatch (blp blp' : Blp) (line : string) :
  parsePositionData blp line = Ok blp' → dbmatch blp' = dbmatch blp.
Proof.
  unfold parsePositionData, parseRotateEvent, parseMasterPosition, parseXid, at_.
  cbv [mbind result_bind panic]. intros Hp.
  break_match_in Hp; injection Hp as <-; done.
Qed.

Lemma parseEventData_dbmatch (blp blp' : Blp) (event : eventBuffer) :
  parseEventData blp event = Ok blp' → dbmatch blp' = dbmatch blp.
Proof.
  unfold parseEventData, extractEventTimestamp, handleBeginEvent, handleCommitEvent,
    handleDdlEvent, sendStream.
  cbv [mbind result_bind panic]. intros Hp.
  break_match_in Hp; injection Hp as <-; done.
Qed.

Lemma parseLine_dbmatch (st st' : loopState) (line : string) :
  parseLine st line = Ok st' → dbmatch (blpOf st') = dbmatch (blpOf st).
Proof.
  unfold parseLine. destruct line as [|c line]; [by intros [= <-]|].
  set (body := if initialSeek (blpOf st) && _ && _ then _ else _).
  assert (Hbody : body = Ok st' → dbmatch (blpOf st') = dbmatch (blpOf st)).
  { subst body. destruct (_ && _ && _); [by intros [= <-]|].
    destruct (findLast _ _); [|by intros [= <-]].
    rewrite parseDbChange_lower. cbv [mbind result_bind].
    destruct (parseEventData _ _) as [blp2|] eqn:Hev; [|discriminate].
    intros [= <-]. cbn [blpOf]. by apply parseEventData_dbmatch in Hev. }
  destruct (Ascii.eqb_spec c "#"%char) as [->|Hc].
  - cbv [mbind result_bind].
    destruct (parsePositionData _ _) as [blp1|] eqn:Hpos; [|discriminate].
    intros [= <-]. cbn [blpOf]. by apply parsePositionData_dbmatch in Hpos.
  - intros Hout. apply Hbody. rewrite <- Hout. subst body.
    destruct c as [[] [] [] [] [] [] [] []]; first [reflexivity | by destruct Hc].
Qed.

(** X8. The binlog server never sees a change of database.  [parseDbChange]
    compares the first keyword of the statement with "Use ", and the loop has
    made that keyword of the text before the first space, in lower case: it
    holds no space and no capital letter.  So [parseDbChange] changes nothing
    for any statement the loop hands it, no run of the loop changes
    [dbmatch], and a parser made by [NewBlp] keeps it true: the commits of
    every database are processed, whatever database the subscriber names. *)
Theorem database_change_is_never_seen :
  (∀ (blp : Blp) (event : eventBuffer) (line : string),
     parseDbChange blp (set_firstKw (ToLower (SplitN2_first line SPACE)) event) = Ok blp)
  ∧ (∀ (lines : list string) (st st' : loopState),
       parseBinlogEvents st lines = Ok st' → dbmatch (blpOf st') = dbmatch (blpOf st))
  ∧ (∀ (start : ReplicationCoordinates) (db : string) (kr : Key.KeyRange)
       (lines : list string) (st' : loopState),
       parseBinlogEvents (startLoop (NewBlp start db kr)) lines = Ok st' →
       dbmatch (blpOf st') = true).
Proof.
  assert (Hrun : ∀ (lines : list string) (st st' : loopState),
            parseBinlogEvents st lines = Ok st' → dbmatch (blpOf st') = dbmatch (blpOf st)).
  { induction lines as [|line lines IH]; intros st st'; cbn [parseBinlogEvents].
    - by intros [= <-].
    - cbv [mbind result_bind]. destruct (parseLine st line) as [st1|] eqn:Hline; [|discriminate].
      intros Hrest. rewrite (IH _ _ Hrest). by apply parseLine_dbmatch in Hline. }
  split; [|split; [exact Hrun|]].
  - intros blp event line. apply parseDbChange_lower.
  - intros start db kr lines st' Hout. by rewrite (Hrun _ _ _ Hout).
Qed.

(** *** Statements over several lines *)

Lemma parseLine_event_line (st : loopState) (c : ascii) (line : string) :
  c ≠ "#"%char →
  parseLine st (String c line)
  = if initialSeek (blpOf st) && usingRelayLogs (blpOf st)
       && (nextStmtPosition (blpOf st) <? MasterPosition (startPosition (blpOf st)))
    then Ok st
    else
      let event :=
        if readAhead st
        then set_LogLine (LogLine (event st) +:+ String c line) (event st)
        else NewEventBuffer (currentPosition (blpOf st)) (String c line) in
      match findLast BINLOG_DELIMITER (LogLine event) with
      | None => Ok (mkLoop (blpOf st) true event)
      | Some delimIndex =>
          let event := set_LogLine (sliceTo delimIndex (LogLine event)) event in
          let event := set_LogLine (TrimSpace (LogLine event)) event in
          let event :=
            set_firstKw (ToLower (SplitN2_first (LogLine event) SPACE)) event in
          blp ← parseDbChange (blpOf st) event;
          blp ← parseEventData blp event;
          Ok (mkLoop blp false event)
      end.
Proof.
  intros Hc. unfold parseLine.
  destruct c as [[] [] [] [] [] [] [] []]; first [reflexivity | by destruct Hc].
Qed.

Lemma string_app_assoc (a b c : string) : (a +:+ b) +:+ c = a +:+ (b +:+ c).
Proof.
  induction a as [|x a IH]; [done|].
  change (String x ((a +:+ b) +:+ c) = String x (a +:+ (b +:+ c))). by rewrite IH.
Qed.

(** X9. A statement that spans two lines is parsed as the two lines put
    end to end, with nothing between them.  When the first line is no
    position line and leaves the loop reading ahead (it holds no delimiter),
    and the second line is no position line, the loop is after the two lines
    where it is after the single line made of both, be it a state or a
    panic. *)
Theorem statement_is_joined_across_lines (st st1 : loopState) (line1 line2 : string) :
  eventLine line1 → eventLine line2 →
  parseLine st line1 = Ok st1 →
  readAhead st1 = true →
  parseBinlogEvents st [line1; line2] = parseLine st (line1 +:+ line2).
Proof.
  intros H1 H2 Hline Hahead. cbn [parseBinlogEvents]. rewrite Hline.
  cbv [mbind result_bind].
  assert (Hnil : ∀ st0 : loopState, parseLine st0 "" = Ok st0) by done.
  destruct line1 as [|c1 line1].
  { injection Hline as <-. change ("" +:+ line2) with line2.
    by destruct (parseLine st line2). }
  destruct line2 as [|c2 line2].
  { rewrite Hnil. replace (String c1 line1 +:+ "") with (String c1 line1); [done|].
    clear. generalize (String c1 line1). intros s. induction s as [|x s IH]; [done|].
    change (String x s = String x (s +:+ "")). by rewrite <- IH. }
  cbn [eventLine] in H1, H2.
  change (String c1 line1 +:+ String c2 line2)
    with (String c1 (line1 +:+ String c2 line2)).
  rewrite parseLine_event_line in Hline by done.
  rewrite !parseLine_event_line by done.
  destruct (initialSeek (blpOf st) && usingRelayLogs (blpOf st)
            && (nextStmtPosition (blpOf st) <? MasterPosition (startPosition (blpOf st))))
    eqn:Hskip.
  { injection Hline as <-. by rewrite Hskip. }
  cbv zeta in Hline.
  destruct (findLast BINLOG_DELIMITER _) as [i|] eqn:Hdelim in Hline.
  { cbv [mbind result_bind] in Hline.
    destruct (parseDbChange _ _); [|discriminate].
    destruct (parseEventData _ _); [|discriminate].
    injection Hline as <-. discriminate Hahead. }
  injection Hline as <-. cbn [blpOf readAhead event]. rewrite Hskip.
  assert (Hev : set_LogLine
                  (LogLine (if readAhead st
                            then set_LogLine (LogLine (event st) +:+ String c1 line1)
                                   (event st)
                            else NewEventBuffer (currentPosition (blpOf st))
                                   (String c1 line1))
                   +:+ String c2 line2)
                  (if readAhead st
                   then set_LogLine (LogLine (event st) +:+ String c1 line1) (event st)
                   else NewEventBuffer (currentPosition (blpOf st)) (String c1 line1))
                = if readAhead st
                  then set_LogLine
                         (LogLine (event st) +:+ String c1 (line1 +:+ String c2 line2))
                         (event st)
                  else NewEventBuffer (currentPosition (blpOf st))
                         (String c1 (line1 +:+ String c2 line2))).
  { destruct (readAhead st).
    - cbn [LogLine set_LogLine evPosition firstKw]. by rewrite string_app_assoc.
    - reflexivity. }
  cbv zeta. rewrite Hev.
  match goal with |- match ?x with _ => _ end = _ => by destruct x end.
Qed.


(** X10. A DML statement outside a transaction ends the stream.  When the
    loop is not in a transaction, is not reading ahead and is not seeking,
    a line that holds a whole statement (the statement and the delimiter)
    whose first keyword, in lower case, is insert, update or delete makes the
    parser panic with "DML outside a txn", naming the statement without the
    space around it and the lines of the buffer: nothing is buffered and
    nothing is sent. *)
Theorem dml_outside_a_transaction_ends_the_stream (st : loopState) (statement : string) :
  eventLine statement →
  readAhead st = false →
  initialSeek (blpOf st) && usingRelayLogs (blpOf st)
  && (nextStmtPosition (blpOf st) <? MasterPosition (startPosition (blpOf st))) = false →
  inTxn (blpOf st) = false →
  GetSqlType (ToLower (SplitN2_first (TrimSpace statement) SPACE)) = DML →
  parseLine st (statement +:+ BINLOG_DELIMITER)
  = Panic (PanicParse (ErrDmlOutsideTxn (length (txnLineBuffer (blpOf st)))
                         (TrimSpace statement)
                         (map LogLine (txnLineBuffer (blpOf st))))).
Proof.
  intros Hline Hahead Hseek Htxn Hdml.
  destruct statement as [|c statement]; [vm_compute in Hdml; discriminate Hdml|].
  cbn [eventLine] in Hline.
  change (String c statement +:+ BINLOG_DELIMITER)
    with (String c (statement +:+ BINLOG_DELIMITER)).
  rewrite parseLine_event_line by done. rewrite Hseek, Hahead. cbv zeta.
  change (String c (statement +:+ BINLOG_DELIMITER))
    with (String c statement +:+ BINLOG_DELIMITER).
  cbn [LogLine NewEventBuffer set_LogLine].
  rewrite findLast_end by discriminate. rewrite sliceTo_app.
  rewrite parseDbChange_lower. cbv [mbind result_bind].
  destruct (dml_statement _ Hdml) as (Hts & Hb & Hr & Hc & Hlen).
  unfold parseEventData. cbn [LogLine set_LogLine set_firstKw firstKw].
  rewrite Hts, Hb, Hr, Hc, Hlen, Htxn, Hdml. cbn [andb].
  reflexivity.
Qed.

(** X11. On relay logs the statements before the start position are dropped.
    As long as the parser is in its initial seek on relay logs and the
    position of the next statement is below the master position it was
    started at, the lines that are no position lines leave it as it is:
    nothing is buffered or sent, no transaction begins, and no SET TIMESTAMP
    ends the seek. *)
Theorem statements_before_the_start_position_are_dropped
    (st : loopState) (lines : list string) :
  initialSeek (blpOf st) = true →
  usingRelayLogs (blpOf st) = true →
  nextStmtPosition (blpOf st) < MasterPosition (startPosition (blpOf st)) →
  Forall eventLine lines →
  parseBinlogEvents st lines = Ok st.
Proof.
  intros Hseek Hrelay Hbefore Hlines.
  induction Hlines as [|line lines Hline _ IH]; [done|].
  cbn [parseBinlogEvents].
  assert (Hskip : parseLine st line = Ok st).
  { destruct line as [|c line]; [done|]. cbn [eventLine] in Hline.
    rewrite parseLine_event_line by done. rewrite Hseek, Hrelay.
    destruct (Z.ltb_spec (nextStmtPosition (blpOf st))
                (MasterPosition (startPosition (blpOf st)))); [done|lia]. }
  rewrite Hskip. exact IH.
Qed.

End WithExternals.

Import Scenario.

Lemma database_change_is_never_seen_witness :
  ∃ st' : loopState,
    parseBinlogEvents (startLoop dbSubscriber) otherDb = Ok st'
    ∧ dbmatch (blpOf st') = true
    ∧ length (sentBatches (effects (blpOf st'))) = 1%nat.
Proof.
  destruct (parseBinlogEvents (startLoop dbSubscriber) otherDb) as [st'|x] eqn:Hrun;
    [|vm_compute in Hrun; discriminate Hrun].
  exists st'. split; [reflexivity|]. split.
  - exact (proj2 (proj2 (@database_change_is_never_seen externals)) _ _ _ _ _ Hrun).
  - vm_compute in Hrun. injection Hrun as <-. vm_compute. reflexivity.
Defined.

Lemma statement_is_joined_across_lines_witness :
  parseBinlogEvents (startLoop subscriber) twoLines
  = parseLine (startLoop subscriber) "create table a (id int)/*!*/;"
  ∧ ∃ st' : loopState,
      parseBinlogEvents (startLoop subscriber) twoLines = Ok st'
      ∧ map (map Sql) (sentBatches (effects (blpOf st'))) = [[["create table a (id int)"]]].
Proof.
  split.
  - eapply (@statement_is_joined_across_lines externals (startLoop subscriber) _
              "create table a " "(id int)/*!*/;").
    + cbn. discriminate.
    + cbn. discriminate.
    + vm_compute. reflexivity.
    + reflexivity.
  - eexists. split; vm_compute; reflexivity.
Defined.

Lemma dml_outside_a_transaction_ends_the_stream_witness :
  parseLine (startLoop subscriber) "insert into t(id) values (1) /*!*/;"
  = Panic (PanicParse (ErrDmlOutsideTxn 0 "insert into t(id) values (1)" [])).
Proof.
  apply (@dml_outside_a_transaction_ends_the_stream externals (startLoop subscriber)
           "insert into t(id) values (1) ").
  - cbn. discriminate.
  - reflexivity.
  - reflexivity.
  - reflexivity.
  - vm_compute. reflexivity.
Defined.

Lemma statements_before_the_start_position_are_dropped_witness :
  parseBinlogEvents (startLoop replicaSubscriber)
    ["SET TIMESTAMP=1357041601/*!*/;"; "BEGIN"; "/*!*/;"; "COMMIT/*!*/;"]
  = Ok (startLoop replicaSubscriber).
Proof.
  apply (@statements_before_the_start_position_are_dropped externals).
  - reflexivity.
  - reflexivity.
  - reflexivity.
  - repeat constructor; cbn; discriminate.
Defined.

End ParserLineFacts.

(** ** vt_binlog_server.go: the lines of a DML event *)

Module BinlogPrefixFacts.
Import GoBytes Mysqlctl BinlogServer BinlogServerFacts.

Section WithExternals.
Context `{Externals}.

(** A DML that carries a keyspace id leaves the buffer of prefixes empty. *)
Lemma loop_carrier (kr : Key.KeyRange) (ev : eventBuffer) (rest : list eventBuffer)
    (acc : list BinlogResponse) (n : Z) (buf : list string)
    (out : list BinlogResponse * Z) :
  isStatement ev = true → carriesKey ev = true →
  buildTxnResponse_loop kr (ev :: rest) acc n buf = Ok out →
  ∃ acc' n', (∃ ext, acc' = acc ++ ext)
             ∧ buildTxnResponse_loop kr rest acc' n' [] = Ok out.
Proof.
  intros [Hb Hc]%isStatement_prefixes Hkey. cbn [buildTxnResponse_loop].
  rewrite Hb, Hc. unfold carriesKey, isDml in Hkey.
  apply andb_true_iff in Hkey as [Hdml Hkey]. rewrite Hdml.
  cbv [mbind result_bind].
  destruct (parseKeyspaceId _ _) as [[str id]|]; [|discriminate].
  apply negb_true_iff in Hkey. rewrite Hkey.
  destruct (KeyRange_Contains kr id); cbn [negb].
  - destruct (createDmlEvent ev str) as [r|]; [|discriminate].
    intros Hout. eexists _, _. split; [|exact Hout]. by eexists.
  - intros Hout. exists acc, n. split; [|exact Hout]. exists []. by rewrite app_nil_r.
Qed.

(** The responses are added at the end of those built before. *)
Lemma loop_extends (kr : Key.KeyRange) (events : list eventBuffer) :
  ∀ (acc : list BinlogResponse) (n : Z) (buf : list string)
    (res : list BinlogResponse) (m : Z),
    buildTxnResponse_loop kr events acc n buf = Ok (res, m) →
    ∃ ext, res = acc ++ ext.
Proof.
  induction events as [|ev events IH]; intros acc n buf res m; cbn [buildTxnResponse_loop].
  - intros [= <- <-]. exists []. by rewrite app_nil_r.
  - cbv [mbind result_bind]. intros Hout.
    assert (Hstep : ∃ acc' n' buf', (∃ ext, acc' = acc ++ ext)
                      ∧ buildTxnResponse_loop kr events acc' n' buf' = Ok (res, m)).
    { repeat match type of Hout with
             | context [match ?x with _ => _ end] =>
                 lazymatch x with
                 | context [match _ with _ => _ end] => fail
                 | _ => destruct x eqn:?; try discriminate Hout
                 end
             end;
        eexists _, _, _; (split; [|exact Hout]);
        first [by eexists | exists []; by rewrite app_nil_r]. }
    destruct Hstep as (acc' & n' & buf' & [ext ->] & Hrest).
    destruct (IH _ _ _ _ _ Hrest) as [ext' ->].
    exists (ext ++ ext'). by rewrite app_assoc.
Qed.

(** Over the statements up to a DML that carries a keyspace id. *)
Lemma loop_upToKey (kr : Key.KeyRange) (stmts tail : list eventBuffer)
    (acc : list BinlogResponse) (n : Z) (out : list BinlogResponse * Z) :
  Forall (λ ev, isStatement ev = true) stmts → upToKey stmts →
  buildTxnResponse_loop kr (stmts ++ tail) acc n [] = Ok out →
  ∃ acc' n', (∃ ext, acc' = acc ++ ext)
             ∧ buildTxnResponse_loop kr tail acc' n' [] = Ok out.
Proof.
  intros Hall [->|(init & last & -> & Hkey)] Hout.
  - exists acc, n. split; [|exact Hout]. exists []. by rewrite app_nil_r.
  - apply Forall_app in Hall as [Hinit Hlast]. apply Forall_cons in Hlast as [Hlast _].
    rewrite <- app_assoc in Hout.
    apply loop_statements in Hout as (dmls & buf' & _ & Hout); [|done].
    cbn [app] in Hout.
    apply loop_carrier in Hout as (acc' & n' & [ext ->] & Hout); [|done..].
    exists ((acc ++ dmls) ++ ext), n'. split; [|exact Hout].
    exists (dmls ++ ext). by rewrite app_assoc.
Qed.

(** Over the statements between: the lines that are no DML are kept. *)
Lemma loop_between (kr : Key.KeyRange) (stmts tail : list eventBuffer) :
  ∀ (acc : list BinlogResponse) (n : Z) (buf : list string),
    Forall (λ ev, between ev = true) stmts →
    buildTxnResponse_loop kr (stmts ++ tail) acc n buf
    = buildTxnResponse_loop kr tail acc n
        (buf ++ map LogLine (List.filter (λ ev, negb (isDml ev)) stmts)).
Proof.
  induction stmts as [|ev stmts IH]; intros acc n buf Hall.
  - cbn [app List.filter map]. by rewrite app_nil_r.
  - apply Forall_cons in Hall as [Hev Hall]. unfold between in Hev.
    apply andb_true_iff in Hev as [Hst Hev].
    apply isStatement_prefixes in Hst as [Hb Hc].
    cbn [app buildTxnResponse_loop List.filter]. rewrite Hb, Hc.
    unfold isControl, isDml in *.
    destruct (String.eqb (GetSqlType (firstKw ev)) DML); cbn [negb orb andb] in *.
    + cbv [mbind result_bind].
      destruct (parseKeyspaceId _ _) as [[str id]|]; [|discriminate]. rewrite Hev.
      by apply IH.
    + rewrite IH by done. cbn [map]. by rewrite <- app_assoc.
Qed.

(** X12. The statements that are no DML travel with the next DML of the key
    range.  In the buffer of a transaction, after the BEGIN and after
    statements that are none or end with a DML that carries a keyspace id (in
    the key range or not), let statements follow that are no DML (SET
    INSERT_ID, SET TIMESTAMP) or are DMLs on the control database, and then a
    DML of the key range.  Then the response of that DML holds, as its [Sql],
    the lines of the statements that are no DML, in their order, and last the
    DML itself: the lines before a DML out of the key range are dropped with
    it, and the DMLs on the control database are left out. *)
Theorem prefixes_travel_with_the_next_dml
    (blp : Blp) (b dml : eventBuffer) (before prefixes after : list eventBuffer)
    (resp : list BinlogResponse) (dmlCount : Z) :
  txnLineBuffer blp = b :: before ++ prefixes ++ dml :: after →
  isBegin b = true →
  Forall (λ ev, isStatement ev = true) before →
  upToKey before →
  Forall (λ ev, between ev = true) prefixes →
  isStatement dml = true →
  inKeyRange (keyspaceRange blp) dml = true →
  buildTxnResponse blp = Ok (resp, dmlCount) →
  ∃ (sent later : list BinlogResponse) (r : BinlogResponse),
    resp = sent ++ r :: later
    ∧ dmlEventOf r dml
    ∧ Sql r = map LogLine (List.filter (λ ev, negb (isDml ev)) prefixes) ++ [LogLine dml].
Proof.
  intros Hbuf Hb Hbefore Hkey Hpre Hst Hin. unfold buildTxnResponse. rewrite Hbuf.
  cbn [buildTxnResponse_loop]. unfold isBegin in Hb. rewrite Hb.
  cbv [mbind result_bind].
  destruct (createBeginEvent b) as [rb|]; [|discriminate].
  intros Hout.
  apply loop_upToKey in Hout as (acc1 & n1 & _ & Hout); [|done..].
  rewrite loop_between in Hout by done. cbn [app] in Hout.
  apply isStatement_prefixes in Hst as [Hb' Hc'].
  cbn [buildTxnResponse_loop] in Hout. rewrite Hb', Hc' in Hout.
  unfold inKeyRange, isDml in Hin. apply andb_true_iff in Hin as [Hdml Hin].
  rewrite Hdml in Hout. cbv [mbind result_bind] in Hout.
  destruct (parseKeyspaceId _ _) as [[str id]|] eqn:Hk; [|discriminate].
  apply andb_true_iff in Hin as [Hstr Hcontains]. apply negb_true_iff in Hstr.
  rewrite Hstr, Hcontains in Hout. cbn [negb] in Hout.
  destruct (createDmlEvent dml str) as [r0|] eqn:Hr0; [|discriminate].
  destruct (loop_extends _ _ _ _ _ _ _ Hout) as [later Hresp].
  exists acc1, later,
    (set_Sql (map LogLine (List.filter (λ ev, negb (isDml ev)) prefixes) ++ [LogLine dml]) r0).
  split; [by rewrite Hresp, <- app_assoc|].
  apply createDmlEvent_Ok in Hr0 as (Hty & Hks & Hstamp).
  split; [|done].
  split; [exact Hty|]. split; [exists id; cbn; congruence|].
  split; [by eexists|exact Hstamp].
Qed.

End WithExternals.

Import Scenario.

Lemma prefixes_travel_with_the_next_dml_witness :
  ∃ (sent later : list BinlogResponse) (r : BinlogResponse),
    buildTxnResponse insertIdBuffer = Ok (sent ++ r :: later, 1)
    ∧ Sql r = ["SET INSERT_ID=7";
               "insert into u(id) values (null) "
               +:+ "/* EMD keyspace_id: 11529215046068469760 user_id 2 */"].
Proof.
  destruct (txnLineBuffer insertIdBuffer) as [|b [|s1 [|s2 [|d [|]]]]] eqn:Hbuf;
    try (vm_compute in Hbuf; discriminate Hbuf).
  destruct (buildTxnResponse insertIdBuffer) as [[resp dmlCount]|x] eqn:Hresp;
    [|vm_compute in Hresp; discriminate Hresp].
  assert (Hcount : dmlCount = 1).
  { vm_compute in Hresp. by injection Hresp as _ <-. }
  vm_compute in Hbuf. injection Hbuf as <- <- <- <-.
  destruct (@prefixes_travel_with_the_next_dml externals insertIdBuffer _ _
              [_] [_] [] resp dmlCount eq_refl) as (sent & later & r & -> & _ & Hsql).
  - reflexivity.
  - repeat constructor.
  - right. eexists [], _. split; [reflexivity|]. vm_compute. reflexivity.
  - repeat constructor.
  - reflexivity.
  - vm_compute. reflexivity.
  - exact Hresp.
  - exists sent, later, r. split; [by rewrite Hcount|].
    rewrite Hsql. vm_compute. reflexivity.
Defined.

End BinlogPrefixFacts.

(** ** binlog_reader.go: the copy loop *)

Module BinlogCopyFacts.
Import BinlogReader BinlogReaderFacts.

(** One log is copied from [position] to its end, whatever the block size,
    and the loop turns to the next log. *)
Lemma copyLoop_drain (BinlogBlockSize : Z) (dir : gmap Z file) (binlogFile : file)
    (nextLog : Z) :
  0 < BinlogBlockSize →
  ∀ (k : nat) (position : Z) (written : list Byte.byte),
    0 ≤ position →
    (length (skipn (Z.to_nat position) binlogFile) ≤ k)%nat →
    ∃ n : nat, ∀ fuel : nat,
      copyLoop (n + S fuel) BinlogBlockSize dir binlogFile nextLog position written
      = match open dir nextLog with
        | Some (binlogFile', nextLog') =>
            copyLoop fuel BinlogBlockSize dir binlogFile' nextLog' BINLOG_HEADER_SIZE
              (written ++ skipn (Z.to_nat position) binlogFile)
        | None => Some (written ++ skipn (Z.to_nat position) binlogFile)
        end.
Proof.
  intros Hbs. induction k as [|k IH]; intros position written Hpos Hlen.
  - exists 0%nat. intros fuel. cbn [Nat.add copyLoop].
    destruct (skipn (Z.to_nat position) binlogFile) as [|b rest] eqn:Hrest;
      [|cbn in Hlen; lia].
    rewrite firstn_nil. unfold fileSize. cbn [length].
    destruct (Z.eqb_spec (Z.of_nat 0) BinlogBlockSize) as [Heq|_]; [lia|]. done.
  - set (rest := skipn (Z.to_nat position) binlogFile) in *.
    destruct (Z_lt_le_dec (Z.of_nat (length rest)) BinlogBlockSize) as [Hshort|Hfull].
    + exists 0%nat. intros fuel. cbn [Nat.add copyLoop]. fold rest.
      rewrite firstn_all2 by lia. unfold fileSize.
      destruct (Z.eqb_spec (Z.of_nat (length rest)) BinlogBlockSize) as [Heq|_]; [lia|].
      done.
    + destruct (IH (position + BinlogBlockSize)
                  (written ++ firstn (Z.to_nat BinlogBlockSize) rest)) as [n Hn].
      * lia.
      * replace (Z.to_nat (position + BinlogBlockSize))
          with (Z.to_nat BinlogBlockSize + Z.to_nat position)%nat by lia.
        rewrite <- skipn_skipn. fold rest. rewrite length_skipn. lia.
      * exists (S n). intros fuel. cbn [Nat.add copyLoop]. fold rest.
        unfold fileSize. rewrite length_firstn.
        destruct (Z.eqb_spec (Z.of_nat (Init.Nat.min (Z.to_nat BinlogBlockSize)
                                          (length rest))) BinlogBlockSize)
          as [_|Hne]; [|lia].
        rewrite Hn.
        replace (Z.to_nat (position + BinlogBlockSize))
          with (Z.to_nat BinlogBlockSize + Z.to_nat position)%nat by lia.
        rewrite <- skipn_skipn. fold rest.
        rewrite <- !(assoc_L (++)), firstn_skipn. reflexivity.
Qed.

Lemma copyLoop_logs (BinlogBlockSize : Z) (dir : gmap Z file) (nextLog : Z)
    (logs : list file) :
  0 < BinlogBlockSize →
  logsFrom dir nextLog logs →
  ∀ (binlogFile : file) (position : Z) (written : list Byte.byte),
    0 ≤ position →
    ∃ n : nat, ∀ fuel : nat,
      (n ≤ fuel)%nat →
      copyLoop fuel BinlogBlockSize dir binlogFile nextLog position written
      = Some (written ++ skipn (Z.to_nat position) binlogFile ++ concat (map body logs)).
Proof.
  intros Hbs Hlogs. induction Hlogs as [id Hid|id f fs Hid _ IH];
    intros binlogFile position written Hpos.
  - destruct (copyLoop_drain BinlogBlockSize dir binlogFile id Hbs _ position written
                Hpos (le_n _)) as [n Hn].
    exists (n + 1)%nat. intros fuel Hfuel.
    replace fuel with (n + S (fuel - n - 1))%nat by lia.
    rewrite Hn. unfold open. rewrite Hid. cbn [map concat]. by rewrite app_nil_r.
  - destruct (copyLoop_drain BinlogBlockSize dir binlogFile id Hbs _ position written
                Hpos (le_n _)) as [n Hn].
    destruct (IH f BINLOG_HEADER_SIZE (written ++ skipn (Z.to_nat position) binlogFile))
      as [m Hm]; [done|].
    exists (n + S m)%nat. intros fuel Hfuel.
    replace fuel with (n + S (fuel - n - 1))%nat by lia.
    rewrite Hn. unfold open. rewrite Hid. rewrite Hm by lia.
    cbn [map concat]. fold (body f). by rewrite <- !(assoc_L (++)).
Qed.

(** A directory is finite: the logs from any id on come to an end. *)
Lemma logsFrom_total (dir : gmap Z file) (id : Z) : ∃ logs, logsFrom dir id logs.
Proof.
  assert (Hgen : ∀ (k : nat) (dir : gmap Z file) (id : Z),
            (remaining dir id ≤ k)%nat → ∃ logs, logsFrom dir id logs).
  { clear. unfold remaining. induction k as [|k IH]; intros dir id Hk.
    - exists []. constructor. destruct (dir !! id) as [f|] eqn:Hid; [|done].
      assert (Hin : filter (λ kv : Z * file, id ≤ kv.1) dir !! id = Some f).
      { apply map_lookup_filter_Some. split; [done|]. cbn. lia. }
      assert (Hempty : filter (λ kv : Z * file, id ≤ kv.1) dir = ∅).
      { apply map_size_empty_iff. lia. }
      rewrite Hempty, lookup_empty in Hin. discriminate.
    - destruct (dir !! id) as [f|] eqn:Hid; [|exists []; by constructor].
      destruct (IH dir (id + 1)) as [logs Hlogs]; [|exists (f :: logs); by constructor].
      assert (Hsub : filter (λ kv : Z * file, id + 1 ≤ kv.1) dir
                     ⊆ delete id (filter (λ kv : Z * file, id ≤ kv.1) dir)).
      { apply map_subseteq_spec. intros i x Hix.
        apply map_lookup_filter_Some in Hix as [Hix Hle]. cbn in Hle.
        rewrite lookup_delete_ne by lia. apply map_lookup_filter_Some. split; [done|].
        cbn. lia. }
      apply map_subseteq_size in Hsub.
      assert (Hin : filter (λ kv : Z * file, id ≤ kv.1) dir !! id = Some f).
      { apply map_lookup_filter_Some. split; [done|]. cbn. lia. }
      rewrite map_size_delete, Hin in Hsub. cbn in Hsub. lia. }
  by apply (Hgen _ dir id (le_n _)).
Qed.

(** X13. On a log directory that does not change, the copy loop of [serve]
    and [ServeData] writes, after what has been written before it, the rest
    of the open log from the position it starts at, and then every log that
    follows in the directory, each without its first [BINLOG_HEADER_SIZE]
    bytes, up to the first log that does not exist.  This holds for every
    block size above zero, and the loop comes to its end: the directory being
    finite, there is a last log. *)
Theorem copy_loop_streams_the_logs (BinlogBlockSize : Z) (dir : gmap Z file)
    (binlogFile : file) (nextLog position : Z) (written : list Byte.byte) :
  0 < BinlogBlockSize → 0 ≤ position →
  ∃ (logs : list file) (n : nat),
    logsFrom dir nextLog logs
    ∧ ∀ fuel : nat,
        (n ≤ fuel)%nat →
        copyLoop fuel BinlogBlockSize dir binlogFile nextLog position written
        = Some (written ++ skipn (Z.to_nat position) binlogFile ++ concat (map body logs)).
Proof.
  intros Hbs Hpos. destruct (logsFrom_total dir nextLog) as [logs Hlogs].
  destruct (copyLoop_logs BinlogBlockSize dir nextLog logs Hbs Hlogs binlogFile position
              written Hpos) as [n Hn].
  by exists logs, n.
Qed.

(** X14. What [ServeData] writes on a log directory that does not change.
    From start position zero: the whole start log, then the logs that follow
    without their headers.  From a start position within the start log: the
    header and the first event of the start log, then the start log from the
    start position, then the logs that follow without their headers; nothing
    past the injected prefix when the log is shorter than the prefix, and
    nothing at all when the length of the first event cannot be read or the
    start position is beyond the log. *)
Theorem ServeData_streams_from_the_start_position (BinlogBlockSize : Z)
    (dir : gmap Z file) (filename startPosition : Z) (binlogFile : file)
    (logs : list file) :
  0 < BinlogBlockSize →
  dir !! filename = Some binlogFile →
  logsFrom dir (filename + 1) logs →
  ∃ n : nat, ∀ fuel : nat,
    (n ≤ fuel)%nat →
    stream fuel BinlogBlockSize dir (ServeData dir filename startPosition)
    = Some
        (if startPosition >? 0 then
           if startPosition >? fileSize binlogFile then []
           else
             match readFirstEventSize binlogFile with
             | None => []
             | Some firstEventSize =>
                 let prefixSize := (BINLOG_HEADER_SIZE + firstEventSize) mod 2 ^ 32 in
                 firstn (Z.to_nat prefixSize) binlogFile
                 ++ (if fileSize binlogFile <? prefixSize then []
                     else skipn (Z.to_nat startPosition) binlogFile
                          ++ concat (map body logs))
             end
         else binlogFile ++ concat (map body logs)).
Proof.
  intros Hbs Hfile Hlogs. unfold ServeData, open. rewrite Hfile.
  destruct (Z.gtb_spec startPosition 0) as [Hpos|Hpos].
  - destruct (Z.gtb_spec startPosition (fileSize binlogFile)) as [Hbig|Hfit].
    { exists 0%nat. by intros fuel _. }
    unfold inject. destruct (readFirstEventSize binlogFile) as [firstEventSize|].
    2:{ exists 0%nat. by intros fuel _. }
    cbv zeta. destruct (fileSize binlogFile <? _).
    { exists 0%nat. intros fuel _. cbn [stream]. by rewrite app_nil_r. }
    destruct (copyLoop_logs BinlogBlockSize dir (filename + 1) logs Hbs Hlogs binlogFile
                startPosition
                (firstn (Z.to_nat ((BINLOG_HEADER_SIZE + firstEventSize) mod 2 ^ 32))
                   binlogFile)) as [n Hn]; [lia|].
    exists n. intros fuel Hfuel. cbn [stream]. unfold open. rewrite Hfile. by apply Hn.
  - destruct (copyLoop_logs BinlogBlockSize dir (filename + 1) logs Hbs Hlogs binlogFile
                0 []) as [n Hn]; [lia|].
    exists n. intros fuel Hfuel. cbn [stream]. unfold open. rewrite Hfile.
    rewrite Hn by done. reflexivity.
Qed.

Lemma lands_positive (dir : gmap Z file) (id pos id' pos' : Z) :
  lands dir id pos id' pos' → 0 < pos → 0 < pos'.
Proof. induction 1; intros Hpos; [done|]. apply IHlands. lia. Qed.

(** X15. What [serve] writes on a log directory that does not change.  From
    a start position above zero that lands, after the sizes of the logs
    before it are taken off, within a log: the header and the first event of
    that log, then that log from where the position lands, then the logs that
    follow without their headers (nothing past the injected prefix when the
    log is shorter than the prefix, nothing at all when the length of the
    first event cannot be read).  From a start position of zero or below: the
    whole start log, then the logs that follow without their headers. *)
Theorem serve_streams_from_where_the_offset_lands (BinlogBlockSize : Z)
    (dir : gmap Z file) (filename startPosition : Z) :
  0 < BinlogBlockSize →
  (∀ (id' pos' : Z) (binlogFile : file) (logs : list file),
     0 < startPosition →
     lands dir filename startPosition id' pos' →
     dir !! id' = Some binlogFile →
     logsFrom dir (id' + 1) logs →
     ∃ n : nat, ∀ fuel : nat,
       (n ≤ fuel)%nat →
       serve dir filename startPosition ≫= stream fuel BinlogBlockSize dir
       = Some
           match readFirstEventSize binlogFile with
           | None => []
           | Some firstEventSize =>
               let prefixSize := (BINLOG_HEADER_SIZE + firstEventSize) mod 2 ^ 32 in
               firstn (Z.to_nat prefixSize) binlogFile
               ++ (if fileSize binlogFile <? prefixSize then []
                   else skipn (Z.to_nat pos') binlogFile ++ concat (map body logs))
           end)
  ∧ (∀ (binlogFile : file) (logs : list file),
       startPosition ≤ 0 →
       dir !! filename = Some binlogFile →
       logsFrom dir (filename + 1) logs →
       ∃ n : nat, ∀ fuel : nat,
         (n ≤ fuel)%nat →
         serve dir filename startPosition ≫= stream fuel BinlogBlockSize dir
         = Some (binlogFile ++ concat (map body logs))).
Proof.
  intros Hbs. split.
  - intros id' pos' binlogFile logs Hpos Hlands Hfile Hlogs.
    assert (Hgt : (startPosition >? 0) = true)
      by (destruct (Z.gtb_spec startPosition 0); [done|lia]).
    destruct (lands_start _ _ _ _ _ Hlands) as [f Hf].
    destruct (serve_rotate_lands dir _ _ _ _ Hlands f Hf) as (f' & fuel0 & Hf' & Hrun).
    rewrite Hfile in Hf'. injection Hf' as <-.
    assert (Hserve : serve dir filename startPosition
                     = Some (inject binlogFile id' pos')).
    { unfold serve, open. rewrite Hf, Hgt. by apply (serve_rotate_result dir f _ _ fuel0). }
    rewrite Hserve. cbn [mbind option_bind]. unfold inject.
    destruct (readFirstEventSize binlogFile) as [firstEventSize|].
    2:{ exists 0%nat. by intros fuel _. }
    cbv zeta. destruct (fileSize binlogFile <? _).
    { exists 0%nat. intros fuel _. cbn [stream]. by rewrite app_nil_r. }
    pose proof (lands_positive _ _ _ _ _ Hlands Hpos) as Hpos'.
    destruct (copyLoop_logs BinlogBlockSize dir (id' + 1) logs Hbs Hlogs binlogFile pos'
                (firstn (Z.to_nat ((BINLOG_HEADER_SIZE + firstEventSize) mod 2 ^ 32))
                   binlogFile)) as [n Hn]; [lia|].
    exists n. intros fuel Hfuel. cbn [stream]. unfold open. rewrite Hfile. by apply Hn.
  - intros binlogFile logs Hpos Hfile Hlogs.
    assert (Hgt : (startPosition >? 0) = false)
      by (destruct (Z.gtb_spec startPosition 0); [lia|done]).
    destruct (copyLoop_logs BinlogBlockSize dir (filename + 1) logs Hbs Hlogs binlogFile
                0 []) as [n Hn]; [lia|].
    exists n. intros fuel Hfuel. unfold serve, open. rewrite Hfile, Hgt.
    cbn [mbind option_bind stream]. unfold open. rewrite Hfile.
    rewrite Hn by done. reflexivity.
Qed.


Lemma copy_loop_streams_the_logs_witness :
  ∃ (logs : list file) (n : nat),
    logsFrom twoLogs 2 logs
    ∧ ∀ fuel : nat,
        (n ≤ fuel)%nat →
        copyLoop fuel 16 twoLogs (binlog 100) 2 0 []
        = Some ([] ++ skipn (Z.to_nat 0) (binlog 100) ++ concat (map body logs)).
Proof.
  apply (copy_loop_streams_the_logs 16 twoLogs (binlog 100) 2 0 []); [reflexivity|].
  apply Z.le_refl.
Defined.

Lemma ServeData_streams_from_the_start_position_witness :
  ∃ n : nat, ∀ fuel : nat,
    (n ≤ fuel)%nat →
    stream fuel 16384 twoLogs (ServeData twoLogs 1 50)
    = Some (firstn 23 (binlog 100) ++ skipn 50 (binlog 100) ++ body (binlog 200)).
Proof.
  assert (Hlogs : logsFrom twoLogs (1 + 1) [binlog 200]).
  { apply logsFrom_next; [vm_compute; reflexivity|].
    apply logsFrom_end. vm_compute. reflexivity. }
  destruct (ServeData_streams_from_the_start_position 16384 twoLogs 1 50 (binlog 100)
              [binlog 200] eq_refl eq_refl Hlogs) as [n Hn].
  exists n. intros fuel Hfuel. rewrite (Hn fuel Hfuel). vm_compute. reflexivity.
Defined.

Lemma serve_streams_from_where_the_offset_lands_witness :
  ∃ n : nat, ∀ fuel : nat,
    (n ≤ fuel)%nat →
    serve twoLogs 1 150 ≫= stream fuel 16384 twoLogs
    = Some (firstn 23 (binlog 200) ++ skipn 50 (binlog 200)).
Proof.
  assert (Hlands : lands twoLogs 1 150 2 50).
  { apply (lands_next _ 1 150 2 50 (binlog 100)); [vm_compute; reflexivity|reflexivity|].
    apply (lands_here _ 2 50 (binlog 200)); [vm_compute; reflexivity|].
    vm_compute. discriminate. }
  assert (Hlogs : logsFrom twoLogs (2 + 1) []).
  { apply logsFrom_end. vm_compute. reflexivity. }
  destruct (proj1 (serve_streams_from_where_the_offset_lands 16384 twoLogs 1 150 eq_refl)
              2 50 (binlog 200) [] eq_refl Hlands eq_refl Hlogs) as [n Hn].
  exists n. intros fuel Hfuel. rewrite (Hn fuel Hfuel). vm_compute. reflexivity.
Defined.

End BinlogCopyFacts.

(** ** vt_binlog_server.go: the rates and the ticks of the throttle *)

Module ThrottleTickerFacts.
Import Mysqlctl BinlogServer Throttle Scenario ThrottleFacts.

Lemma avgRate_loop_filter (rateList : list float) (acc : float * float) :
  fold_left (λ '(avg, count) rate,
               if (0 <? rate)%float then ((avg + rate)%float, (count + 1)%float)
               else (avg, count))
            rateList acc
  = fold_left (λ '(avg, count) rate,
                 if (0 <? rate)%float then ((avg + rate)%float, (count + 1)%float)
                 else (avg, count))
              (List.filter (λ rate, (0 <? rate)%float) rateList) acc.
Proof.
  revert acc. induction rateList as [|rate rateList IH]; intros [avg count]; [done|].
  cbn [fold_left List.filter]. destruct (0 <? rate)%float eqn:Hrate.
  - cbn [fold_left]. rewrite Hrate. apply IH.
  - apply IH.
Qed.

(** X16. [avgRate] is the average of the rates above zero: the rates that
    are zero, negative or not a number count neither in the sum nor in the
    number of rates, and the average of a list without a rate above zero is
    zero. *)
Theorem avgRate_counts_positive_rates_only (rateList : list float) :
  avgRate rateList = avgRate (List.filter (λ rate, (0 <? rate)%float) rateList)
  ∧ (List.filter (λ rate, (0 <? rate)%float) rateList = [] → avgRate rateList = 0%float).
Proof.
  split.
  - unfold avgRate. by rewrite avgRate_loop_filter.
  - intros Hnone. unfold avgRate. rewrite avgRate_loop_filter, Hnone. reflexivity.
Qed.

(** X17. A tick under the ceiling does not lift a throttle.  Over any number
    of ticks that find the sum of the average rates at or below a ceiling
    that is not zero, the clients are left as they were, each with the sleep
    it had, and the ticker goes on.  A tick that finds the ceiling zero sets
    the sleep of every client to zero and ends the ticker. *)
Theorem throttle_is_not_lifted_under_the_ceiling
    (throttleRate : float) (clients : list Blp)
    (rateMaps : list (list (string * list float))) (krRateMap : gmap string float) :
  clients ≠ [] →
  (throttleRate =? 0)%float = false →
  Forall (λ rateMap, (throttleRate <? totalQps rateMap)%float = false) rateMaps →
  clientsOf (throttleTicker throttleRate clients (map Some rateMaps) krRateMap) = clients
  ∧ goesOn (throttleTicker throttleRate clients (map Some rateMaps) krRateMap) = true
  ∧ ∀ rateMap later,
      clientsOf (throttleTicker 0 clients (rateMap :: later) krRateMap)
      = map (set_sleepToThrottle 0) clients
      ∧ goesOn (throttleTicker 0 clients (rateMap :: later) krRateMap) = false.
Proof.
  intros Hne Hrate Hunder. split; [|split].
  - revert krRateMap. induction Hunder as [|rateMap rateMaps Htotal _ IH]; intros krRateMap;
      [done|].
    cbn [map throttleTicker]. unfold throttleTick.
    destruct clients as [|c0 clients0] eqn:Hclients; [done|]. rewrite <- Hclients in *.
    rewrite Hrate. unfold rateLoop. rewrite rateLoop_unfold.
    fold (totalQps rateMap). rewrite Htotal. cbn [goesOn clientsOf krRateMapOf]. apply IH.
  - revert krRateMap. induction Hunder as [|rateMap rateMaps Htotal _ IH]; intros krRateMap;
      [done|].
    cbn [map throttleTicker]. unfold throttleTick.
    destruct clients as [|c0 clients0] eqn:Hclients; [done|]. rewrite <- Hclients in *.
    rewrite Hrate. unfold rateLoop. rewrite rateLoop_unfold.
    fold (totalQps rateMap). rewrite Htotal. cbn [goesOn clientsOf krRateMapOf]. apply IH.
  - intros rateMap later. cbn [throttleTicker]. unfold throttleTick.
    destruct clients as [|c0 clients0]; [done|].
    change (0 =? 0)%float with true. cbv iota. done.
Qed.

Lemma avgRate_counts_positive_rates_only_witness :
  avgRate [0%float; nan; 4%float; 2%float] = avgRate [4%float; 2%float]
  ∧ avgRate [0%float; nan] = 0%float.
Proof.
  split.
  - exact (proj1 (avgRate_counts_positive_rates_only [0%float; nan; 4%float; 2%float])).
  - apply (proj2 (avgRate_counts_positive_rates_only [0%float; nan])). reflexivity.
Defined.

Lemma throttle_is_not_lifted_under_the_ceiling_witness :
  map sleepToThrottle
      (clientsOf (throttleTicker 5000 [slowed; steady] (map Some [rates; rates]) ∅))
  = [45 * Millisecond; 0]
  ∧ goesOn (throttleTicker 5000 [slowed; steady] (map Some [rates; rates]) ∅) = true.
Proof.
  assert (Hne : [slowed; steady] ≠ []) by discriminate.
  assert (Hrate : (5000 =? 0)%float = false) by (vm_compute; reflexivity).
  assert (Hunder : Forall (λ rateMap, (5000 <? totalQps rateMap)%float = false)
                     [rates; rates]).
  { repeat constructor; vm_compute; reflexivity. }
  destruct (throttle_is_not_lifted_under_the_ceiling 5000 [slowed; steady] [rates; rates] ∅
              Hne Hrate Hunder) as (Hsame & Hon & _).
  split; [|exact Hon]. rewrite Hsame. vm_compute. reflexivity.
Defined.

End ThrottleTickerFacts.

(** ** Streaming behind replication, and the database filter of the update
    stream *)

Module ReplicationFacts.
Import GoBytes Mysqlctl BinlogServer.

(** X18. [slavePosBehindReplication] follows the order of the coordinates.
    When it returns, it says that streaming is behind replication exactly
    when the current position of the parser is at or before the position of
    replication, positions of one file index being ordered by the offset and
    positions across files by the index, or when the two file names differ
    and carry the same index: then the offsets are not compared. *)
Theorem behind_replication_follows_the_coordinate_order
    (blp : Blp) (repl : ReplicationCoordinates) (behind : bool) :
  slavePosBehindReplication blp repl = Some behind →
  (behind = true
   ↔ posLe (current blp) (master repl)
     ∨ (MasterFilename repl ≠ MasterFilename (coordinates (currentPosition blp))
        ∧ fileIndex (MasterFilename repl)
          = fileIndex (MasterFilename (coordinates (currentPosition blp))))).
Proof.
  unfold slavePosBehindReplication, posLe, current, master, fileIndex. cbn [fst snd].
  destruct (String.eqb_spec (MasterFilename repl)
              (MasterFilename (coordinates (currentPosition blp)))) as [Heq|Hne].
  - intros [= <-]. rewrite Heq. rewrite Z.leb_le. split.
    + intros Hle. left. right. by split.
    + intros [[Hlt|[_ Hle]]|[Hne _]]; [lia|done|done].
  - destruct (Split (MasterFilename repl) "." !! 1%nat) as [ext|]; [|discriminate].
    destruct (ParseUint ext) as [replExt|]; [|discriminate].
    destruct (Split (MasterFilename (coordinates (currentPosition blp))) "." !! 1%nat)
      as [ext'|]; [|discriminate].
    destruct (ParseUint ext') as [parseExt|]; [|discriminate].
    intros [= <-]. rewrite Z.geb_le. split.
    + intros Hle. destruct (Z.eq_dec parseExt replExt) as [->|Hdiff].
      * right. by split.
      * left. left. lia.
    + intros [[Hlt|[Heq _]]|[_ Heq]]; lia.
Qed.

Lemma behind_replication_follows_the_coordinate_order_witness :
  slavePosBehindReplication Scenario.subscriber (mkCoord "" 0 "mysql-bin.000002" 0)
  = Some true
  ∧ (posLe (current Scenario.subscriber) (master (mkCoord "" 0 "mysql-bin.000002" 0))
     ∨ (MasterFilename (mkCoord "" 0 "mysql-bin.000002" 0)
        ≠ MasterFilename (coordinates (currentPosition Scenario.subscriber))
        ∧ fileIndex (MasterFilename (mkCoord "" 0 "mysql-bin.000002" 0))
          = fileIndex (MasterFilename (coordinates (currentPosition Scenario.subscriber))))).
Proof.
  assert (Hbehind : slavePosBehindReplication Scenario.subscriber
                      (mkCoord "" 0 "mysql-bin.000002" 0) = Some true).
  { vm_compute. reflexivity. }
  split; [exact Hbehind|].
  by apply (behind_replication_follows_the_coordinate_order _ _ _ Hbehind).
Defined.

End ReplicationFacts.

Module UpdateStreamFacts.
Import GoBytes Mysqlctl UpdateStream.

Lemma TrimLeft_length (s cutset : string) :
  (String.length (TrimLeft s cutset) ≤ String.length s)%nat.
Proof.
  induction s as [|c s IH]; cbn [TrimLeft]; [done|].
  destruct (inCutset cutset c); cbn [String.length]; lia.
Qed.

(** X19. The database filter of the update stream.  [parseDbChange] never
    sets [dbmatch] back: once it is false it stays false, whatever line
    comes.  And the database is read by [TrimLeft] with the cutset "Use ",
    which takes off every leading U, s, e and space: the statement that
    changes to the database of the subscriber itself keeps [dbmatch] exactly
    when the name of the database begins with none of these characters. *)
Theorem update_stream_database_filter (dbname : string) :
  (∀ line, parseDbChange dbname false line = false)
  ∧ (∀ (c : ascii) (rest : string),
       dbname = String c rest →
       parseDbChange dbname true (BINLOG_DB_CHANGE +:+ dbname) = negb (inCutset USE c)).
Proof.
  split.
  - intros line. unfold parseDbChange.
    destruct (negb _); [done|]. destruct (String.eqb _ _); [done|]. by destruct (negb _).
  - intros c rest ->. unfold parseDbChange.
    change (HasPrefix (BINLOG_DB_CHANGE +:+ String c rest) BINLOG_DB_CHANGE) with
      (String.prefix "" (String c rest)).
    cbn [String.prefix negb String.eqb].
    change (TrimLeft (BINLOG_DB_CHANGE +:+ String c rest) USE)
      with (TrimLeft (String c rest) USE).
    cbn [TrimLeft]. destruct (inCutset USE c) eqn:Hc; cbn [negb].
    + assert (Hne : TrimLeft rest USE ≠ String c rest).
      { intros Heq. pose proof (TrimLeft_length rest USE) as Hlen.
        rewrite Heq in Hlen. cbn [String.length] in Hlen. lia. }
      apply String.eqb_neq in Hne. by rewrite Hne.
    + by rewrite String.eqb_refl.
Qed.

Lemma update_stream_database_filter_witness :
  parseDbChange "sales" true "Use sales" = false
  ∧ parseDbChange "vt_test" true "Use vt_test" = true.
Proof.
  split.
  - exact (proj2 (update_stream_database_filter "sales") "s"%char "ales" eq_refl).
  - exact (proj2 (update_stream_database_filter "vt_test") "v"%char "t_test" eq_refl).
Defined.

End UpdateStreamFacts.
